(** * Wait / retry layer of the QA automation framework

    Shallow embedding of
      - [WaitUtils.waitForElementToDisappear] and [WaitUtils.waitWithBackoff]
        (src/utils/WaitUtils.ts),
      - [BasePage.waitForVisible], [BasePage.waitForClickable],
        [BasePage.safeClick] and [BasePage.safeType] (pages/BasePage.ts),
      - the [Logger] wrapper they write to (utils/Logger.ts).

    The browser driver (WebdriverIO's [$], [element.click()],
    [browser.pause], ...) and the polled [condition] are external: they are
    modelled as state transformers over an arbitrary world [W], each call
    either fulfilling with a value or rejecting with an error.  The embedded
    code additionally emits the list of calls it makes (an event trace), so
    that statements such as "the locator is resolved again on every attempt"
    or "no pause follows the last attempt" can be read off a run.

    JavaScript numbers are modelled as mathematical integers ([Z]); the
    embedding is exact for integral arguments in the range where doubles are
    exact.  Thrown values are modelled as [Error] objects (name, message).

    The second half of the file embeds the code around that layer: the
    remaining checks and polled conditions of [BasePage] and [WaitUtils],
    the methods of [LoginPage], [HomePage] and [ProductPage] built on them,
    the HTTP client (api/BaseApiClient.ts), the password and SKU generators
    (utils/DataGenerator.ts) and the failure screenshots
    (utils/ScreenshotUtils.ts), with the properties proved of them under
    "Further properties". *)

From Equations Require Import Equations.
From Stdlib Require Import ZArith String Ascii DecimalString List Bool Lia Permutation.
Import ListNotations.

Local Open Scope string_scope.
Local Open Scope Z_scope.

(** The unfolding equations of the two loops below are proved by hand, so
    that nothing depends on functional extensionality. *)
Unset Equations With Funext.
Set Warnings "-solve_obligation_error".

(** ** JavaScript values used by the code *)

(** An [Error] object: [name] and [message]. *)
Record JsError : Type := mkJsError { err_name : string; err_message : string }.

(** [new Error(msg)]. *)
Definition new_Error (msg : string) : JsError := mkJsError "Error" msg.

(** [Error.prototype.toString], which is what [`${error}`] calls. *)
Definition error_toString (e : JsError) : string :=
  if String.eqb (err_name e) "" then err_message e
  else if String.eqb (err_message e) "" then err_name e
  else err_name e ++ ": " ++ err_message e.

(** [`${n}`] for an integral number. *)
Definition number_toString (n : Z) : string := NilZero.string_of_int (Z.to_int n).

(** An optional parameter with a default value ([x: number = d]). *)
Definition param {A : Type} (given : option A) (dflt : A) : A :=
  match given with Some a => a | None => dflt end.

(** [haystack.includes(needle)]. *)
Fixpoint includes (needle haystack : string) : bool :=
  String.prefix needle haystack ||
  match haystack with
  | EmptyString => false
  | String _ rest => includes needle rest
  end.

(** A settled promise / completed call: a value, or a thrown error. *)
Inductive Outcome (A : Type) : Type :=
| Returned (a : A)
| Threw (e : JsError).
Arguments Returned {A} a.
Arguments Threw {A} e.

(** A WebdriverIO element handle, as returned by [$(selector)]. *)
Definition Element : Type := nat.

(** winston levels used by [Logger]. *)
Inductive Level : Type := error | warn | info | debug | verbose.

Definition Level_eqb (a b : Level) : bool :=
  match a, b with
  | error, error | warn, warn | info, info | debug, debug | verbose, verbose => true
  | _, _ => false
  end.

(** ** Calls made by the embedded code, in order *)

Inductive Event : Type :=
| EvLog (component : string) (lvl : Level) (msg : string)
| EvPause (ms : Z)
| EvCondition (r : Outcome bool)
| EvResolve (selector : string) (r : Outcome Element)
| EvWaitForClickable (el : Element) (timeout : Z) (r : Outcome unit)
| EvWaitForDisplayed (el : Element) (timeout : Z) (reverse : bool) (r : Outcome unit)
| EvClick (el : Element) (r : Outcome unit)
| EvClearValue (el : Element) (r : Outcome unit)
| EvSetValue (el : Element) (text : string) (r : Outcome unit).

Definition Trace : Type := list Event.

(** Projections of a trace. *)
Definition pauses (t : Trace) : list Z :=
  flat_map (fun ev => match ev with EvPause ms => [ms] | _ => [] end) t.

Definition evaluations (t : Trace) : list (Outcome bool) :=
  flat_map (fun ev => match ev with EvCondition r => [r] | _ => [] end) t.

Definition resolutions (t : Trace) : list string :=
  flat_map (fun ev => match ev with EvResolve s _ => [s] | _ => [] end) t.

Definition logged (lvl : Level) (t : Trace) : list string :=
  flat_map (fun ev => match ev with
                      | EvLog _ l msg => if Level_eqb l lvl then [msg] else []
                      | _ => []
                      end) t.

Section Framework.

(** The state of everything outside the framework: browser, page, clock. *)
Variable W : Type.

(** ** The monad of the embedded code: world state, exceptions, trace *)

Definition M (A : Type) : Type := W -> Outcome A * W * Trace.

Definition ret {A} (a : A) : M A := fun w => (Returned a, w, []).

Definition throw {A} (e : JsError) : M A := fun w => (Threw e, w, []).

Definition bind {A B} (m : M A) (k : A -> M B) : M B :=
  fun w =>
    match m w with
    | (Returned a, w1, t1) => let '(o, w2, t2) := k a w1 in (o, w2, (t1 ++ t2)%list)
    | (Threw e, w1, t1) => (Threw e, w1, t1)
    end.

(** [try { body } catch (error) { handler }]. *)
Definition try_catch {A} (body : M A) (handler : JsError -> M A) : M A :=
  fun w =>
    match body w with
    | (Returned a, w1, t1) => (Returned a, w1, t1)
    | (Threw e, w1, t1) => let '(o, w2, t2) := handler e w1 in (o, w2, (t1 ++ t2)%list)
    end.

(** An external call: run it on the world and record what it answered. *)
Definition call {A} (f : W -> Outcome A * W) (ev : Outcome A -> Event) : M A :=
  fun w => let '(r, w1) := f w in (r, w1, [ev r]).

Notation "x <- m ;; k" := (bind m (fun x => k))
  (at level 61, m at next level, right associativity).
Notation "m ;; k" := (bind m (fun _ => k))
  (at level 61, right associativity).

(** ** External collaborators *)

(** The browser driver. *)
Record Driver : Type := mkDriver {
  drv_resolve : string -> W -> Outcome Element * W;
  drv_waitForClickable : Element -> Z -> W -> Outcome unit * W;
  drv_waitForDisplayed : Element -> Z -> bool -> W -> Outcome unit * W;
  drv_click : Element -> W -> Outcome unit * W;
  drv_clearValue : Element -> W -> Outcome unit * W;
  drv_setValue : Element -> string -> W -> Outcome unit * W;
  drv_pause : Z -> W -> W
}.

(** A polled condition, [() => Promise<boolean>].  [cond_name] is the
    function's [name] property, the only description a function value
    carries. *)
Record Condition : Type := mkCondition {
  cond_name : string;
  cond_eval : W -> Outcome bool * W
}.

Variable driver : Driver.

(** [await $(selector)]. *)
Definition resolve (selector : string) : M Element :=
  call (drv_resolve driver selector) (EvResolve selector).

(** [await browser.pause(ms)]. *)
Definition pause (ms : Z) : M unit :=
  fun w => (Returned tt, drv_pause driver ms w, [EvPause ms]).

(** [await condition()]. *)
Definition evaluate (condition : Condition) : M bool :=
  call (cond_eval condition) EvCondition.

(** ** Logger (utils/Logger.ts) *)

(** A [Logger] hands every message, with its level and its component, to
    winston.  The entry is recorded as handed over; winston's own level
    filter ([LOG_LEVEL]) and transports are outside the model. *)
Record Logger : Type := mkLogger { component : string }.

Definition Logger_log (this : Logger) (lvl : Level) (message : string) : M unit :=
  fun w => (Returned tt, w, [EvLog (component this) lvl message]).

Definition Logger_info this message := Logger_log this info message.
Definition Logger_warn this message := Logger_log this warn message.
Definition Logger_debug this message := Logger_log this debug message.

(** ** WaitUtils (utils/WaitUtils.ts) *)

Record WaitUtils : Type := mkWaitUtils { wu_logger : Logger }.

(** [constructor()] *)
Definition new_WaitUtils : WaitUtils := mkWaitUtils (mkLogger "WaitUtils").

(** [waitForElementToDisappear(selector, timeout = 10000)] *)
Definition waitForElementToDisappear (this : WaitUtils)
    (selector : string) (timeout : option Z) : M unit :=
  let timeout := param timeout 10000 in
  Logger_debug (wu_logger this) ("Waiting for element to disappear: " ++ selector) ;;
  try_catch
    (element <- resolve selector ;;
     call (drv_waitForDisplayed driver element timeout true)
          (EvWaitForDisplayed element timeout true))
    (fun _ =>
       Logger_debug (wu_logger this)
         ("Element " ++ selector ++ " not found or already disappeared")).

Section Backoff.

Variable this : WaitUtils.
Variable condition : Condition.
Variables maxAttempts baseDelay : Z.

(** The [for (let attempt = 1; attempt <= maxAttempts; attempt++)] loop of
    [waitWithBackoff], entered with the current value of [attempt].
    [Some tt]: the function executed [return]; [None]: the loop ran out. *)
Equations? backoff_loop (attempt : Z) : M (option unit)
  by wf (Z.to_nat (maxAttempts + 1 - attempt)) lt :=
backoff_loop attempt with Z_le_gt_dec attempt maxAttempts := {
  | left _ =>
      r <- try_catch
             (met <- evaluate condition ;;
              if met then ret (Some tt) else ret None)
             (fun error =>
                Logger_debug (wu_logger this)
                  ("Attempt " ++ number_toString attempt ++ " failed: "
                              ++ error_toString error) ;;
                ret None) ;;
      match r with
      | Some v => ret (Some v)
      | None =>
          (if attempt <? maxAttempts then
             let delay := baseDelay * 2 ^ (attempt - 1) in
             Logger_debug (wu_logger this)
               ("Waiting " ++ number_toString delay ++ "ms before next attempt") ;;
             pause delay
           else ret tt) ;;
          backoff_loop (attempt + 1)
      end
  | right _ => ret None }.
Proof. lia. Qed.
Next Obligation.
  unfold backoff_loop. rewrite Equations.Prop.Subterm.FixWf_unfold.
  - unfold backoff_loop_functional, backoff_loop_unfold.
    destruct (Z_le_gt_dec attempt maxAttempts); reflexivity.
  - intros x f g H. unfold backoff_loop_functional.
    destruct (Z_le_gt_dec x maxAttempts) as [Hle|Hgt]; [|reflexivity].
    cbn. rewrite H. reflexivity.
Defined.

End Backoff.

(** [waitWithBackoff(condition, maxAttempts = 5, baseDelay = 1000)] *)
Definition waitWithBackoff (this : WaitUtils) (condition : Condition)
    (maxAttempts baseDelay : option Z) : M unit :=
  let maxAttempts := param maxAttempts 5 in
  let baseDelay := param baseDelay 1000 in
  Logger_debug (wu_logger this)
    ("Waiting with exponential backoff, max attempts: " ++ number_toString maxAttempts) ;;
  r <- backoff_loop this condition maxAttempts baseDelay 1 ;;
  match r with
  | Some v => ret v
  | None =>
      throw (new_Error ("Condition not met after " ++ number_toString maxAttempts
                          ++ " attempts with exponential backoff"))
  end.

(** ** BasePage (pages/BasePage.ts) *)

Record BasePage : Type := mkBasePage {
  bp_logger : Logger;
  bp_waitUtils : WaitUtils;
  bp_url : string
}.

(** [constructor(url = '')]; [className] is [this.constructor.name]. *)
Definition new_BasePage (className : string) (url : option string) : BasePage :=
  mkBasePage (mkLogger className) new_WaitUtils (param url "").

(** [waitForVisible(selector, timeout = 10000)] *)
Definition waitForVisible (this : BasePage)
    (selector : string) (timeout : option Z) : M Element :=
  let timeout := param timeout 10000 in
  element <- resolve selector ;;
  call (drv_waitForDisplayed driver element timeout false)
       (EvWaitForDisplayed element timeout false) ;;
  ret element.

(** [waitForClickable(selector, timeout = 10000)] *)
Definition waitForClickable (this : BasePage)
    (selector : string) (timeout : option Z) : M Element :=
  let timeout := param timeout 10000 in
  element <- resolve selector ;;
  call (drv_waitForClickable driver element timeout)
       (EvWaitForClickable element timeout) ;;
  ret element.

Section SafeClick.

Variable this : BasePage.
Variable selector : string.
Variable retries : Z.

(** The body of the [try] block of [safeClick]. *)
Definition safeClick_try : M (option unit) :=
  element <- waitForClickable this selector None ;;
  call (drv_click driver element) (EvClick element) ;;
  Logger_info (bp_logger this) ("Successfully clicked element: " ++ selector) ;;
  ret (Some tt).

(** The body of the [catch (error)] block of [safeClick] in iteration [i]. *)
Definition safeClick_catch (i : Z) (error : JsError) : M (option unit) :=
  Logger_warn (bp_logger this)
    ("Click attempt " ++ number_toString (i + 1) ++ " failed for " ++ selector
                      ++ ": " ++ error_toString error) ;;
  (if i =? retries - 1 then throw error else ret tt) ;;
  pause 1000 ;;
  ret None.

(** The [for (let i = 0; i < retries; i++)] loop of [safeClick], entered with
    the current value of [i].  [Some tt]: the function executed [return];
    [None]: the loop ran out. *)
Equations? safeClick_loop (i : Z) : M (option unit)
  by wf (Z.to_nat (retries - i)) lt :=
safeClick_loop i with Z_lt_ge_dec i retries := {
  | left _ =>
      r <- try_catch safeClick_try (safeClick_catch i) ;;
      match r with
      | Some v => ret (Some v)
      | None => safeClick_loop (i + 1)
      end
  | right _ => ret None }.
Proof. lia. Qed.
Next Obligation.
  unfold safeClick_loop. rewrite Equations.Prop.Subterm.FixWf_unfold.
  - unfold safeClick_loop_functional, safeClick_loop_unfold.
    destruct (Z_lt_ge_dec i retries); reflexivity.
  - intros x f g H. unfold safeClick_loop_functional.
    destruct (Z_lt_ge_dec x retries) as [Hlt|Hge]; [|reflexivity].
    cbn. rewrite H. reflexivity.
Defined.

End SafeClick.

(** [safeClick(selector, retries = 3)] *)
Definition safeClick (this : BasePage)
    (selector : string) (retries : option Z) : M unit :=
  let retries := param retries 3 in
  r <- safeClick_loop this selector retries 0 ;;
  match r with
  | Some v => ret v
  | None => ret tt
  end.

(** [safeType(selector, text)] *)
Definition safeType (this : BasePage) (selector text : string) : M unit :=
  element <- waitForVisible this selector None ;;
  call (drv_clearValue driver element) (EvClearValue element) ;;
  call (drv_setValue driver element text) (EvSetValue element text) ;;
  Logger_info (bp_logger this) ("Successfully typed text into element: " ++ selector).

End Framework.

Arguments ret {W A} a.
Arguments throw {W A} e.
Arguments bind {W A B} m k.
Arguments try_catch {W A} body handler.
Arguments call {W A} f ev.
Arguments mkDriver {W}.
Arguments drv_resolve {W} d selector w.
Arguments drv_waitForClickable {W} d el timeout w.
Arguments drv_waitForDisplayed {W} d el timeout reverse w.
Arguments drv_click {W} d el w.
Arguments drv_clearValue {W} d el w.
Arguments drv_setValue {W} d el text w.
Arguments drv_pause {W} d ms w.
Arguments mkCondition {W}.
Arguments cond_name {W} c.
Arguments cond_eval {W} c.
Arguments resolve {W} driver selector.
Arguments pause {W} driver ms.
Arguments evaluate {W} condition.
Arguments Logger_log {W} this lvl message.
Arguments Logger_info {W} this message.
Arguments Logger_warn {W} this message.
Arguments Logger_debug {W} this message.
Arguments waitForElementToDisappear {W} driver this selector timeout.
Arguments backoff_loop {W} driver this condition maxAttempts baseDelay attempt.
Arguments waitWithBackoff {W} driver this condition maxAttempts baseDelay.
Arguments waitForVisible {W} driver this selector timeout.
Arguments waitForClickable {W} driver this selector timeout.
Arguments safeClick_try {W} driver this selector.
Arguments safeClick_catch {W} driver this selector retries i error.
Arguments safeClick_loop {W} driver this selector retries i.
Arguments safeClick {W} driver this selector retries.
Arguments safeType {W} driver this selector text.


(** ** Vocabulary of the statements *)

(** The three components of a run. *)
Definition outcome_of {A W} (r : Outcome A * W * Trace) : Outcome A := fst (fst r).
Definition world_of {A W} (r : Outcome A * W * Trace) : W := snd (fst r).
Definition trace_of {A W} (r : Outcome A * W * Trace) : Trace := snd r.

(** What a poller does over time: evaluate the condition, or suspend. *)
Inductive Step : Type := Evaluate | Suspend (ms : Z).

Definition schedule (t : Trace) : list Step :=
  flat_map (fun ev => match ev with
                      | EvCondition _ => [Evaluate]
                      | EvPause ms => [Suspend ms]
                      | _ => []
                      end) t.

(** The attempt numbers [first, first+1, ...], [count] of them. *)
Fixpoint attempts_from (first : Z) (count : nat) : list Z :=
  match count with
  | O => []
  | S count' => first :: attempts_from (first + 1) count'
  end.

(** What attempt [attempt] of [n] contributes when its evaluation fails. *)
Definition backoff_step (baseDelay n attempt : Z) : list Step :=
  Evaluate :: if attempt <? n then [Suspend (baseDelay * 2 ^ (attempt - 1))] else [].

Definition suspensions (s : list Step) : list Z :=
  flat_map (fun st => match st with Suspend ms => [ms] | Evaluate => [] end) s.

(** Attempts 1..n run to the end with exponential backoff: an evaluation per
    attempt, followed by a suspension of [baseDelay * 2^(attempt-1)] ms
    unless the attempt is the last one. *)
Definition backoff_schedule (baseDelay n : Z) : list Step :=
  flat_map (backoff_step baseDelay n) (attempts_from 1 (Z.to_nat n)).

(** A condition that does not return [true], whatever the world. *)
Definition never_true {W} (c : Condition W) : Prop :=
  forall w, fst (cond_eval c w) <> Returned true.

(** A condition that returns [true], whatever the world. *)
Definition always_true {W} (c : Condition W) : Prop :=
  forall w, fst (cond_eval c w) = Returned true.

(** The condition with its exceptions turned into [false]. *)
Definition swallowed {W} (c : Condition W) : Condition W :=
  mkCondition (cond_name c)
    (fun w => match cond_eval c w with
              | (Threw _, w1) => (Returned false, w1)
              | r => r
              end).

(** The error [waitWithBackoff] ends with when the attempts run out. *)
Definition backoff_exhausted (maxAttempts : Z) : JsError :=
  new_Error ("Condition not met after " ++ number_toString maxAttempts
               ++ " attempts with exponential backoff").

(** Messages of the two debug entries of the backoff loop. *)
Definition attempt_failed_msg (attempt : Z) (e : JsError) : string :=
  "Attempt " ++ number_toString attempt ++ " failed: " ++ error_toString e.

Definition waiting_msg (delay : Z) : string :=
  "Waiting " ++ number_toString delay ++ "ms before next attempt".

(** Events of one evaluation in attempt [attempt] that answered [r]. *)
Definition eval_events (lg : Logger) (attempt : Z) (r : Outcome bool) : Trace :=
  EvCondition r ::
  match r with
  | Threw e => [EvLog (component lg) debug (attempt_failed_msg attempt e)]
  | Returned _ => []
  end.

(** Events between attempt [attempt] and the next one. *)
Definition delay_events (lg : Logger) (maxAttempts baseDelay attempt : Z) : Trace :=
  if attempt <? maxAttempts then
    [EvLog (component lg) debug (waiting_msg (baseDelay * 2 ^ (attempt - 1)));
     EvPause (baseDelay * 2 ^ (attempt - 1))]
  else [].

Definition delay_world {W} (driver : Driver W) (maxAttempts baseDelay attempt : Z)
    (w : W) : W :=
  if attempt <? maxAttempts then drv_pause driver (baseDelay * 2 ^ (attempt - 1)) w
  else w.

(** A condition whose answers are scripted: the world is the number of
    evaluations made so far, and the [n]-th evaluation (from 0) answers
    [script n]. *)
Definition scripted (name : string) (script : nat -> Outcome bool) : Condition nat :=
  mkCondition name (fun n => (script n, S n)).

(** A driver for scripted conditions: suspending does not evaluate anything. *)
Definition script_driver : Driver nat :=
  mkDriver (fun _ n => (Returned 0%nat, n))
           (fun _ _ n => (Returned tt, n))
           (fun _ _ _ n => (Returned tt, n))
           (fun _ n => (Returned tt, n))
           (fun _ n => (Returned tt, n))
           (fun _ _ n => (Returned tt, n))
           (fun _ n => n).

(** Message of the warn entry of [safeClick] for attempt [attempt] (from 1). *)
Definition click_failed_msg (selector : string) (attempt : Z) (e : JsError) : string :=
  "Click attempt " ++ number_toString attempt ++ " failed for " ++ selector
                   ++ ": " ++ error_toString e.

Definition clicked_msg (selector : string) : string :=
  "Successfully clicked element: " ++ selector.

Definition typed_msg (selector : string) : string :=
  "Successfully typed text into element: " ++ selector.

(** The calls of one click attempt on [selector] and how it ends: the locator
    is resolved, the element it gave is awaited for at most 10000 ms, and
    that same element is clicked. *)
Inductive click_attempt (lg selector : string) : Trace -> Outcome unit -> Prop :=
| click_unresolved e :
    click_attempt lg selector [EvResolve selector (Threw e)] (Threw e)
| click_not_ready el e :
    click_attempt lg selector
      [EvResolve selector (Returned el); EvWaitForClickable el 10000 (Threw e)]
      (Threw e)
| click_rejected el e :
    click_attempt lg selector
      [EvResolve selector (Returned el); EvWaitForClickable el 10000 (Returned tt);
       EvClick el (Threw e)]
      (Threw e)
| click_done el :
    click_attempt lg selector
      [EvResolve selector (Returned el); EvWaitForClickable el 10000 (Returned tt);
       EvClick el (Returned tt); EvLog lg info (clicked_msg selector)]
      (Returned tt).

(** The calls of a retried click, from iteration [i] (from 0) of [retries]:
    attempts separated by a warn entry and a pause of 1000 ms, ended by a
    successful attempt or by the error of attempt number [retries]. *)
Inductive click_retries (lg selector : string) (retries : Z)
  : Z -> Trace -> Outcome unit -> Prop :=
| retries_none i :
    retries <= i -> click_retries lg selector retries i [] (Returned tt)
| retries_success i t :
    i < retries -> click_attempt lg selector t (Returned tt) ->
    click_retries lg selector retries i t (Returned tt)
| retries_exhausted i t e :
    i = retries - 1 -> click_attempt lg selector t (Threw e) ->
    click_retries lg selector retries i
      (t ++ [EvLog lg warn (click_failed_msg selector (i + 1) e)])%list (Threw e)
| retries_again i t e t' o :
    i < retries - 1 -> click_attempt lg selector t (Threw e) ->
    click_retries lg selector retries (i + 1) t' o ->
    click_retries lg selector retries i
      (t ++ [EvLog lg warn (click_failed_msg selector (i + 1) e); EvPause 1000] ++ t')%list
      o.

(** The calls of [safeType] and how it ends: one attempt. *)
Inductive type_attempt (lg selector text : string) : Trace -> Outcome unit -> Prop :=
| type_unresolved e :
    type_attempt lg selector text [EvResolve selector (Threw e)] (Threw e)
| type_not_visible el e :
    type_attempt lg selector text
      [EvResolve selector (Returned el); EvWaitForDisplayed el 10000 false (Threw e)]
      (Threw e)
| type_clear_rejected el e :
    type_attempt lg selector text
      [EvResolve selector (Returned el); EvWaitForDisplayed el 10000 false (Returned tt);
       EvClearValue el (Threw e)]
      (Threw e)
| type_set_rejected el e :
    type_attempt lg selector text
      [EvResolve selector (Returned el); EvWaitForDisplayed el 10000 false (Returned tt);
       EvClearValue el (Returned tt); EvSetValue el text (Threw e)]
      (Threw e)
| type_done el :
    type_attempt lg selector text
      [EvResolve selector (Returned el); EvWaitForDisplayed el 10000 false (Returned tt);
       EvClearValue el (Returned tt); EvSetValue el text (Returned tt);
       EvLog lg info (typed_msg selector)]
      (Returned tt).

(** Whether a call was answered with an exception. *)
Definition rejected (ev : Event) : bool :=
  match ev with
  | EvCondition (Threw _) | EvResolve _ (Threw _) | EvWaitForClickable _ _ (Threw _)
  | EvWaitForDisplayed _ _ _ (Threw _) | EvClick _ (Threw _) | EvClearValue _ (Threw _)
  | EvSetValue _ _ (Threw _) => true
  | _ => false
  end.

(** ** Sample collaborators *)

(** A condition that answers [false] for ever. *)
Definition never_ready : Condition nat := scripted "cartIsEmpty" (fun _ => Returned false).

(** A condition that answers [true] at once. *)
Definition ready : Condition nat := scripted "isReady" (fun _ => Returned true).

(** A condition that answers [false], throws, then answers [true]. *)
Definition third_time_script (n : nat) : Outcome bool :=
  match n with
  | O => Returned false
  | S O => Threw (new_Error "stale element reference")
  | _ => Returned true
  end.

Definition third_time : Condition nat := scripted "isLoaded" third_time_script.

(** A driver whose [click] and [setValue] fail the first times they are
    called, with the given messages in turn, and succeed afterwards; the
    world is the number of such calls made so far. *)
Definition flaky_driver (failures : list string) : Driver nat :=
  let act n := (match nth_error failures n with
                | Some msg => Threw (new_Error msg)
                | None => Returned tt
                end, S n) in
  mkDriver (fun _ n => (Returned n, n))
           (fun _ _ n => (Returned tt, n))
           (fun _ _ _ n => (Returned tt, n))
           (fun _ n => act n)
           (fun _ n => (Returned tt, n))
           (fun _ _ n => act n)
           (fun _ n => n).

(** A driver whose waits for the element to go away time out. *)
Definition lingering_driver : Driver nat :=
  mkDriver (fun _ n => (Returned n, n))
           (fun _ _ n => (Returned tt, n))
           (fun _ to rev n =>
              (if rev then Threw (new_Error ("element still displayed after "
                                              ++ number_toString to ++ "ms"))
               else Returned tt, n))
           (fun _ n => (Returned tt, n))
           (fun _ n => (Returned tt, n))
           (fun _ _ n => (Returned tt, n))
           (fun _ n => n).

Definition loginPage : BasePage := new_BasePage "LoginPage" (Some "/login").

(** * The page objects and the remaining waits *)

(** A JavaScript number as [parseInt] can return it. *)
Inductive JsNumber : Type :=
| NaN
| Num (z : Z)
| Infinity (negative : bool).

(** Whether a number is truthy: [NaN] and zero are not. *)
Definition truthy (n : JsNumber) : bool :=
  match n with
  | NaN => false
  | Num z => negb (z =? 0)
  | Infinity _ => true
  end.

(** [a || b] on numbers. *)
Definition number_or (a b : JsNumber) : JsNumber := if truthy a then a else b.

(** [array[index]]: [undefined] (here [None]) outside the array. *)
Definition at_index {A} (array : list A) (index : Z) : option A :=
  if index <? 0 then None else nth_error array (Z.to_nat index).

(** [[data-testid="name"]], the form of most selectors of the page objects. *)
Definition testid (name : string) : string :=
  "[data-testid=" ++ String "034"%char name ++ String "034"%char "]".

(** The [selectors] of [LoginPage] that the modelled methods use. *)
Module LoginSelectors.
Definition emailInput : string := "#email".
Definition passwordInput : string := "#password".
Definition loginButton : string := testid "login-button".
Definition errorMessage : string := testid "error-message".
Definition loadingSpinner : string := testid "loading-spinner".
Definition rememberMeCheckbox : string := "#remember-me".
End LoginSelectors.

(** The [selectors] of [HomePage] that the modelled methods use. *)
Module HomeSelectors.
Definition userMenu : string := testid "user-menu".
Definition logoutButton : string := testid "logout-button".
Definition searchBox : string := testid "search-box".
Definition searchButton : string := testid "search-button".
Definition cartCount : string := testid "cart-count".
End HomeSelectors.

(** The [selectors] of [ProductPage] that the modelled methods use. *)
Module ProductSelectors.
Definition productName : string := testid "product-name".
Definition productPrice : string := testid "product-price".
Definition addToCartButton : string := testid "add-to-cart".
Definition quantityInput : string := testid "quantity-input".
Definition productImages : string := testid "product-images".
End ProductSelectors.

Section Pages.

Variable W : Type.
Variable driver : Driver W.

(** Driver calls that the retry layer does not make.  They act on the
    world like the others; the trace does not list them.  [br_waitUntil]
    is [browser.waitUntil(condition, { timeout, timeoutMsg })], which polls
    the function it is given as it sees fit: it is handed that function as
    it is, and the calls made while it runs are part of the trace. *)
Record Browser : Type := mkBrowser {
  br_isDisplayed : Element -> W -> Outcome bool * W;
  br_getText : Element -> W -> Outcome string * W;
  br_getValue : Element -> W -> Outcome string * W;
  br_getAttribute : Element -> string -> W -> Outcome (option string) * W;
  br_resolveAll : string -> W -> Outcome (list Element) * W;
  br_waitUntil : M W bool -> Z -> string -> M W unit
}.

Variable browser : Browser.

(** [parseInt(text)], a built-in. *)
Variable parseInt : string -> JsNumber.

Local Notation "x <- m ;; k" := (bind m (fun x => k))
  (at level 61, m at next level, right associativity).
Local Notation "m ;; k" := (bind m (fun _ => k))
  (at level 61, right associativity).

(** An external call that the trace does not list. *)
Definition extern {A} (f : W -> Outcome A * W) : M W A :=
  fun w => let '(r, w1) := f w in (r, w1, []).

Definition Logger_error (this : Logger) (message : string) : M W unit :=
  Logger_log this error message.

(** ** BasePage, continued *)

(** [getTextContent(selector)] *)
Definition getTextContent (this : BasePage) (selector : string) : M W string :=
  element <- waitForVisible driver this selector None ;;
  extern (br_getText browser element).

(** [isElementPresent(selector)] *)
Definition isElementPresent (this : BasePage) (selector : string) : M W bool :=
  try_catch
    (elements <- extern (br_resolveAll browser selector) ;;
     ret (0 <? Z.of_nat (List.length elements)))
    (fun _ => ret false).

(** [isElementVisible(selector)] *)
Definition isElementVisible (this : BasePage) (selector : string) : M W bool :=
  try_catch
    (element <- resolve driver selector ;;
     extern (br_isDisplayed browser element))
    (fun _ => ret false).

(** The function [waitForText(selector, expectedText)] hands to
    [browser.waitUntil]. *)
Definition waitForText_condition (this : BasePage)
    (selector expectedText : string) : M W bool :=
  element <- resolve driver selector ;;
  text <- extern (br_getText browser element) ;;
  ret (includes expectedText text).

(** ** WaitUtils, continued *)

(** The function [waitForTextInElement(selector, expectedText)] hands to
    [browser.waitUntil]. *)
Definition waitForTextInElement_condition (this : WaitUtils)
    (selector expectedText : string) : M W bool :=
  try_catch
    (element <- resolve driver selector ;;
     text <- extern (br_getText browser element) ;;
     ret (includes expectedText text))
    (fun _ => ret false).

(** The function [waitForElementCount(selector, expectedCount)] hands to
    [browser.waitUntil]. *)
Definition waitForElementCount_condition (this : WaitUtils)
    (selector : string) (expectedCount : Z) : M W bool :=
  try_catch
    (elements <- extern (br_resolveAll browser selector) ;;
     ret (Z.of_nat (List.length elements) =? expectedCount))
    (fun _ => ret false).

(** The function [smartWait(conditions)] hands to [browser.waitUntil]:
    [for (const condition of conditions) { if (!(await condition())) return
    false; } return true;]. *)
Fixpoint smartWait_condition (conditions : list (Condition W)) : M W bool :=
  match conditions with
  | [] => ret true
  | condition :: rest =>
      met <- evaluate condition ;;
      if negb met then ret false else smartWait_condition rest
  end.

(** [smartWait(conditions, timeout = 10000)] *)
Definition smartWait (this : WaitUtils) (conditions : list (Condition W))
    (timeout : option Z) : M W unit :=
  let timeout := param timeout 10000 in
  Logger_debug (wu_logger this)
    ("Executing smart wait with "
       ++ number_toString (Z.of_nat (List.length conditions)) ++ " conditions") ;;
  br_waitUntil browser (smartWait_condition conditions) timeout
    "Smart wait conditions not met within timeout".

(** ** LoginPage (pages/LoginPage.ts) *)

(** [constructor()] *)
Definition new_LoginPage : BasePage := new_BasePage "LoginPage" (Some "/login").

(** [waitForLoginCompletion()] *)
Definition waitForLoginCompletion (this : BasePage) : M W unit :=
  br_waitUntil browser
    (visible <- isElementVisible this LoginSelectors.loadingSpinner ;;
     ret (negb visible))
    15000 "Login process did not complete within 15 seconds".

(** [login(email, password, rememberMe = false)] *)
Definition login (this : BasePage) (email password : string)
    (rememberMe : option bool) : M W unit :=
  let rememberMe := param rememberMe false in
  Logger_info (bp_logger this) ("Attempting to login with email: " ++ email) ;;
  safeType driver this LoginSelectors.emailInput email ;;
  safeType driver this LoginSelectors.passwordInput password ;;
  (if rememberMe
   then safeClick driver this LoginSelectors.rememberMeCheckbox None
   else ret tt) ;;
  safeClick driver this LoginSelectors.loginButton None ;;
  waitForLoginCompletion this.

(** [getErrorMessage()] *)
Definition getErrorMessage (this : BasePage) : M W string :=
  visible <- isElementVisible this LoginSelectors.errorMessage ;;
  if visible then getTextContent this LoginSelectors.errorMessage
  else ret "".

(** [isLoginFormDisplayed()] *)
Definition isLoginFormDisplayed (this : BasePage) : M W bool :=
  email <- isElementVisible this LoginSelectors.emailInput ;;
  if email then
    password <- isElementVisible this LoginSelectors.passwordInput ;;
    if password then isElementVisible this LoginSelectors.loginButton
    else ret false
  else ret false.

(** ** HomePage (pages/HomePage.ts) *)

(** [constructor()] *)
Definition new_HomePage : BasePage := new_BasePage "HomePage" (Some "/").

(** [clickUserMenu()] *)
Definition clickUserMenu (this : BasePage) : M W unit :=
  safeClick driver this HomeSelectors.userMenu None.

(** [logout()] *)
Definition logout (this : BasePage) : M W unit :=
  clickUserMenu this ;;
  safeClick driver this HomeSelectors.logoutButton None.

(** [searchProducts(searchTerm)] *)
Definition searchProducts (this : BasePage) (searchTerm : string) : M W unit :=
  safeType driver this HomeSelectors.searchBox searchTerm ;;
  safeClick driver this HomeSelectors.searchButton None.

(** [getCartCount()] *)
Definition getCartCount (this : BasePage) : M W JsNumber :=
  visible <- isElementVisible this HomeSelectors.cartCount ;;
  if visible then
    countText <- getTextContent this HomeSelectors.cartCount ;;
    ret (number_or (parseInt countText) (Num 0))
  else ret (Num 0).

(** ** ProductPage (pages/ProductPage.ts) *)

(** [constructor()] *)
Definition new_ProductPage : BasePage := new_BasePage "ProductPage" (Some "/product").

(** [setQuantity(quantity)] *)
Definition setQuantity (this : BasePage) (quantity : Z) : M W unit :=
  quantityElement <- resolve driver ProductSelectors.quantityInput ;;
  call (drv_clearValue driver quantityElement) (EvClearValue quantityElement) ;;
  call (drv_setValue driver quantityElement (number_toString quantity))
       (EvSetValue quantityElement (number_toString quantity)).

(** [addToCart(quantity = 1)] *)
Definition addToCart (this : BasePage) (quantity : option Z) : M W unit :=
  let quantity := param quantity 1 in
  setQuantity this quantity ;;
  safeClick driver this ProductSelectors.addToCartButton None ;;
  pause driver 1000.

(** [getCurrentQuantity()] *)
Definition getCurrentQuantity (this : BasePage) : M W JsNumber :=
  element <- resolve driver ProductSelectors.quantityInput ;;
  value <- extern (br_getValue browser element) ;;
  ret (number_or (parseInt value) (Num 1)).

(** [clickProductImage(imageIndex = 0)] *)
Definition clickProductImage (this : BasePage) (imageIndex : option Z) : M W unit :=
  let imageIndex := param imageIndex 0 in
  images <- extern (br_resolveAll browser (ProductSelectors.productImages ++ " img")) ;;
  match at_index images imageIndex with
  | Some image => call (drv_click driver image) (EvClick image)
  | None => ret tt
  end.

(** The elements [validateProductPageElements] requires. *)
Definition required_elements : list string :=
  [ProductSelectors.productName; ProductSelectors.productPrice;
   ProductSelectors.addToCartButton; ProductSelectors.quantityInput].

(** The [for (const selector of elements)] loop of
    [validateProductPageElements].  [Some false]: the function executed
    [return false]; [None]: the loop ran out. *)
Fixpoint validate_loop (this : BasePage) (elements : list string) : M W (option bool) :=
  match elements with
  | [] => ret None
  | selector :: rest =>
      visible <- isElementVisible this selector ;;
      if negb visible then
        Logger_error (bp_logger this) ("Required element not visible: " ++ selector) ;;
        ret (Some false)
      else validate_loop this rest
  end.

(** [validateProductPageElements()] *)
Definition validateProductPageElements (this : BasePage) : M W bool :=
  r <- validate_loop this required_elements ;;
  match r with
  | Some v => ret v
  | None => ret true
  end.

End Pages.

Arguments mkBrowser {W}.
Arguments br_isDisplayed {W} b el w.
Arguments br_getText {W} b el w.
Arguments br_getValue {W} b el w.
Arguments br_getAttribute {W} b el name w.
Arguments br_resolveAll {W} b selector w.
Arguments br_waitUntil {W} b condition timeout timeoutMsg.
Arguments extern {W A} f.
Arguments Logger_error {W} this message.
Arguments getTextContent {W} driver browser this selector.
Arguments isElementPresent {W} browser this selector.
Arguments isElementVisible {W} driver browser this selector.
Arguments waitForText_condition {W} driver browser this selector expectedText.
Arguments waitForTextInElement_condition {W} driver browser this selector expectedText.
Arguments waitForElementCount_condition {W} browser this selector expectedCount.
Arguments smartWait_condition {W} conditions.
Arguments smartWait {W} browser this conditions timeout.
Arguments waitForLoginCompletion {W} driver browser this.
Arguments login {W} driver browser this email password rememberMe.
Arguments getErrorMessage {W} driver browser this.
Arguments isLoginFormDisplayed {W} driver browser this.
Arguments clickUserMenu {W} driver this.
Arguments logout {W} driver this.
Arguments searchProducts {W} driver this searchTerm.
Arguments getCartCount {W} driver browser parseInt this.
Arguments setQuantity {W} driver this quantity.
Arguments addToCart {W} driver this quantity.
Arguments getCurrentQuantity {W} driver browser parseInt this.
Arguments clickProductImage {W} driver browser this imageIndex.
Arguments validate_loop {W} driver browser this elements.
Arguments validateProductPageElements {W} driver browser this.

(** * The HTTP test client (api/BaseApiClient.ts) *)

(** A [Record<string, string>]: its own properties, each with its value. *)
Definition Obj : Type := list (string * string).

(** [o[key]]; [None] is [undefined]. *)
Fixpoint obj_get (key : string) (o : Obj) : option string :=
  match o with
  | [] => None
  | (k, v) :: rest => if String.eqb k key then Some v else obj_get key rest
  end.

(** [o[key] = value] *)
Fixpoint obj_set (key value : string) (o : Obj) : Obj :=
  match o with
  | [] => [(key, value)]
  | (k, v) :: rest =>
      if String.eqb k key then (key, value) :: rest
      else (k, v) :: obj_set key value rest
  end.

(** [delete o[key]] *)
Fixpoint obj_delete (key : string) (o : Obj) : Obj :=
  match o with
  | [] => []
  | (k, v) :: rest =>
      if String.eqb k key then obj_delete key rest
      else (k, v) :: obj_delete key rest
  end.

(** [{ ...a, ...b }] *)
Definition obj_spread (a b : Obj) : Obj :=
  fold_left (fun acc kv => obj_set (fst kv) (snd kv) acc) b a.

Record BaseApiClient : Type := mkBaseApiClient {
  baseURL : string;
  defaultHeaders : Obj;
  api_logger : Logger;
  api_timeout : Z
}.

(** [constructor(baseURL, defaultHeaders = {})] *)
Definition new_BaseApiClient (baseURL : string) (defaultHeaders : option Obj)
  : BaseApiClient :=
  let defaultHeaders := param defaultHeaders [] in
  mkBaseApiClient baseURL
    (obj_spread [("Content-Type", "application/json"); ("Accept", "application/json")]
                defaultHeaders)
    (mkLogger "ApiClient")
    30000.

(** ['Bearer' | 'Basic' | 'ApiKey'] *)
Inductive AuthType : Type := Bearer | Basic | ApiKey.

Definition AuthType_toString (type : AuthType) : string :=
  match type with
  | Bearer => "Bearer"
  | Basic => "Basic"
  | ApiKey => "ApiKey"
  end.

Definition with_defaultHeaders (this : BaseApiClient) (headers : Obj) : BaseApiClient :=
  mkBaseApiClient (baseURL this) headers (api_logger this) (api_timeout this).

(** [setAuth(token, type = 'Bearer')] *)
Definition setAuth (this : BaseApiClient) (token : string) (type : option AuthType)
  : BaseApiClient :=
  let type := param type Bearer in
  with_defaultHeaders this
    (obj_set "Authorization" (AuthType_toString type ++ " " ++ token)
             (defaultHeaders this)).

(** [clearAuth()] *)
Definition clearAuth (this : BaseApiClient) : BaseApiClient :=
  with_defaultHeaders this (obj_delete "Authorization" (defaultHeaders this)).

(** [setTimeout(timeout)] *)
Definition setTimeout (this : BaseApiClient) (timeout : Z) : BaseApiClient :=
  mkBaseApiClient (baseURL this) (defaultHeaders this) (api_logger this) timeout.

(** [setHeader(key, value)] *)
Definition setHeader (this : BaseApiClient) (key value : string) : BaseApiClient :=
  with_defaultHeaders this (obj_set key value (defaultHeaders this)).

(** [removeHeader(key)] *)
Definition removeHeader (this : BaseApiClient) (key : string) : BaseApiClient :=
  with_defaultHeaders this (obj_delete key (defaultHeaders this)).

Definition sensitiveHeaders : list string := ["authorization"; "x-api-key"; "cookie"].

(** [sanitizeHeaders(headers)] *)
Definition sanitizeHeaders (headers : Obj) : Obj :=
  fold_left
    (fun sanitized header =>
       match obj_get header sanitized with
       | Some value =>
           if String.eqb value "" then sanitized
           else obj_set header "***REDACTED***" sanitized
       | None => sanitized
       end)
    sensitiveHeaders headers.

(** ['GET' | 'POST' | 'PUT' | 'DELETE' | 'PATCH'] *)
Inductive Method : Type := GET | POST | PUT | DELETE | PATCH.

Section ApiClient.

(** The world, request and response payloads ([any]), and [Buffer]. *)
Variable W : Type.
Variable Data : Type.
Variable Buffer : Type.

(** Query parameters: a value that is [null] or [undefined] is [None], any
    other is its [String(value)]. *)
Definition Params : Type := list (string * option string).

Record RequestConfig : Type := mkRequestConfig {
  rc_method : Method;
  rc_url : string;
  rc_headers : option Obj;
  rc_data : option Data;
  rc_params : option Params;
  rc_timeout : option Z
}.

Record ApiResponse : Type := mkApiResponse {
  status : Z;
  data : Data;
  headers : Obj;
  success : bool;
  message : option string
}.

(** The [RequestInit] handed to [fetch]; [signal] is named by its delay. *)
Record RequestInit : Type := mkRequestInit {
  ri_method : Method;
  ri_headers : Obj;
  ri_body : option string;
  ri_signal : Z
}.

(** What the code reads of the [Response] of [fetch]: [status],
    [statusText], [ok], [headers.get('content-type')], and the pairs that
    [headers.forEach] visits, in order.  [resp_body] names the body for
    [json()] and [text()]. *)
Record Response : Type := mkResponse {
  resp_status : Z;
  resp_statusText : string;
  resp_ok : bool;
  resp_contentType : option string;
  resp_headers : list (string * string);
  resp_body : nat
}.

(** The platform: clock, random numbers, [URL], [JSON], [AbortSignal],
    [fetch], [FormData], [Buffer]. *)
Record Http : Type := mkHttp {
  ht_now : W -> Z * W;
  ht_randomId : W -> string * W;
  ht_URL : string -> list (string * string) -> Outcome string;
  ht_truthy : Data -> bool;
  ht_stringify : Data -> Outcome (option string);
  ht_stringify_length : Data -> Outcome Z;
  ht_abortTimeout : Z -> Outcome unit;
  ht_fetch : string -> RequestInit -> W -> Outcome Response * W;
  ht_json : Response -> W -> Outcome Data * W;
  ht_text : Response -> W -> Outcome Data * W;
  ht_formData : Data -> string -> string -> Outcome Data;
  ht_bufferFrom : Data -> Outcome Buffer
}.

Variable http : Http.

Local Notation "x <- m ;; k" := (bind m (fun x => k))
  (at level 61, m at next level, right associativity).
Local Notation "m ;; k" := (bind m (fun _ => k))
  (at level 61, right associativity).

(** A computation of the platform that does not touch the world. *)
Definition pure {A} (r : Outcome A) : M W A := fun w => (r, w, []).

(** A call of the platform that cannot throw. *)
Definition total {A} (f : W -> A * W) : M W A :=
  fun w => let '(a, w1) := f w in (Returned a, w1, []).

(** [generateRequestId()]: [Math.random().toString(36).substr(2, 9)]. *)
Definition generateRequestId : M W string := total (ht_randomId http).

(** The query parameters that [buildUrl] appends. *)
Definition appended (params : Params) : list (string * string) :=
  flat_map (fun kv => match snd kv with
                      | Some value => [(fst kv, value)]
                      | None => []
                      end) params.

(** [buildUrl(endpoint, params)] *)
Definition buildUrl (this : BaseApiClient) (endpoint : string)
    (params : option Params) : Outcome string :=
  let url := if String.prefix "http" endpoint then endpoint
             else baseURL this ++ endpoint in
  match params with
  | None => Returned url
  | Some params => ht_URL http url (appended params)
  end.

(** [parseHeaders(headers)] *)
Definition parseHeaders (entries : list (string * string)) : Obj :=
  fold_left (fun result kv => obj_set (fst kv) (snd kv) result) entries [].

(** [{ ...this.defaultHeaders, ...config.headers }] *)
Definition request_headers (this : BaseApiClient) (config : RequestConfig) : Obj :=
  obj_spread (defaultHeaders this) (param (rc_headers config) []).

(** [config.timeout || this.timeout] *)
Definition request_timeout (this : BaseApiClient) (config : RequestConfig) : Z :=
  match rc_timeout config with
  | Some t => if t =? 0 then api_timeout this else t
  | None => api_timeout this
  end.

(** The body of the [try] block of [request]. *)
Definition request_try (this : BaseApiClient) (config : RequestConfig)
    (startTime : Z) (requestId : string) : M W ApiResponse :=
  url <- pure (buildUrl this (rc_url config) (rc_params config)) ;;
  let headers := request_headers this config in
  body <- match rc_data config with
          | Some d => if ht_truthy http d then pure (ht_stringify http d)
                      else ret None
          | None => ret None
          end ;;
  pure (ht_abortTimeout http (request_timeout this config)) ;;
  let requestOptions :=
    mkRequestInit (rc_method config) headers body (request_timeout this config) in
  response <- extern (ht_fetch http url requestOptions) ;;
  now <- total (ht_now http) ;;
  let responseTime := now - startTime in
  let contentType := resp_contentType response in
  responseData <-
    (if match contentType with
        | Some ct => negb (String.eqb ct "") && includes "application/json" ct
        | None => false
        end
     then extern (ht_json http response)
     else extern (ht_text http response)) ;;
  let apiResponse :=
    mkApiResponse (resp_status response) responseData
      (parseHeaders (resp_headers response)) (resp_ok response)
      (Some (if resp_ok response then "Request successful" else "Request failed")) in
  pure (ht_stringify_length http responseData) ;;
  Logger_info (api_logger this) ("[" ++ requestId ++ "] API Response") ;;
  if negb (resp_ok response) then
    throw (new_Error ("HTTP " ++ number_toString (resp_status response) ++ ": "
                              ++ resp_statusText response))
  else ret apiResponse.

(** [request(config)] *)
Definition request (this : BaseApiClient) (config : RequestConfig) : M W ApiResponse :=
  startTime <- total (ht_now http) ;;
  requestId <- generateRequestId ;;
  Logger_info (api_logger this) ("[" ++ requestId ++ "] API Request") ;;
  try_catch
    (request_try this config startTime requestId)
    (fun error =>
       now <- total (ht_now http) ;;
       Logger_error (api_logger this) ("[" ++ requestId ++ "] API Request Failed") ;;
       throw error).

(** [get(url, params, headers)] *)
Definition get (this : BaseApiClient) (url : string) (params : option Params)
    (headers : option Obj) : M W ApiResponse :=
  request this (mkRequestConfig GET url headers None params None).

(** [post(url, data, headers)] *)
Definition post (this : BaseApiClient) (url : string) (data : option Data)
    (headers : option Obj) : M W ApiResponse :=
  request this (mkRequestConfig POST url headers data None None).

(** The headers [uploadFile] passes on: a copy of the defaults without
    [Content-Type]. *)
Definition uploadFile_headers (this : BaseApiClient) : Obj :=
  obj_delete "Content-Type" (obj_spread [] (defaultHeaders this)).

(** [uploadFile(url, file, fileName, fieldName = 'file')] *)
Definition uploadFile (this : BaseApiClient) (url : string) (file : Data)
    (fileName : string) (fieldName : option string) : M W ApiResponse :=
  let fieldName := param fieldName "file" in
  formData <- pure (ht_formData http file fileName fieldName) ;;
  let headers := uploadFile_headers this in
  request this (mkRequestConfig POST url (Some headers) (Some formData) None None).

(** [downloadFile(url, headers)] *)
Definition downloadFile (this : BaseApiClient) (url : string)
    (headers : option Obj) : M W Buffer :=
  response <- request this (mkRequestConfig GET url headers None None None) ;;
  if success response then pure (ht_bufferFrom http (data response))
  else throw (new_Error ("Failed to download file: "
                           ++ match message response with
                              | Some m => m
                              | None => "undefined"
                              end)).

End ApiClient.

Arguments pure {W A} r.
Arguments total {W A} f.
Arguments mkRequestConfig {Data}.
Arguments mkApiResponse {Data}.
Arguments mkHttp {W Data Buffer}.
Arguments ht_now {W Data Buffer} h w.
Arguments ht_randomId {W Data Buffer} h w.
Arguments ht_URL {W Data Buffer} h url params.
Arguments ht_truthy {W Data Buffer} h d.
Arguments ht_stringify {W Data Buffer} h d.
Arguments ht_stringify_length {W Data Buffer} h d.
Arguments ht_abortTimeout {W Data Buffer} h ms.
Arguments ht_fetch {W Data Buffer} h url init w.
Arguments ht_json {W Data Buffer} h response w.
Arguments ht_text {W Data Buffer} h response w.
Arguments ht_formData {W Data Buffer} h file fileName fieldName.
Arguments ht_bufferFrom {W Data Buffer} h d.
Arguments rc_method {Data} r.
Arguments rc_url {Data} r.
Arguments rc_headers {Data} r.
Arguments rc_data {Data} r.
Arguments rc_params {Data} r.
Arguments rc_timeout {Data} r.
Arguments status {Data} a.
Arguments data {Data} a.
Arguments headers {Data} a.
Arguments success {Data} a.
Arguments message {Data} a.
Arguments generateRequestId {W Data Buffer} http.
Arguments buildUrl {W Data Buffer} http this endpoint params.
Arguments request_headers {Data} this config.
Arguments request_timeout {Data} this config.
Arguments request_try {W Data Buffer} http this config startTime requestId.
Arguments request {W Data Buffer} http this config.
Arguments get {W Data Buffer} http this url params headers.
Arguments post {W Data Buffer} http this url data headers.
Arguments uploadFile {W Data Buffer} http this url file fileName fieldName.
Arguments downloadFile {W Data Buffer} http this url headers.

(** * Test data (utils/DataGenerator.ts) *)

(** [s.charAt(index)]: the empty string outside [s]. *)
Definition charAt (s : string) (index : Z) : string :=
  if index <? 0 then ""
  else match String.get (Z.to_nat index) s with
       | Some c => String c ""
       | None => ""
       end.

Section DataGenerator.

Variable W : Type.

(** The source of randomness: [rnd_floor n] is
    [Math.floor(Math.random() * n)], and [rnd_shuffle chars] is
    [chars.sort(() => Math.random() - 0.5)]. *)
Record Random : Type := mkRandom {
  rnd_floor : Z -> W -> Z * W;
  rnd_shuffle : list ascii -> W -> list ascii * W
}.

Variable random : Random.

Local Notation "x <- m ;; k" := (bind m (fun x => k))
  (at level 61, m at next level, right associativity).
Local Notation "m ;; k" := (bind m (fun _ => k))
  (at level 61, right associativity).

(** [getRandomChar(charset)] *)
Definition getRandomChar (charset : string) : M W string :=
  index <- total (rnd_floor random (Z.of_nat (String.length charset))) ;;
  ret (charAt charset index).

Section Fill.

Variable charset : string.
Variable length : Z.

(** The loop [for (let i = ...; i < length; i++) password +=
    this.getRandomChar(charset)], entered with the current values of [i]
    and [password]; it ends with the value of [password].  (The recursive
    call depends on the character just drawn, so the equation that
    Equations derives for it goes through extensionality; the facts below
    use the pointwise equation [fill_loop_step] instead, which does not.) *)
Set Equations With Funext.
Equations? fill_loop (i : Z) (password : string) : M W string
  by wf (Z.to_nat (length - i)) lt :=
fill_loop i password with Z_lt_ge_dec i length := {
  | left _ =>
      c <- getRandomChar charset ;;
      fill_loop (i + 1) (password ++ c)
  | right _ => ret password }.
Proof. lia. Qed.
Unset Equations With Funext.

End Fill.

Definition lowercase : string := "abcdefghijklmnopqrstuvwxyz".
Definition uppercase : string := "ABCDEFGHIJKLMNOPQRSTUVWXYZ".
Definition numbers : string := "0123456789".
Definition specialChars : string := "!@#$%^&*()_+-=[]{}|;:,.<>?".

(** [generatePassword(length = 12, includeSpecialChars = true)] *)
Definition generatePassword (length : option Z) (includeSpecialChars : option bool)
  : M W string :=
  let length := param length 12 in
  let includeSpecialChars := param includeSpecialChars true in
  let charset := lowercase ++ uppercase ++ numbers in
  let charset := if includeSpecialChars then charset ++ specialChars else charset in
  let password := "" in
  c1 <- getRandomChar lowercase ;;
  let password := password ++ c1 in
  c2 <- getRandomChar uppercase ;;
  let password := password ++ c2 in
  c3 <- getRandomChar numbers ;;
  let password := password ++ c3 in
  password <- (if includeSpecialChars
               then c4 <- getRandomChar specialChars ;; ret (password ++ c4)
               else ret password) ;;
  password <- fill_loop charset length (Z.of_nat (String.length password)) password ;;
  shuffled <- total (rnd_shuffle random (list_ascii_of_string password)) ;;
  ret (string_of_list_ascii shuffled).

(** [generateSKU()] *)
Definition generateSKU : M W string :=
  let letters := "ABCDEFGHIJKLMNOPQRSTUVWXYZ" in
  let numbers := "0123456789" in
  let sku := "" in
  sku <- fill_loop letters 3 0 sku ;;
  sku <- fill_loop numbers 4 0 sku ;;
  ret sku.

End DataGenerator.

Arguments mkRandom {W}.
Arguments rnd_floor {W} r n w.
Arguments rnd_shuffle {W} r chars w.
Arguments getRandomChar {W} random charset.
Arguments fill_loop {W} random charset length i password.
Arguments generatePassword {W} random length includeSpecialChars.
Arguments generateSKU {W} random.

(** * Screenshots (utils/ScreenshotUtils.ts) *)

(** A JavaScript string of any characters, as the sequence of its UTF-16
    code units: what [length] counts and what a regular expression without
    the [u] flag matches one at a time. *)
Definition CodeUnits : Type := list N.

(** [/[a-zA-Z0-9]/] on one code unit. *)
Definition is_alphanumeric (u : N) : bool :=
  ((48 <=? u) && (u <=? 57) || (65 <=? u) && (u <=? 90) || (97 <=? u) && (u <=? 122))%N.

(** [s.replace(/[^a-zA-Z0-9]/g, '_')]: every code unit that is not a
    letter or a digit becomes an underscore, so the result is plain
    ASCII. *)
Fixpoint replace_non_alphanumeric (s : CodeUnits) : string :=
  match s with
  | [] => EmptyString
  | u :: rest =>
      String (if is_alphanumeric u then ascii_of_N u else "_"%char)
             (replace_non_alphanumeric rest)
  end.

(** [s.replace(/[:.]/g, '-')], on the text of [toISOString()]. *)
Fixpoint replace_colon_dot (s : string) : string :=
  match s with
  | EmptyString => EmptyString
  | String c rest =>
      String (if Ascii.eqb c ":" || Ascii.eqb c "." then "-"%char else c)
             (replace_colon_dot rest)
  end.

Section ScreenshotUtils.

Variable W : Type.

(** The platform: the clock ([new Date().toISOString()]), [path.join],
    [fs.existsSync], [fs.mkdirSync] and [browser.saveScreenshot]. *)
Record Files : Type := mkFiles {
  fs_isoNow : W -> string * W;
  fs_join : list string -> string;
  fs_existsSync : string -> W -> Outcome bool * W;
  fs_mkdirSync : string -> W -> Outcome unit * W;
  fs_saveScreenshot : string -> W -> Outcome unit * W
}.

Variable files : Files.

Record ScreenshotUtils : Type := mkScreenshotUtils {
  su_logger : Logger;
  screenshotDir : string
}.

Local Notation "x <- m ;; k" := (bind m (fun x => k))
  (at level 61, m at next level, right associativity).
Local Notation "m ;; k" := (bind m (fun _ => k))
  (at level 61, right associativity).

(** [takeFailureScreenshot(testName, error)] *)
Definition takeFailureScreenshot (this : ScreenshotUtils) (testName : CodeUnits)
    (error : JsError) : M W string :=
  let sanitizedTestName := replace_non_alphanumeric testName in
  iso <- total (fs_isoNow files) ;;
  let timestamp := replace_colon_dot iso in
  let fileName := "FAILURE_" ++ sanitizedTestName ++ "_" ++ timestamp ++ ".png" in
  let filePath := fs_join files [screenshotDir this; "failures"; fileName] in
  let failuresDir := fs_join files [screenshotDir this; "failures"] in
  present <- extern (fs_existsSync files failuresDir) ;;
  (if negb present then extern (fs_mkdirSync files failuresDir) else ret tt) ;;
  try_catch
    (extern (fs_saveScreenshot files filePath) ;;
     Logger_error (su_logger this) ("Failure screenshot saved: " ++ filePath) ;;
     ret filePath)
    (fun screenshotError =>
       Logger_error (su_logger this) "Failed to take failure screenshot" ;;
       throw screenshotError).

(** [compareScreenshots(baselinePath, actualPath, diffPath)] *)
Definition compareScreenshots (this : ScreenshotUtils)
    (baselinePath actualPath diffPath : string) : M W bool :=
  try_catch
    (baselineExists <- extern (fs_existsSync files baselinePath) ;;
     actualExists <- extern (fs_existsSync files actualPath) ;;
     if negb baselineExists then
       Logger_warn (su_logger this) ("Baseline screenshot not found: " ++ baselinePath) ;;
       ret false
     else if negb actualExists then
       Logger_error (su_logger this) ("Actual screenshot not found: " ++ actualPath) ;;
       ret false
     else
       Logger_info (su_logger this) "Screenshot comparison performed" ;;
       ret true)
    (fun error =>
       Logger_error (su_logger this) "Screenshot comparison failed" ;;
       ret false).

End ScreenshotUtils.

Arguments mkFiles {W}.
Arguments fs_isoNow {W} f w.
Arguments fs_join {W} f parts.
Arguments fs_existsSync {W} f path w.
Arguments fs_mkdirSync {W} f path w.
Arguments fs_saveScreenshot {W} f path w.
Arguments takeFailureScreenshot {W} files this testName error.
Arguments compareScreenshots {W} files this baselinePath actualPath diffPath.

(** * Vocabulary of the further statements *)

(** The clicks of a trace, each with the element clicked and the answer. *)
Definition clicks (t : Trace) : list (Element * Outcome unit) :=
  flat_map (fun ev => match ev with EvClick el r => [(el, r)] | _ => [] end) t.

(** The clicks of a trace that went through. *)
Definition successful_clicks (t : Trace) : list Element :=
  flat_map (fun ev => match ev with EvClick el (Returned _) => [el] | _ => [] end) t.

(** All log entries of a trace, whatever their level. *)
Definition log_entries (t : Trace) : list (Level * string) :=
  flat_map (fun ev => match ev with EvLog _ lvl msg => [(lvl, msg)] | _ => [] end) t.

Definition sum (l : list Z) : Z := fold_right Z.add 0 l.

(** ** Further sample collaborators *)

(** [browser.waitUntil] does nothing of its own but call the function it
    is given: the calls made while it runs are those of some calls of that
    function. *)
Definition polls_only {W} (browser : Browser W) : Prop :=
  forall condition timeout timeoutMsg w,
  exists worlds,
    trace_of (br_waitUntil browser condition timeout timeoutMsg w)
    = flat_map (fun w' => trace_of (condition w')) worlds.

(** A [waitUntil] for the examples: it polls at most [times] times, one
    after the other, until the function answers [true]; an exception of the
    function counts as not yet [true]. *)
Fixpoint poll {W} (times : nat) (condition : M W bool) (timeoutMsg : string)
  : M W unit :=
  match times with
  | O => throw (new_Error timeoutMsg)
  | S times' =>
      fun w =>
        let '(r, w1, t1) := condition w in
        match r with
        | Returned true => (Returned tt, w1, t1)
        | _ => let '(o, w2, t2) := poll times' condition timeoutMsg w1 in
               (o, w2, (t1 ++ t2)%list)
        end
  end.

(** A browser that reports every element as [displayed], reads [text] in
    every element, finds three elements for every locator and polls at
    most three times. *)
Definition sample_browser (displayed : bool) (text : string) : Browser nat :=
  mkBrowser (fun _ n => (Returned displayed, n))
            (fun _ n => (Returned text, n))
            (fun _ n => (Returned text, n))
            (fun _ _ n => (Returned None, n))
            (fun _ n => (Returned [7; 8; 9]%nat, n))
            (fun condition _ timeoutMsg => poll 3 condition timeoutMsg).

(** The value of the decimal digits at the start of a text, if any. *)
Fixpoint leading_digits (s : string) (value : option Z) : option Z :=
  match s with
  | EmptyString => value
  | String c rest =>
      let n := nat_of_ascii c in
      if ((48 <=? n) && (n <=? 57))%nat
      then leading_digits rest
             (Some (10 * match value with Some v => v | None => 0 end
                    + Z.of_nat (n - 48)))
      else value
  end.

(** A stand-in for [parseInt] in the examples, right on unsigned decimal
    text. *)
Definition parseInt_decimal (s : string) : JsNumber :=
  match leading_digits s None with
  | Some z => Num z
  | None => NaN
  end.

(** The messages of the three log entries of [request]. *)
Definition request_msg (requestId : string) : string := "[" ++ requestId ++ "] API Request".
Definition response_msg (requestId : string) : string := "[" ++ requestId ++ "] API Response".
Definition failed_msg (requestId : string) : string :=
  "[" ++ requestId ++ "] API Request Failed".

(** A platform whose server answers every request with the given status, a
    JSON content type and the body "{}"; payloads and buffers are text. *)
Definition sample_http (st : Z) (statusText : string) (ok : bool)
  : Http nat string string :=
  mkHttp (fun n => (1700000000000 + Z.of_nat n, S n))
         (fun n => ("k3j9x0q2p", n))
         (fun url _ => Returned url)
         (fun d => negb (String.eqb d ""))
         (fun d => Returned (Some d))
         (fun d => Returned (Z.of_nat (String.length d)))
         (fun _ => Returned tt)
         (fun _ _ n =>
            (Returned (mkResponse st statusText ok (Some "application/json")
                         [("content-type", "application/json")] 0), n))
         (fun _ n => (Returned "{}", n))
         (fun _ n => (Returned "", n))
         (fun file _ _ => Returned file)
         (fun d => Returned d).

Definition sample_client : BaseApiClient := new_BaseApiClient "https://api.test" None.

(** The random source keeps its word: [Math.floor(Math.random() * n)] is an
    index below [n], and sorting rearranges. *)
Definition fair {W} (random : Random W) : Prop :=
  (forall n w, 0 < n -> 0 <= fst (rnd_floor random n w) < n) /\
  (forall chars w, Permutation chars (fst (rnd_shuffle random chars w))).

(** The characters of a string. *)
Definition chars (s : string) : list ascii := list_ascii_of_string s.

(** A random source for the examples: indices that walk through the
    character set, and a shuffle that reverses. *)
Definition sample_random : Random nat :=
  mkRandom (fun n w => ((Z.of_nat w * 7 + 3) mod n, S w))
           (fun l w => (rev l, w)).

(** * Facts *)

Local Open Scope list_scope.

(** ** Traces and schedules *)

Lemma schedule_app t1 t2 : schedule (t1 ++ t2) = (schedule t1 ++ schedule t2)%list.
Proof. apply flat_map_app. Qed.

Lemma evaluations_app t1 t2 :
  evaluations (t1 ++ t2) = (evaluations t1 ++ evaluations t2)%list.
Proof. apply flat_map_app. Qed.

Lemma pauses_app t1 t2 : pauses (t1 ++ t2) = (pauses t1 ++ pauses t2)%list.
Proof. apply flat_map_app. Qed.

Lemma pauses_schedule t : pauses t = suspensions (schedule t).
Proof.
  induction t as [|ev t IH]; [reflexivity|].
  change (ev :: t) with ([ev] ++ t)%list.
  rewrite pauses_app, schedule_app. unfold suspensions at 1.
  rewrite flat_map_app. fold (suspensions (schedule t)). rewrite <- IH.
  destruct ev; reflexivity.
Qed.

Lemma length_evaluations_schedule t :
  length (evaluations t) =
  length (filter (fun st => match st with Evaluate => true | _ => false end) (schedule t)).
Proof.
  induction t as [|ev t IH]; [reflexivity|].
  unfold evaluations, schedule in *. destruct ev; cbn; rewrite ?IH; reflexivity.
Qed.

Lemma length_attempts_from n : forall a, length (attempts_from a n) = n.
Proof. induction n as [|n IH]; intros a; cbn; [|rewrite IH]; reflexivity. Qed.

Lemma nth_error_attempts_from n :
  forall a i, (i < n)%nat -> nth_error (attempts_from a n) i = Some (a + Z.of_nat i).
Proof.
  induction n as [|n IH]; intros a i Hi; [lia|].
  destruct i as [|i]; cbn [attempts_from nth_error].
  - f_equal. lia.
  - rewrite IH by lia. f_equal. lia.
Qed.

(** The suspensions of a schedule that runs up to the last attempt [m]. *)
Lemma suspensions_backoff b m n :
  forall a, a + Z.of_nat n = m + 1 ->
  suspensions (flat_map (backoff_step b m) (attempts_from a n)) =
  map (fun k => b * 2 ^ (k - 1)) (attempts_from a (pred n)).
Proof.
  induction n as [|n IH]; intros a Ha; [reflexivity|].
  cbn [attempts_from flat_map]. unfold suspensions. rewrite flat_map_app.
  fold (suspensions (flat_map (backoff_step b m) (attempts_from (a + 1) n))).
  rewrite IH by lia. unfold backoff_step.
  destruct n as [|n].
  - destruct (Z.ltb_spec a m); [lia|]. reflexivity.
  - destruct (Z.ltb_spec a m); [|lia]. reflexivity.
Qed.

Lemma evaluations_backoff b m n :
  forall a,
  length (filter (fun st => match st with Evaluate => true | _ => false end)
                 (flat_map (backoff_step b m) (attempts_from a n))) = n.
Proof.
  induction n as [|n IH]; intros a; [reflexivity|].
  cbn [attempts_from flat_map]. rewrite filter_app, length_app, IH.
  unfold backoff_step. destruct (a <? m); reflexivity.
Qed.

Lemma last_app_nonempty {A} (l1 l2 : list A) d :
  l2 <> [] -> last (l1 ++ l2) d = last l2 d.
Proof.
  intros Hne. induction l1 as [|y l1 IH]; [reflexivity|].
  cbn [app]. rewrite <- IH. cbn. destruct (l1 ++ l2) eqn:E; [|reflexivity].
  destruct l1; [contradiction|discriminate].
Qed.

(** A schedule that runs up to the last attempt [m] does not end suspended. *)
Lemma last_backoff_step b m n :
  forall a ms, a + Z.of_nat n = m + 1 ->
  last (flat_map (backoff_step b m) (attempts_from a n)) Evaluate <> Suspend ms.
Proof.
  induction n as [|n IH]; intros a ms Ha; [discriminate|].
  cbn [attempts_from flat_map]. destruct n as [|n].
  - cbn. unfold backoff_step. destruct (Z.ltb_spec a m); [lia|]. discriminate.
  - rewrite last_app_nonempty; [apply IH; lia|]. discriminate.
Qed.

Lemma suspensions_backoff_schedule b m :
  suspensions (backoff_schedule b m) =
  map (fun k => b * 2 ^ (k - 1)) (attempts_from 1 (Z.to_nat (m - 1))).
Proof.
  unfold backoff_schedule. destruct (Z.leb_spec m 0) as [Hm|Hm].
  - replace (Z.to_nat m) with 0%nat by lia.
    replace (Z.to_nat (m - 1)) with 0%nat by lia. reflexivity.
  - rewrite suspensions_backoff by lia. f_equal. f_equal. lia.
Qed.

Lemma last_backoff_schedule b m ms : last (backoff_schedule b m) Evaluate <> Suspend ms.
Proof.
  unfold backoff_schedule. destruct (Z.leb_spec m 0) as [Hm|Hm].
  - replace (Z.to_nat m) with 0%nat by lia. discriminate.
  - apply last_backoff_step. lia.
Qed.

(** ** Strings *)

Lemma prefix_append s post : String.prefix s (s ++ post)%string = true.
Proof.
  induction s as [|a s IH]; [destruct post; reflexivity|].
  cbn. destruct (ascii_dec a a) as [_|Hne]; [exact IH|contradiction].
Qed.

Lemma includes_append pre needle post :
  includes needle (pre ++ needle ++ post)%string = true.
Proof.
  induction pre as [|a pre IH].
  - cbn [String.append]. pose proof (prefix_append needle post) as Hp.
    destruct (needle ++ post)%string; cbn [includes]; rewrite Hp; reflexivity.
  - cbn [String.append includes]. rewrite IH. apply orb_true_r.
Qed.

(** ** The backoff loop *)

Section BackoffFacts.

Context {W : Type}.
Variable driver : Driver W.
Variable this : WaitUtils.
Variable condition : Condition W.
Variables maxAttempts baseDelay : Z.

Local Notation "'loop'" := (backoff_loop driver this condition maxAttempts baseDelay).

Lemma backoff_loop_exit attempt w :
  maxAttempts < attempt -> loop attempt w = (Returned None, w, []).
Proof.
  intros H. rewrite backoff_loop_equation_1.
  destruct (Z_le_gt_dec attempt maxAttempts) as [Hle|Hgt]; [lia|reflexivity].
Qed.

Lemma backoff_loop_step attempt w :
  attempt <= maxAttempts ->
  loop attempt w =
  let '(r, w1) := cond_eval condition w in
  match r with
  | Returned true => (Returned (Some tt), w1, eval_events (wu_logger this) attempt r)
  | _ =>
      let '(o, w2, t) :=
        loop (attempt + 1) (delay_world driver maxAttempts baseDelay attempt w1) in
      (o, w2,
       (eval_events (wu_logger this) attempt r
          ++ delay_events (wu_logger this) maxAttempts baseDelay attempt ++ t)%list)
  end.
Proof.
  intros H. rewrite backoff_loop_equation_1.
  destruct (Z_le_gt_dec attempt maxAttempts) as [Hle|Hgt]; [|lia].
  cbv [backoff_loop_unfold_clause_1 bind try_catch evaluate call ret pause
       Logger_debug Logger_log delay_world delay_events eval_events].
  destruct (cond_eval condition w) as [[[|]|e] w1]; [reflexivity| |];
    destruct (attempt <? maxAttempts);
    destruct (loop (attempt + 1) _) as [[[o|e'] w2] t2]; reflexivity.
Qed.

(** Induction along the iterations of the loop. *)
Lemma backoff_loop_ind (P : Z -> Prop) :
  (forall attempt, maxAttempts < attempt -> P attempt) ->
  (forall attempt, attempt <= maxAttempts -> P (attempt + 1) -> P attempt) ->
  forall attempt, P attempt.
Proof.
  intros Hexit Hstep attempt.
  remember (Z.to_nat (maxAttempts + 1 - attempt)) as n eqn:Hn.
  revert attempt Hn. induction n as [|n IH]; intros attempt Hn.
  - apply Hexit. lia.
  - apply Hstep; [lia|]. apply IH. lia.
Qed.

(** [waitWithBackoff] in terms of its loop. *)
Lemma waitWithBackoff_run w :
  waitWithBackoff driver this condition (Some maxAttempts) (Some baseDelay) w =
  let '(o, w1, t) := loop 1 w in
  (match o with
   | Returned (Some _) => Returned tt
   | Returned None => Threw (backoff_exhausted maxAttempts)
   | Threw e => Threw e
   end, w1,
   EvLog (component (wu_logger this)) debug
     ("Waiting with exponential backoff, max attempts: " ++ number_toString maxAttempts)%string
   :: t).
Proof.
  cbv [waitWithBackoff param bind Logger_debug Logger_log ret throw backoff_exhausted].
  destruct (loop 1 w) as [[[[[]|]|e] w1] t]; cbn [app]; rewrite ?app_nil_r; reflexivity.
Qed.

(** The loop never lets an exception escape. *)
Lemma backoff_loop_returns attempt :
  forall w, exists r, outcome_of (loop attempt w) = Returned r.
Proof.
  pattern attempt. apply backoff_loop_ind; clear attempt.
  - intros attempt H w. rewrite backoff_loop_exit by assumption. eexists; reflexivity.
  - intros attempt H IH w. rewrite backoff_loop_step by assumption.
    destruct (cond_eval condition w) as [[[|]|e] w1].
    + eexists; reflexivity.
    + specialize (IH (delay_world driver maxAttempts baseDelay attempt w1)).
      destruct (loop (attempt + 1) _) as [[o w2] t]. exact IH.
    + specialize (IH (delay_world driver maxAttempts baseDelay attempt w1)).
      destruct (loop (attempt + 1) _) as [[o w2] t]. exact IH.
Qed.

(** A condition that never answers [true] makes the loop run to its end. *)
Lemma backoff_loop_never_true attempt :
  never_true condition ->
  forall w,
    outcome_of (loop attempt w) = Returned None /\
    schedule (trace_of (loop attempt w)) =
    flat_map (backoff_step baseDelay maxAttempts)
             (attempts_from attempt (Z.to_nat (maxAttempts + 1 - attempt))).
Proof.
  intros Hnever. pattern attempt. apply backoff_loop_ind; clear attempt.
  - intros attempt H w. rewrite backoff_loop_exit by assumption.
    replace (Z.to_nat (maxAttempts + 1 - attempt)) with 0%nat by lia.
    split; reflexivity.
  - intros attempt H IH w. rewrite backoff_loop_step by assumption.
    replace (Z.to_nat (maxAttempts + 1 - attempt))
      with (S (Z.to_nat (maxAttempts + 1 - (attempt + 1)))) by lia.
    pose proof (Hnever w) as Hw.
    destruct (cond_eval condition w) as [r w1]. cbn [fst] in Hw.
    specialize (IH (delay_world driver maxAttempts baseDelay attempt w1)).
    destruct (loop (attempt + 1) _) as [[o w2] t].
    unfold outcome_of, trace_of in IH |- *. cbn [fst snd] in IH |- *.
    destruct IH as [IHo IHs].
    assert (Hs : schedule (eval_events (wu_logger this) attempt r
                   ++ delay_events (wu_logger this) maxAttempts baseDelay attempt ++ t)
                 = (backoff_step baseDelay maxAttempts attempt ++ schedule t)%list).
    { rewrite !schedule_app. unfold delay_events, backoff_step.
      destruct r as [b|e]; destruct (attempt <? maxAttempts); reflexivity. }
    destruct r as [[|]|e]; [congruence| |];
      (split; [exact IHo|]); cbn [snd attempts_from flat_map];
      rewrite Hs, IHs; reflexivity.
Qed.

(** The loop evaluates the condition at most once per remaining attempt. *)
Lemma backoff_loop_bound attempt :
  forall w,
    (length (evaluations (trace_of (loop attempt w)))
     <= Z.to_nat (maxAttempts + 1 - attempt))%nat.
Proof.
  pattern attempt. apply backoff_loop_ind; clear attempt.
  - intros attempt H w. rewrite backoff_loop_exit by assumption. cbn. lia.
  - intros attempt H IH w. rewrite backoff_loop_step by assumption.
    destruct (cond_eval condition w) as [r w1].
    specialize (IH (delay_world driver maxAttempts baseDelay attempt w1)).
    destruct (loop (attempt + 1) _) as [[o w2] t].
    unfold trace_of in IH |- *. cbn [snd] in IH |- *.
    assert (He : length (evaluations (eval_events (wu_logger this) attempt r
                   ++ delay_events (wu_logger this) maxAttempts baseDelay attempt ++ t))
                 = S (length (evaluations t))).
    { rewrite !evaluations_app, !length_app. unfold delay_events.
      destruct r as [b|e]; destruct (attempt <? maxAttempts); reflexivity. }
    destruct r as [[|]|e]; [cbn; lia| |]; cbn [snd]; rewrite He; lia.
Qed.

(** Whatever the condition does, the loop stops at its first [true]: either
    the last evaluation is the only one that answered [true] and the
    function returns, or no evaluation answered [true] and every remaining
    attempt was used. *)
Lemma backoff_loop_stops_at_first_true attempt :
  forall w,
    let r := loop attempt w in
    let answers := evaluations (trace_of r) in
    (exists before,
        answers = before ++ [Returned true] /\
        Forall (fun o => o <> Returned true) before /\
        outcome_of r = Returned (Some tt))
    \/ (Forall (fun o => o <> Returned true) answers /\
        outcome_of r = Returned None /\
        length answers = Z.to_nat (maxAttempts + 1 - attempt)).
Proof.
  pattern attempt. apply backoff_loop_ind; clear attempt.
  - intros attempt H w. cbn zeta. rewrite backoff_loop_exit by assumption.
    right. cbn. repeat split; [constructor|lia].
  - intros attempt H IH w. cbn zeta. rewrite backoff_loop_step by assumption.
    destruct (cond_eval condition w) as [r w1].
    specialize (IH (delay_world driver maxAttempts baseDelay attempt w1)).
    cbn zeta in IH.
    destruct (loop (attempt + 1) _) as [[o w2] t].
    unfold outcome_of, trace_of in IH |- *. cbn [fst snd] in IH |- *.
    assert (He : forall r0,
              evaluations (eval_events (wu_logger this) attempt r0
                ++ delay_events (wu_logger this) maxAttempts baseDelay attempt ++ t)
              = r0 :: evaluations t).
    { intros r0. rewrite !evaluations_app. unfold delay_events.
      destruct r0 as [b|e]; destruct (attempt <? maxAttempts); reflexivity. }
    destruct r as [[|]|e]; cbn [fst snd].
    + left. exists []. repeat split. constructor.
    + rewrite He. destruct IH as [(before & Ha & Hb & Ho)|(Ha & Ho & Hl)].
      * left. exists (Returned false :: before). rewrite Ha.
        repeat split; [constructor; [discriminate|exact Hb]|exact Ho].
      * right. repeat split; [constructor; [discriminate|exact Ha]|exact Ho|].
        cbn [length]. rewrite Hl. lia.
    + rewrite He. destruct IH as [(before & Ha & Hb & Ho)|(Ha & Ho & Hl)].
      * left. exists (Threw e :: before). rewrite Ha.
        repeat split; [constructor; [discriminate|exact Hb]|exact Ho].
      * right. repeat split; [constructor; [discriminate|exact Ha]|exact Ho|].
        cbn [length]. rewrite Hl. lia.
Qed.

End BackoffFacts.

(** Exceptions of the condition and [false] answers drive the loop alike. *)
Lemma backoff_loop_swallowed {W} (driver : Driver W) this condition maxAttempts baseDelay
    attempt :
  forall w,
    let r := backoff_loop driver this condition maxAttempts baseDelay attempt w in
    let r' := backoff_loop driver this (swallowed condition) maxAttempts baseDelay attempt w in
    outcome_of r = outcome_of r' /\ world_of r = world_of r' /\
    schedule (trace_of r) = schedule (trace_of r').
Proof.
  pattern attempt. apply (backoff_loop_ind maxAttempts); clear attempt.
  - intros attempt H w. rewrite !backoff_loop_exit by assumption. cbn. auto.
  - intros attempt H IH w. rewrite !backoff_loop_step by assumption.
    cbn [swallowed cond_eval].
    destruct (cond_eval condition w) as [r w1].
    specialize (IH (delay_world driver maxAttempts baseDelay attempt w1)).
    cbn zeta in IH.
    destruct r as [[|]|e]; cbn iota beta; [cbn; auto| |];
      destruct (backoff_loop driver this condition _ _ (attempt + 1) _) as [[o w2] t];
      destruct (backoff_loop driver this (swallowed condition) _ _ (attempt + 1) _)
        as [[o' w2'] t'];
      unfold outcome_of, world_of, trace_of in IH |- *; cbn [fst snd] in IH |- *;
      destruct IH as (Ho & Hw & Hs);
      (split; [exact Ho|split; [exact Hw|]]);
      rewrite !schedule_app, Hs; unfold delay_events;
      destruct (attempt <? maxAttempts); reflexivity.
Qed.

(** A scripted condition whose first [true] comes after [d] other answers. *)
Lemma backoff_loop_scripted this name script maxAttempts baseDelay d :
  forall attempt n,
    attempt + Z.of_nat d <= maxAttempts ->
    script (n + d)%nat = Returned true ->
    (forall j, (j < d)%nat -> script (n + j)%nat <> Returned true) ->
    let r := backoff_loop script_driver this (scripted name script)
               maxAttempts baseDelay attempt n in
    outcome_of r = Returned (Some tt) /\ world_of r = S (n + d) /\
    length (evaluations (trace_of r)) = S d.
Proof.
  induction d as [|d IH]; intros attempt n Hle Htrue Hbefore;
    cbn zeta; rewrite backoff_loop_step by lia; cbn [scripted cond_eval].
  - rewrite Nat.add_0_r in Htrue. rewrite Htrue. cbn.
    rewrite Nat.add_0_r. auto.
  - pose proof (Hbefore 0%nat ltac:(lia)) as H0. rewrite Nat.add_0_r in H0.
    assert (Hw : delay_world script_driver maxAttempts baseDelay attempt (S n) = S n).
    { unfold delay_world. destruct (attempt <? maxAttempts); reflexivity. }
    rewrite Hw.
    specialize (IH (attempt + 1) (S n) ltac:(lia)).
    cbn zeta in IH.
    destruct IH as (Ho & Hwd & He).
    { rewrite <- Htrue. f_equal. lia. }
    { intros j Hj. replace (S n + j)%nat with (n + S j)%nat by lia.
      apply Hbefore. lia. }
    destruct (backoff_loop script_driver this _ _ _ (attempt + 1) (S n)) as [[o w2] t].
    unfold outcome_of, world_of, trace_of in Ho, Hwd, He |- *.
    cbn [fst snd] in Ho, Hwd, He |- *.
    assert (Hev : forall r, r <> Returned true ->
              length (evaluations (eval_events (wu_logger this) attempt r
                ++ delay_events (wu_logger this) maxAttempts baseDelay attempt ++ t))
              = S (S d)).
    { intros r _. rewrite !evaluations_app, !length_app, He. unfold delay_events.
      destruct r as [b|e]; destruct (attempt <? maxAttempts); reflexivity. }
    destruct (script n) as [[|]|e] eqn:Es; [congruence| |]; cbn [fst snd];
      (split; [exact Ho|split; [rewrite Hwd; lia|apply Hev; discriminate]]).
Qed.

(** ** The click retry loop *)

Section SafeClickFacts.

Context {W : Type}.
Variable driver : Driver W.
Variable this : BasePage.
Variable selector : string.

Local Notation "'lg'" := (component (bp_logger this)).

(** One run of the [try] block is a click attempt. *)
Lemma safeClick_try_attempt w :
  let r := safeClick_try driver this selector w in
  (outcome_of r = Returned (Some tt) /\ click_attempt lg selector (trace_of r) (Returned tt))
  \/ (exists e, outcome_of r = Threw e /\ click_attempt lg selector (trace_of r) (Threw e)).
Proof.
  cbv [safeClick_try waitForClickable param bind call ret resolve Logger_info Logger_log
       outcome_of trace_of].
  destruct (drv_resolve driver selector w) as [[el|e] w1]; cbn [fst snd app].
  2: { right. exists e. split; [reflexivity|constructor]. }
  destruct (drv_waitForClickable driver el 10000 w1) as [[[]|e] w2]; cbn [fst snd app].
  2: { right. exists e. split; [reflexivity|constructor]. }
  destruct (drv_click driver el w2) as [[[]|e] w3]; cbn [fst snd app].
  2: { right. exists e. split; [reflexivity|constructor]. }
  left. split; [reflexivity|constructor].
Qed.

Variable retries : Z.

Lemma safeClick_loop_exit i w :
  retries <= i -> safeClick_loop driver this selector retries i w = (Returned None, w, []).
Proof.
  intros H. rewrite safeClick_loop_equation_1.
  destruct (Z_lt_ge_dec i retries) as [Hlt|Hge]; [lia|reflexivity].
Qed.

Lemma safeClick_loop_step i w :
  i < retries ->
  safeClick_loop driver this selector retries i w =
  match safeClick_try driver this selector w with
  | (Returned (Some v), w1, t1) => (Returned (Some v), w1, t1)
  | (Returned None, w1, t1) =>
      let '(o, w2, t2) := safeClick_loop driver this selector retries (i + 1) w1 in
      (o, w2, t1 ++ t2)
  | (Threw e, w1, t1) =>
      if i =? retries - 1 then
        (Threw e, w1, t1 ++ [EvLog lg warn (click_failed_msg selector (i + 1) e)])
      else
        let '(o, w2, t2) :=
          safeClick_loop driver this selector retries (i + 1) (drv_pause driver 1000 w1) in
        (o, w2, t1 ++ [EvLog lg warn (click_failed_msg selector (i + 1) e); EvPause 1000]
                   ++ t2)
  end.
Proof.
  intros H. rewrite safeClick_loop_equation_1.
  destruct (Z_lt_ge_dec i retries) as [Hlt|Hge]; [|lia].
  cbv [safeClick_loop_unfold_clause_1 bind try_catch safeClick_catch ret throw pause
       Logger_warn Logger_log click_failed_msg].
  destruct (safeClick_try driver this selector w) as [[[[v|]|e] w1] t1].
  - rewrite app_nil_r. reflexivity.
  - reflexivity.
  - destruct (i =? retries - 1).
    + cbn [app]. reflexivity.
    + cbn [app].
      destruct (safeClick_loop driver this selector retries (i + 1) _) as [[o w2] t2].
      destruct o as [[v|]|e']; rewrite <- ?app_assoc; cbn [app]; reflexivity.
Qed.

Lemma safeClick_loop_ind (P : Z -> Prop) :
  (forall i, retries <= i -> P i) ->
  (forall i, i < retries -> P (i + 1) -> P i) ->
  forall i, P i.
Proof.
  intros Hexit Hstep i.
  remember (Z.to_nat (retries - i)) as n eqn:Hn.
  revert i Hn. induction n as [|n IH]; intros i Hn.
  - apply Hexit. lia.
  - apply Hstep; [lia|]. apply IH. lia.
Qed.

(** [safeClick] in terms of its loop. *)
Lemma safeClick_run w :
  safeClick driver this selector (Some retries) w =
  let '(o, w1, t) := safeClick_loop driver this selector retries 0 w in
  (match o with
   | Returned _ => Returned tt
   | Threw e => Threw e
   end, w1, t).
Proof.
  cbv [safeClick param bind ret].
  destruct (safeClick_loop driver this selector retries 0 w) as [[[[[]|]|e] w1] t];
    rewrite ?app_nil_r; reflexivity.
Qed.

(** Every run of the loop is a retried click. *)
Lemma safeClick_loop_retries i :
  forall w,
    let r := safeClick_loop driver this selector retries i w in
    click_retries lg selector retries i (trace_of r)
      (match outcome_of r with Returned _ => Returned tt | Threw e => Threw e end).
Proof.
  pattern i. apply safeClick_loop_ind; clear i.
  - intros i H w. cbn zeta. rewrite safeClick_loop_exit by assumption.
    apply retries_none. assumption.
  - intros i H IH w. cbn zeta. rewrite safeClick_loop_step by assumption.
    pose proof (safeClick_try_attempt w) as Htry. cbn zeta in Htry.
    destruct (safeClick_try driver this selector w) as [[o w1] t1].
    unfold outcome_of, trace_of in Htry. cbn [fst snd] in Htry.
    destruct Htry as [[Ho Ht]|(e & Ho & Ht)]; subst o.
    + apply retries_success; assumption.
    + destruct (Z.eqb_spec i (retries - 1)) as [Hlast|Hmore].
      * apply retries_exhausted; assumption.
      * specialize (IH (drv_pause driver 1000 w1)). cbn zeta in IH.
        destruct (safeClick_loop driver this selector retries (i + 1) _) as [[o w2] t2].
        unfold outcome_of, trace_of in IH |- *. cbn [fst snd] in IH |- *.
        apply retries_again; [lia|assumption|exact IH].
Qed.

End SafeClickFacts.

(** ** What a retried click leaves in the trace *)

Lemma logged_app lvl t1 t2 : logged lvl (t1 ++ t2) = logged lvl t1 ++ logged lvl t2.
Proof. apply flat_map_app. Qed.

Lemma resolutions_app t1 t2 : resolutions (t1 ++ t2) = resolutions t1 ++ resolutions t2.
Proof. apply flat_map_app. Qed.

Lemma click_attempt_failed lg selector t e :
  click_attempt lg selector t (Threw e) ->
  (forall lvl, logged lvl t = []) /\ pauses t = [] /\ resolutions t = [selector].
Proof. intros H. inversion H; subst; repeat split. Qed.

Lemma click_attempt_done lg selector t :
  click_attempt lg selector t (Returned tt) ->
  logged info t = [clicked_msg selector] /\
  (forall lvl, lvl <> info -> logged lvl t = []) /\
  pauses t = [] /\ resolutions t = [selector].
Proof.
  intros H. inversion H; subst. repeat split.
  intros [] Hl; try reflexivity; contradiction.
Qed.

(** The outcome of the [try] block names the attempt it made. *)
Lemma safeClick_try_failed {W} (driver : Driver W) this selector w e :
  outcome_of (safeClick_try driver this selector w) = Threw e ->
  click_attempt (component (bp_logger this)) selector
    (trace_of (safeClick_try driver this selector w)) (Threw e).
Proof.
  intros Ho. destruct (safeClick_try_attempt driver this selector w)
    as [[Ho' _]|(e' & Ho' & Ht)]; rewrite Ho in Ho'; [discriminate|].
  injection Ho' as <-. exact Ht.
Qed.

Lemma safeClick_try_done {W} (driver : Driver W) this selector w v :
  outcome_of (safeClick_try driver this selector w) = Returned v ->
  click_attempt (component (bp_logger this)) selector
    (trace_of (safeClick_try driver this selector w)) (Returned tt).
Proof.
  intros Ho. destruct (safeClick_try_attempt driver this selector w)
    as [[_ Ht]|(e' & Ho' & _)]; [exact Ht|].
  rewrite Ho in Ho'. discriminate.
Qed.

(** Attempts, pauses and resolutions of a retried click. *)
Lemma click_retries_counts lg selector retries i t o :
  click_retries lg selector retries i t o ->
  (length (resolutions t) <= Z.to_nat (retries - i))%nat /\
  (i < retries -> (1 <= length (resolutions t))%nat) /\
  Forall (eq selector) (resolutions t) /\
  pauses t = repeat 1000 (pred (length (resolutions t))) /\
  (length (logged warn t) + length (logged info t))%nat = length (resolutions t).
Proof.
  induction 1 as [i Hi|i t Hi Ht|i t e Hi Ht|i t e t' o Hi Ht Hrest IH].
  - cbn. repeat split; [lia|lia|constructor].
  - destruct (click_attempt_done _ _ _ Ht) as (Hinfo & Hother & Hp & Hr).
    rewrite Hr, Hp, Hinfo, (Hother warn) by discriminate. cbn.
    repeat split; [lia|lia|repeat constructor].
  - destruct (click_attempt_failed _ _ _ _ Ht) as (Hl & Hp & Hr).
    rewrite resolutions_app, pauses_app, !logged_app, Hr, Hp, !Hl. cbn.
    repeat split; [lia|lia|repeat constructor].
  - destruct (click_attempt_failed _ _ _ _ Ht) as (Hl & Hp & Hr).
    destruct IH as (IHn & IHone & IHsel & IHp & IHlog).
    specialize (IHone ltac:(lia)).
    rewrite !resolutions_app, !pauses_app, !logged_app, Hr, Hp, !Hl. cbn.
    rewrite IHp. repeat split.
    + lia.
    + lia.
    + constructor; [reflexivity|exact IHsel].
    + destruct (length (resolutions t')); [lia|reflexivity].
    + lia.
Qed.

(** ** Polling with a condition that never holds *)

Lemma waitWithBackoff_never_true {W} (driver : Driver W) this condition
    maxAttempts baseDelay w :
  never_true condition ->
  let r := waitWithBackoff driver this condition (Some maxAttempts) (Some baseDelay) w in
  outcome_of r = Threw (backoff_exhausted maxAttempts) /\
  schedule (trace_of r) = backoff_schedule baseDelay maxAttempts.
Proof.
  intros Hnever. cbn zeta. rewrite waitWithBackoff_run.
  destruct (backoff_loop_never_true driver this condition maxAttempts baseDelay 1 Hnever w)
    as [Ho Hs].
  destruct (backoff_loop driver this condition maxAttempts baseDelay 1 w) as [[o w1] t].
  unfold outcome_of, trace_of in Ho, Hs |- *. cbn [fst snd] in Ho, Hs |- *.
  subst o. split; [reflexivity|].
  change (schedule t = backoff_schedule baseDelay maxAttempts).
  rewrite Hs. unfold backoff_schedule. do 2 f_equal. lia.
Qed.

(** * The claims *)

(** C1.  Exponential backoff: when no attempt succeeds, the evaluations of
    the condition and the suspensions alternate as evaluation 1, pause,
    evaluation 2, ..., evaluation [maxAttempts]; the suspension after
    attempt [n] (1 <= n < maxAttempts) lasts [baseDelay * 2^(n-1)] ms and
    nothing is suspended after the last attempt.  With the default
    arguments (5 attempts, 1000 ms) the delays are 1000, 2000, 4000,
    8000 ms. *)
Theorem waitWithBackoff_delays {W} (driver : Driver W) this condition
    maxAttempts baseDelay w :
  never_true condition ->
  let t := trace_of (waitWithBackoff driver this condition
                       (Some maxAttempts) (Some baseDelay) w) in
  schedule t = backoff_schedule baseDelay maxAttempts /\
  (forall n, 1 <= n < maxAttempts ->
     nth_error (pauses t) (Z.to_nat (n - 1)) = Some (baseDelay * 2 ^ (n - 1))) /\
  length (pauses t) = Z.to_nat (maxAttempts - 1) /\
  length (evaluations t) = Z.to_nat maxAttempts /\
  (forall ms, last (schedule t) Evaluate <> Suspend ms) /\
  pauses (trace_of (waitWithBackoff driver this condition None None w))
  = [1000; 2000; 4000; 8000].
Proof.
  intros Hnever t.
  destruct (waitWithBackoff_never_true driver this condition maxAttempts baseDelay w Hnever)
    as [_ Hs].
  fold t in Hs.
  assert (Hp : pauses t = map (fun k => baseDelay * 2 ^ (k - 1))
                              (attempts_from 1 (Z.to_nat (maxAttempts - 1)))).
  { rewrite pauses_schedule, Hs. apply suspensions_backoff_schedule. }
  split; [exact Hs|]. split; [|split; [|split; [|split]]].
  - intros n Hn. rewrite Hp, nth_error_map.
    rewrite nth_error_attempts_from by (clear - Hn; lia).
    cbn [option_map]. do 3 f_equal. lia.
  - rewrite Hp, length_map. apply length_attempts_from.
  - rewrite length_evaluations_schedule, Hs. apply evaluations_backoff.
  - intros ms. rewrite Hs. apply last_backoff_schedule.
  - change (waitWithBackoff driver this condition None None w)
      with (waitWithBackoff driver this condition (Some 5) (Some 1000) w).
    destruct (waitWithBackoff_never_true driver this condition 5 1000 w Hnever) as [_ Hs5].
    rewrite pauses_schedule, Hs5. reflexivity.
Qed.

Lemma waitWithBackoff_delays_witness :
  never_true never_ready /\
  schedule (trace_of (waitWithBackoff script_driver new_WaitUtils never_ready
                        (Some 3) (Some 500) 0%nat))
  = [Evaluate; Suspend 500; Evaluate; Suspend 1000; Evaluate].
Proof.
  assert (H : never_true never_ready) by (intros w; discriminate).
  split; [exact H|].
  exact (proj1 (waitWithBackoff_delays script_driver new_WaitUtils never_ready
                  3 500 0%nat H)).
Defined.

(** C4, as stated, fails: the error raised when the attempts run out does
    not describe the condition.  Polling the condition named [cartIsEmpty]
    with the default arguments ends with the fixed message below, in which
    the condition does not appear. *)
Lemma waitWithBackoff_error_omits_condition :
  let r := waitWithBackoff script_driver new_WaitUtils never_ready None None 0%nat in
  outcome_of r
  = Threw (new_Error "Condition not met after 5 attempts with exponential backoff") /\
  ~ (exists e, outcome_of r = Threw e /\
               includes (cond_name never_ready) (error_toString e) = true).
Proof.
  split; [reflexivity|].
  intros (e & He & Hin). vm_compute in He. injection He as <-.
  vm_compute in Hin. discriminate.
Qed.

(** C4, amended.  For a condition that never returns true, [waitWithBackoff]
    fails once the attempt counter has passed [maxAttempts], that is after
    [maxAttempts] evaluations (none when [maxAttempts <= 0]), with the error
    "Condition not met after <maxAttempts> attempts with exponential
    backoff": the message carries the attempt count and is the same for
    every condition. *)
Theorem waitWithBackoff_exhausted {W} (driver : Driver W) this condition
    maxAttempts baseDelay w :
  never_true condition ->
  let r := waitWithBackoff driver this condition (Some maxAttempts) (Some baseDelay) w in
  outcome_of r
  = Threw (new_Error ("Condition not met after " ++ number_toString maxAttempts
                        ++ " attempts with exponential backoff")%string) /\
  length (evaluations (trace_of r)) = Z.to_nat maxAttempts /\
  (forall e, outcome_of r = Threw e ->
             includes (number_toString maxAttempts) (err_message e) = true).
Proof.
  intros Hnever r.
  destruct (waitWithBackoff_never_true driver this condition maxAttempts baseDelay w Hnever)
    as [Ho Hs].
  fold r in Ho, Hs. split; [exact Ho|]. split.
  - rewrite length_evaluations_schedule, Hs. apply evaluations_backoff.
  - intros e He. rewrite Ho in He. injection He as <-.
    apply includes_append.
Qed.

Lemma waitWithBackoff_exhausted_witness :
  never_true never_ready /\
  outcome_of (waitWithBackoff script_driver new_WaitUtils never_ready
                (Some 2) (Some 250) 0%nat)
  = Threw (new_Error "Condition not met after 2 attempts with exponential backoff").
Proof.
  assert (H : never_true never_ready) by (intros w; discriminate).
  split; [exact H|].
  exact (proj1 (waitWithBackoff_exhausted script_driver new_WaitUtils never_ready
                  2 250 0%nat H)).
Defined.

(** An attempt within the budget evaluates the condition. *)
Lemma backoff_loop_evaluates {W} (driver : Driver W) this condition maxAttempts baseDelay
    attempt w :
  attempt <= maxAttempts ->
  exists r rest,
    evaluations (trace_of (backoff_loop driver this condition maxAttempts baseDelay
                             attempt w)) = r :: rest.
Proof.
  intros H. rewrite backoff_loop_step by assumption.
  destruct (cond_eval condition w) as [r w1].
  destruct (backoff_loop driver this condition maxAttempts baseDelay (attempt + 1) _)
    as [[o w2] t].
  destruct r as [[|]|e]; unfold trace_of; cbn [snd]; rewrite ?evaluations_app;
    eexists _, _; reflexivity.
Qed.

(** An evaluation that threw is logged with the number of its attempt and,
    unless that attempt was the last, is followed by the suspension of
    that attempt and by another evaluation. *)
Lemma backoff_loop_after_exception {W} (driver : Driver W) this condition
    maxAttempts baseDelay attempt :
  forall w k e,
    let t := trace_of (backoff_loop driver this condition maxAttempts baseDelay
                         attempt w) in
    nth_error (evaluations t) k = Some (Threw e) ->
    In (attempt_failed_msg (attempt + Z.of_nat k) e) (logged debug t) /\
    (attempt + Z.of_nat k < maxAttempts ->
     nth_error (pauses t) k = Some (baseDelay * 2 ^ (attempt + Z.of_nat k - 1)) /\
     exists r, nth_error (evaluations t) (S k) = Some r).
Proof.
  pattern attempt. apply (backoff_loop_ind maxAttempts); clear attempt.
  - intros attempt H w k e. cbn zeta. rewrite backoff_loop_exit by assumption.
    destruct k; discriminate.
  - intros attempt H IH w k e. cbn zeta. rewrite backoff_loop_step by assumption.
    destruct (cond_eval condition w) as [r w1].
    set (w1' := delay_world driver maxAttempts baseDelay attempt w1).
    specialize (IH w1'). cbn zeta in IH.
    pose proof (backoff_loop_evaluates driver this condition maxAttempts baseDelay
                  (attempt + 1) w1') as Hnext.
    destruct (backoff_loop driver this condition maxAttempts baseDelay (attempt + 1) w1')
      as [[o w2] t].
    unfold trace_of in IH, Hnext |- *. cbn [snd] in IH, Hnext |- *.
    assert (He : forall r0,
              evaluations (eval_events (wu_logger this) attempt r0
                ++ delay_events (wu_logger this) maxAttempts baseDelay attempt ++ t)
              = r0 :: evaluations t).
    { intros r0. rewrite !evaluations_app. unfold delay_events.
      destruct r0 as [b|e0]; destruct (attempt <? maxAttempts); reflexivity. }
    assert (Hp : forall r0,
              pauses (eval_events (wu_logger this) attempt r0
                ++ delay_events (wu_logger this) maxAttempts baseDelay attempt ++ t)
              = (if attempt <? maxAttempts then [baseDelay * 2 ^ (attempt - 1)] else [])
                ++ pauses t).
    { intros r0. rewrite !pauses_app. unfold delay_events.
      destruct r0 as [b|e0]; destruct (attempt <? maxAttempts); reflexivity. }
    assert (Hl : forall r0,
              logged debug (eval_events (wu_logger this) attempt r0
                ++ delay_events (wu_logger this) maxAttempts baseDelay attempt ++ t)
              = (match r0 with
                 | Threw e0 => [attempt_failed_msg attempt e0]
                 | Returned _ => []
                 end
                 ++ (if attempt <? maxAttempts
                     then [waiting_msg (baseDelay * 2 ^ (attempt - 1))] else []))
                ++ logged debug t).
    { intros r0. rewrite !logged_app. unfold delay_events.
      destruct r0 as [b|e0]; destruct (attempt <? maxAttempts); reflexivity. }
    assert (Hgo : forall r0, r0 <> Returned true ->
              nth_error (r0 :: evaluations t) k = Some (Threw e) ->
              In (attempt_failed_msg (attempt + Z.of_nat k) e)
                 ((match r0 with
                   | Threw e0 => [attempt_failed_msg attempt e0]
                   | Returned _ => []
                   end
                   ++ (if attempt <? maxAttempts
                       then [waiting_msg (baseDelay * 2 ^ (attempt - 1))] else []))
                  ++ logged debug t) /\
              (attempt + Z.of_nat k < maxAttempts ->
               nth_error ((if attempt <? maxAttempts
                           then [baseDelay * 2 ^ (attempt - 1)] else [])
                          ++ pauses t) k
               = Some (baseDelay * 2 ^ (attempt + Z.of_nat k - 1)) /\
               exists r, nth_error (r0 :: evaluations t) (S k) = Some r)).
    { intros r0 Hr0 Hk. destruct k as [|k].
      - cbn in Hk. injection Hk as ->. split.
        + replace (attempt + Z.of_nat 0) with attempt by lia.
          apply in_or_app. left. left. reflexivity.
        + intros Hlt. destruct (Z.ltb_spec attempt maxAttempts); [|lia].
          split; [cbn; do 3 f_equal; lia|].
          destruct (Hnext ltac:(lia)) as (r1 & rest & ->). exists r1. reflexivity.
      - cbn [nth_error] in Hk. destruct (IH k e Hk) as [Hin Hcont].
        replace (attempt + Z.of_nat (S k)) with (attempt + 1 + Z.of_nat k) by lia.
        split; [apply in_or_app; right; exact Hin|].
        intros Hlt. destruct (Z.ltb_spec attempt maxAttempts); [|lia].
        cbn [app nth_error]. exact (Hcont Hlt). }
    destruct r as [[|]|e0]; cbn [snd].
    + intros Hk. destruct k as [|[|k]]; discriminate Hk.
    + rewrite He, Hp, Hl. apply Hgo. discriminate.
    + rewrite He, Hp, Hl. apply Hgo. discriminate.
Qed.

(** C5.  An exception thrown by the condition is swallowed and counts as
    "not yet satisfied".  The only error [waitWithBackoff] ever raises is
    its own "attempts exhausted" error, and the run has the same outcome,
    leaves the same world and follows the same schedule of evaluations and
    suspensions as the run in which the condition answers [false] wherever
    it threw.  The attempt is counted and polling continues: the
    evaluations go on until the first that answers [true] or until
    [maxAttempts] of them have been made, whatever was thrown on the way;
    an evaluation that threw in attempt [k] is logged as
    "Attempt k failed: <error>" and, when [k < maxAttempts], is followed by
    the suspension of [baseDelay * 2^(k-1)] ms and by evaluation [k+1]. *)
Theorem waitWithBackoff_swallows_exceptions {W} (driver : Driver W) this condition
    maxAttempts baseDelay w :
  let r := waitWithBackoff driver this condition (Some maxAttempts) (Some baseDelay) w in
  let r' := waitWithBackoff driver this (swallowed condition)
              (Some maxAttempts) (Some baseDelay) w in
  let answers := evaluations (trace_of r) in
  (outcome_of r = Returned tt \/ outcome_of r = Threw (backoff_exhausted maxAttempts)) /\
  outcome_of r = outcome_of r' /\
  world_of r = world_of r' /\
  schedule (trace_of r) = schedule (trace_of r') /\
  (length answers <= Z.to_nat maxAttempts)%nat /\
  ((exists before,
       answers = before ++ [Returned true] /\
       Forall (fun o => o <> Returned true) before /\
       outcome_of r = Returned tt)
   \/ (Forall (fun o => o <> Returned true) answers /\
       length answers = Z.to_nat maxAttempts /\
       outcome_of r = Threw (backoff_exhausted maxAttempts))) /\
  (forall k e,
     nth_error answers k = Some (Threw e) ->
     In (attempt_failed_msg (Z.of_nat k + 1) e) (logged debug (trace_of r)) /\
     (Z.of_nat k + 1 < maxAttempts ->
      nth_error (pauses (trace_of r)) k = Some (baseDelay * 2 ^ Z.of_nat k) /\
      exists next, nth_error answers (S k) = Some next)).
Proof.
  cbn zeta. rewrite !waitWithBackoff_run.
  pose proof (backoff_loop_returns driver this condition maxAttempts baseDelay 1 w) as [v Hv].
  pose proof (backoff_loop_swallowed driver this condition maxAttempts baseDelay 1 w) as Hsw.
  pose proof (backoff_loop_bound driver this condition maxAttempts baseDelay 1 w) as Hb.
  pose proof (backoff_loop_stops_at_first_true driver this condition maxAttempts
                baseDelay 1 w) as Hstop.
  pose proof (backoff_loop_after_exception driver this condition maxAttempts
                baseDelay 1 w) as Hexc.
  cbn zeta in Hsw, Hstop, Hexc.
  destruct (backoff_loop driver this condition maxAttempts baseDelay 1 w) as [[o w1] t].
  destruct (backoff_loop driver this (swallowed condition) maxAttempts baseDelay 1 w)
    as [[o' w1'] t'].
  unfold outcome_of, world_of, trace_of in *. cbn [fst snd] in *.
  destruct Hsw as (Ho & Hw & Hs). subst o' o.
  change (evaluations (EvLog ?c ?l ?m :: ?x)) with (evaluations x).
  change (pauses (EvLog ?c ?l ?m :: ?x)) with (pauses x).
  split; [destruct v as [[]|]; auto|].
  split; [reflexivity|]. split; [exact Hw|]. split; [|split; [|split]].
  - change (schedule (EvLog ?c ?l ?m :: ?x)) with (schedule x). exact Hs.
  - lia.
  - destruct Hstop as [(before & Ha & Hf & Ho)|(Hf & Ho & Hl)].
    + left. exists before. injection Ho as ->. auto.
    + right. injection Ho as ->. repeat split; [exact Hf|].
      rewrite Hl. f_equal. lia.
  - intros k e Hk. destruct (Hexc k e Hk) as [Hin Hcont]. split.
    + change (EvLog ?c ?l ?m :: t) with ([EvLog c l m] ++ t).
      rewrite logged_app. apply in_or_app. right.
      replace (Z.of_nat k + 1) with (1 + Z.of_nat k) by lia. exact Hin.
    + intros Hlt. destruct (Hcont ltac:(lia)) as [Hp Hn].
      split; [|exact Hn]. rewrite Hp.
      replace (1 + Z.of_nat k - 1) with (Z.of_nat k) by lia. reflexivity.
Qed.

(** A condition that throws until its third evaluation: the two exceptions
    are logged with their attempt numbers, the two suspensions are made and
    the third evaluation ends the wait. *)
Example waitWithBackoff_polls_on_after_exceptions :
  let r := waitWithBackoff script_driver new_WaitUtils
             (scripted "isLoaded"
                (fun n => if (n <? 2)%nat
                          then Threw (new_Error "stale element reference")
                          else Returned true))
             (Some 5) (Some 1000) 0%nat in
  outcome_of r = Returned tt /\
  evaluations (trace_of r)
  = [Threw (new_Error "stale element reference");
     Threw (new_Error "stale element reference"); Returned true] /\
  pauses (trace_of r) = [1000; 2000] /\
  logged debug (trace_of r)
  = ["Waiting with exponential backoff, max attempts: 5";
     "Attempt 1 failed: Error: stale element reference";
     "Waiting 1000ms before next attempt";
     "Attempt 2 failed: Error: stale element reference";
     "Waiting 2000ms before next attempt"]%string.
Proof. cbn zeta. repeat split; vm_compute; reflexivity. Qed.

(** C7.  A condition that first returns true on its [k]-th evaluation, with
    [k <= maxAttempts], makes [waitWithBackoff] return normally after
    exactly [k] evaluations. *)
Theorem waitWithBackoff_first_true this name script (k : nat) maxAttempts baseDelay :
  (1 <= k)%nat -> Z.of_nat k <= maxAttempts ->
  script (k - 1)%nat = Returned true ->
  (forall j, (j < k - 1)%nat -> script j <> Returned true) ->
  let r := waitWithBackoff script_driver this (scripted name script)
             (Some maxAttempts) (Some baseDelay) 0%nat in
  outcome_of r = Returned tt /\
  length (evaluations (trace_of r)) = k /\
  world_of r = k.
Proof.
  intros Hk Hmax Htrue Hbefore. cbn zeta. rewrite waitWithBackoff_run.
  pose proof (backoff_loop_scripted this name script maxAttempts baseDelay
                (k - 1) 1 0%nat ltac:(lia) Htrue Hbefore) as Hloop.
  cbn zeta in Hloop.
  destruct (backoff_loop script_driver this (scripted name script) maxAttempts baseDelay
              1 0%nat) as [[o w1] t].
  unfold outcome_of, world_of, trace_of in *. cbn [fst snd] in *.
  destruct Hloop as (Ho & Hw & He). subst o.
  split; [reflexivity|]. split.
  - change (evaluations (EvLog ?c ?l ?m :: ?x)) with (evaluations x). lia.
  - lia.
Qed.

Lemma waitWithBackoff_first_true_witness :
  ((1 <= 3)%nat /\ 3 <= 5 /\ third_time_script 2%nat = Returned true /\
   (forall j, (j < 3 - 1)%nat -> third_time_script j <> Returned true)) /\
  length (evaluations (trace_of (waitWithBackoff script_driver new_WaitUtils third_time
                                   (Some 5) (Some 1000) 0%nat))) = 3%nat.
Proof.
  assert (Hbefore : forall j, (j < 3 - 1)%nat -> third_time_script j <> Returned true).
  { intros [|[|j]] Hj; cbn; [discriminate|discriminate|lia]. }
  split; [repeat split; [lia|lia|exact Hbefore]|].
  exact (proj1 (proj2 (waitWithBackoff_first_true new_WaitUtils "isLoaded"
                         third_time_script 3 5 1000
                         ltac:(lia) ltac:(lia) eq_refl Hbefore))).
Defined.

(** C8.  Polling a condition that already holds returns at once, with one
    evaluation and no suspension, and does so again when called a second
    time in the world the first call left; nothing of a call survives it:
    a later call that keeps failing has the whole budget of [maxAttempts]
    attempts, with delays starting again from [baseDelay]. *)
Theorem waitWithBackoff_idempotent {W} (driver : Driver W) this condition
    maxAttempts baseDelay w :
  1 <= maxAttempts -> always_true condition ->
  let poll := waitWithBackoff driver this condition (Some maxAttempts) (Some baseDelay) in
  let r1 := poll w in
  let r2 := poll (world_of r1) in
  outcome_of r1 = Returned tt /\ outcome_of r2 = Returned tt /\
  schedule (trace_of r1) = [Evaluate] /\ schedule (trace_of r2) = [Evaluate] /\
  pauses (trace_of r1 ++ trace_of r2) = [] /\
  bind poll (fun _ => poll) w = (Returned tt, world_of r2, trace_of r1 ++ trace_of r2) /\
  (forall other, never_true other ->
     schedule (trace_of (waitWithBackoff driver this other
                           (Some maxAttempts) (Some baseDelay) (world_of r1)))
     = backoff_schedule baseDelay maxAttempts).
Proof.
  intros Hmax Htrue.
  assert (Hrun : forall w0,
            waitWithBackoff driver this condition (Some maxAttempts) (Some baseDelay) w0
            = (Returned tt, snd (cond_eval condition w0),
               [EvLog (component (wu_logger this)) debug
                  ("Waiting with exponential backoff, max attempts: "
                     ++ number_toString maxAttempts)%string;
                EvCondition (Returned true)])).
  { intros w0. rewrite waitWithBackoff_run, backoff_loop_step by lia.
    pose proof (Htrue w0) as H0. destruct (cond_eval condition w0) as [r w1].
    cbn [fst] in H0. subst r. reflexivity. }
  cbn zeta. unfold bind. rewrite !Hrun.
  unfold outcome_of, world_of, trace_of. cbn [fst snd]. rewrite ?Hrun.
  repeat (split; [reflexivity|]).
  intros other Hother.
  apply (waitWithBackoff_never_true driver this other maxAttempts baseDelay _ Hother).
Qed.

Lemma waitWithBackoff_idempotent_witness :
  (1 <= 5 /\ always_true ready) /\
  bind (waitWithBackoff script_driver new_WaitUtils ready (Some 5) (Some 1000))
       (fun _ => waitWithBackoff script_driver new_WaitUtils ready (Some 5) (Some 1000))
       0%nat
  = (Returned tt, 2%nat,
     [EvLog "WaitUtils" debug "Waiting with exponential backoff, max attempts: 5";
      EvCondition (Returned true);
      EvLog "WaitUtils" debug "Waiting with exponential backoff, max attempts: 5";
      EvCondition (Returned true)]).
Proof.
  assert (H : always_true ready) by (intros w; reflexivity).
  split; [split; [lia|exact H]|].
  exact (proj1 (proj2 (proj2 (proj2 (proj2 (proj2
           (waitWithBackoff_idempotent script_driver new_WaitUtils ready 5 1000 0%nat
              ltac:(lia) H))))))).
Defined.

(** C9.  With [retries <= 0] the loop of [safeClick] is not entered: the
    call returns normally, the world is left as it was and no call is made
    (no resolution, no click, no log entry, no pause). *)
Theorem safeClick_without_retries {W} (driver : Driver W) this selector retries w :
  retries <= 0 ->
  safeClick driver this selector (Some retries) w = (Returned tt, w, []).
Proof.
  intros H. rewrite safeClick_run, safeClick_loop_exit by assumption. reflexivity.
Qed.

Lemma safeClick_without_retries_witness :
  0 <= 0 /\
  safeClick (flaky_driver ["element click intercepted"%string]) loginPage "#remember-me"
    (Some 0) 0%nat
  = (Returned tt, 0%nat, []).
Proof.
  split; [lia|].
  apply (safeClick_without_retries (flaky_driver ["element click intercepted"%string])
           loginPage "#remember-me" 0 0%nat).
  lia.
Defined.

(** C10.  [waitForElementToDisappear] never throws: whatever the driver
    answers when the element is resolved and awaited, a time-out of the
    wait included, the call returns normally; an exception of the driver is
    followed by the debug entry "Element <selector> not found or already
    disappeared", and nothing is logged at another level. *)
Theorem waitForElementToDisappear_never_throws {W} (driver : Driver W) this
    selector timeout w :
  let r := waitForElementToDisappear driver this selector timeout w in
  outcome_of r = Returned tt /\
  logged debug (trace_of r)
  = ("Waiting for element to disappear: " ++ selector)%string
    :: (if existsb rejected (trace_of r)
        then [("Element " ++ selector ++ " not found or already disappeared")%string]
        else []) /\
  (forall lvl, lvl <> debug -> logged lvl (trace_of r) = []).
Proof.
  cbv [waitForElementToDisappear bind try_catch call resolve Logger_debug Logger_log
       outcome_of trace_of].
  destruct (drv_resolve driver selector w) as [[el|e] w1]; cbn [fst snd app].
  - destruct (drv_waitForDisplayed driver el (param timeout 10000) true w1)
      as [[[]|e] w2]; cbn [fst snd app].
    + repeat split; intros [] Hl; try reflexivity; contradiction.
    + repeat split; intros [] Hl; try reflexivity; contradiction.
  - repeat split; intros [] Hl; try reflexivity; contradiction.
Qed.

(** The wait times out: the element stays displayed. *)
Example waitForElementToDisappear_timeout :
  waitForElementToDisappear lingering_driver new_WaitUtils ".spinner" (Some 2000) 0%nat
  = (Returned tt, 0%nat,
     [EvLog "WaitUtils" debug "Waiting for element to disappear: .spinner";
      EvResolve ".spinner" (Returned 0%nat);
      EvWaitForDisplayed 0%nat 2000 true
        (Threw (new_Error "element still displayed after 2000ms"));
      EvLog "WaitUtils" debug "Element .spinner not found or already disappeared"]).
Proof. reflexivity. Qed.

(** Three attempts at [safeClick], each made in the world its predecessor
    left after the pause of 1000 ms. *)
Lemma safeClick_three_attempts {W} (driver : Driver W) this selector w0 e1 e2 :
  let a1 := safeClick_try driver this selector w0 in
  let a2 := safeClick_try driver this selector (drv_pause driver 1000 (world_of a1)) in
  let a3 := safeClick_try driver this selector (drv_pause driver 1000 (world_of a2)) in
  outcome_of a1 = Threw e1 ->
  outcome_of a2 = Threw e2 ->
  safeClick driver this selector (Some 3) w0 =
  (match outcome_of a3 with
   | Returned _ => Returned tt
   | Threw e3 => Threw e3
   end,
   world_of a3,
   trace_of a1
     ++ [EvLog (component (bp_logger this)) warn (click_failed_msg selector 1 e1);
         EvPause 1000]
     ++ trace_of a2
     ++ [EvLog (component (bp_logger this)) warn (click_failed_msg selector 2 e2);
         EvPause 1000]
     ++ trace_of a3
     ++ match outcome_of a3 with
        | Returned _ => []
        | Threw e3 =>
            [EvLog (component (bp_logger this)) warn (click_failed_msg selector 3 e3)]
        end).
Proof.
  intros a1 a2 a3 H1 H2. subst a3 a2 a1.
  rewrite safeClick_run, (safeClick_loop_step driver this selector 3 0) by lia.
  destruct (safeClick_try driver this selector w0) as [[o1 w1] t1].
  unfold outcome_of, world_of, trace_of in *. cbn [fst snd] in *. subst o1.
  change (0 =? 3 - 1) with false. cbn iota.
  rewrite (safeClick_loop_step driver this selector 3 (0 + 1)) by lia.
  destruct (safeClick_try driver this selector (drv_pause driver 1000 w1))
    as [[o2 w2] t2].
  cbn [fst snd] in *. subst o2.
  change (0 + 1 =? 3 - 1) with false. cbn iota.
  rewrite (safeClick_loop_step driver this selector 3 (0 + 1 + 1)) by lia.
  pose proof (safeClick_try_attempt driver this selector (drv_pause driver 1000 w2))
    as H3. cbn zeta in H3.
  destruct (safeClick_try driver this selector (drv_pause driver 1000 w2))
    as [[o3 w3] t3].
  unfold outcome_of in H3. cbn [fst snd] in *.
  destruct H3 as [[-> _]|(e3 & -> & _)].
  - rewrite app_nil_r. reflexivity.
  - change (0 + 1 + 1 =? 3 - 1) with true. cbn iota. reflexivity.
Qed.

(** C3.  With [retries = 3], when the click attempt fails the first and the
    second time and succeeds the third time, [safeClick] returns normally
    and has logged exactly two warn entries, for attempts 1 and 2, and
    exactly one info entry, for the successful click. *)
Theorem safeClick_succeeds_on_third_attempt {W} (driver : Driver W) this selector
    w0 e1 e2 :
  let a1 := safeClick_try driver this selector w0 in
  let a2 := safeClick_try driver this selector (drv_pause driver 1000 (world_of a1)) in
  let a3 := safeClick_try driver this selector (drv_pause driver 1000 (world_of a2)) in
  outcome_of a1 = Threw e1 ->
  outcome_of a2 = Threw e2 ->
  outcome_of a3 = Returned (Some tt) ->
  let r := safeClick driver this selector (Some 3) w0 in
  outcome_of r = Returned tt /\
  world_of r = world_of a3 /\
  logged warn (trace_of r)
  = [click_failed_msg selector 1 e1; click_failed_msg selector 2 e2] /\
  logged info (trace_of r) = [clicked_msg selector] /\
  length (logged warn (trace_of r)) = 2%nat /\
  length (logged info (trace_of r)) = 1%nat /\
  logged error (trace_of r) = [].
Proof.
  intros a1 a2 a3 H1 H2 H3 r.
  pose proof (safeClick_three_attempts driver this selector w0 e1 e2 H1 H2) as Hrun.
  fold a1 a2 a3 r in Hrun. rewrite H3 in Hrun.
  destruct (click_attempt_failed _ _ _ _ (safeClick_try_failed _ _ _ _ _ H1))
    as (L1 & _ & _).
  destruct (click_attempt_failed _ _ _ _ (safeClick_try_failed _ _ _ _ _ H2))
    as (L2 & _ & _).
  destruct (click_attempt_done _ _ _ (safeClick_try_done _ _ _ _ _ H3))
    as (L3 & L3' & _ & _).
  fold a1 in L1. fold a2 in L2. fold a3 in L3, L3'.
  assert (Hlog : forall lvl,
            logged lvl (trace_of r)
            = logged lvl [EvLog (component (bp_logger this)) warn
                            (click_failed_msg selector 1 e1)]
              ++ logged lvl [EvLog (component (bp_logger this)) warn
                               (click_failed_msg selector 2 e2)]
              ++ logged lvl (trace_of a3)).
  { intros lvl. rewrite Hrun. unfold trace_of at 1. cbn [snd].
    rewrite !logged_app, L1, L2, app_nil_r. reflexivity. }
  rewrite Hrun at 1 2. unfold outcome_of at 1, world_of at 1. cbn [fst snd].
  rewrite !Hlog, L3, (L3' warn), (L3' error) by discriminate.
  repeat split.
Qed.

Lemma safeClick_succeeds_on_third_attempt_witness :
  let driver := flaky_driver ["element click intercepted"; "element not interactable"]%string in
  let a1 := safeClick_try driver loginPage "#login" 0%nat in
  let a2 := safeClick_try driver loginPage "#login" (drv_pause driver 1000 (world_of a1)) in
  let a3 := safeClick_try driver loginPage "#login" (drv_pause driver 1000 (world_of a2)) in
  let r := safeClick driver loginPage "#login" (Some 3) 0%nat in
  (outcome_of a1 = Threw (new_Error "element click intercepted") /\
   outcome_of a2 = Threw (new_Error "element not interactable") /\
   outcome_of a3 = Returned (Some tt)) /\
  outcome_of r = Returned tt /\
  logged warn (trace_of r)
  = ["Click attempt 1 failed for #login: Error: element click intercepted";
     "Click attempt 2 failed for #login: Error: element not interactable"]%string /\
  logged info (trace_of r) = ["Successfully clicked element: #login"%string].
Proof.
  pose proof (safeClick_succeeds_on_third_attempt
                (flaky_driver ["element click intercepted"; "element not interactable"]%string)
                loginPage "#login" 0%nat
                (new_Error "element click intercepted")
                (new_Error "element not interactable")
                eq_refl eq_refl eq_refl) as H.
  cbn zeta in H |- *.
  destruct H as (Ho & _ & Hwarn & Hinfo & _).
  split; [repeat split|].
  exact (conj Ho (conj Hwarn Hinfo)).
Defined.

(** C2, as stated, fails: what [safeClick] raises when the three attempts
    fail is the error of the third attempt as the driver threw it.  It is
    not an [InteractionFailed] error and it does not carry the attempt
    count. *)
Lemma safeClick_raises_the_bare_error :
  let driver := flaky_driver ["element not interactable"; "element click intercepted";
                              "stale element reference"]%string in
  let r := safeClick driver loginPage "#login" (Some 3) 0%nat in
  outcome_of r = Threw (new_Error "stale element reference") /\
  ~ (exists e, outcome_of r = Threw e /\
               (err_name e = "InteractionFailed"%string \/
                includes "3" (error_toString e) = true)).
Proof.
  cbn zeta. split; [reflexivity|].
  intros (e & He & Hclaim). vm_compute in He. injection He as <-.
  destruct Hclaim as [Hname|Hcount]; vm_compute in Hname || vm_compute in Hcount;
    discriminate.
Qed.

(** C2, amended.  With [retries = 3], when every click attempt fails,
    [safeClick] raises the error of the third attempt itself, unchanged.
    Each of the three failures, the last one included, is logged at warn
    with its attempt number; the first two are followed by a pause of
    1000 ms and are not raised; nothing is logged at error. *)
Theorem safeClick_exhausted {W} (driver : Driver W) this selector w0 e1 e2 e3 :
  let a1 := safeClick_try driver this selector w0 in
  let a2 := safeClick_try driver this selector (drv_pause driver 1000 (world_of a1)) in
  let a3 := safeClick_try driver this selector (drv_pause driver 1000 (world_of a2)) in
  outcome_of a1 = Threw e1 ->
  outcome_of a2 = Threw e2 ->
  outcome_of a3 = Threw e3 ->
  let r := safeClick driver this selector (Some 3) w0 in
  outcome_of r = Threw e3 /\
  world_of r = world_of a3 /\
  logged warn (trace_of r)
  = [click_failed_msg selector 1 e1; click_failed_msg selector 2 e2;
     click_failed_msg selector 3 e3] /\
  logged error (trace_of r) = [] /\
  logged info (trace_of r) = [] /\
  pauses (trace_of r) = [1000; 1000].
Proof.
  intros a1 a2 a3 H1 H2 H3 r.
  pose proof (safeClick_three_attempts driver this selector w0 e1 e2 H1 H2) as Hrun.
  fold a1 a2 a3 r in Hrun. rewrite H3 in Hrun.
  destruct (click_attempt_failed _ _ _ _ (safeClick_try_failed _ _ _ _ _ H1))
    as (L1 & P1 & _).
  destruct (click_attempt_failed _ _ _ _ (safeClick_try_failed _ _ _ _ _ H2))
    as (L2 & P2 & _).
  destruct (click_attempt_failed _ _ _ _ (safeClick_try_failed _ _ _ _ _ H3))
    as (L3 & P3 & _).
  fold a1 in L1, P1. fold a2 in L2, P2. fold a3 in L3, P3.
  rewrite Hrun. unfold outcome_of, world_of, trace_of in *. cbn [fst snd].
  rewrite !logged_app, !pauses_app, !L1, !L2, !L3, P1, P2, P3.
  repeat split.
Qed.

Lemma safeClick_exhausted_witness :
  let driver := flaky_driver ["element not interactable"; "element click intercepted";
                              "stale element reference"]%string in
  let a1 := safeClick_try driver loginPage "#login" 0%nat in
  let a2 := safeClick_try driver loginPage "#login" (drv_pause driver 1000 (world_of a1)) in
  let a3 := safeClick_try driver loginPage "#login" (drv_pause driver 1000 (world_of a2)) in
  let r := safeClick driver loginPage "#login" (Some 3) 0%nat in
  (outcome_of a1 = Threw (new_Error "element not interactable") /\
   outcome_of a2 = Threw (new_Error "element click intercepted") /\
   outcome_of a3 = Threw (new_Error "stale element reference")) /\
  outcome_of r = Threw (new_Error "stale element reference") /\
  logged warn (trace_of r)
  = ["Click attempt 1 failed for #login: Error: element not interactable";
     "Click attempt 2 failed for #login: Error: element click intercepted";
     "Click attempt 3 failed for #login: Error: stale element reference"]%string.
Proof.
  pose proof (safeClick_exhausted
                (flaky_driver ["element not interactable"; "element click intercepted";
                               "stale element reference"]%string)
                loginPage "#login" 0%nat
                (new_Error "element not interactable")
                (new_Error "element click intercepted")
                (new_Error "stale element reference")
                eq_refl eq_refl eq_refl) as H.
  cbn zeta in H |- *.
  destruct H as (Ho & _ & Hwarn & _).
  split; [repeat split|].
  exact (conj Ho Hwarn).
Defined.

(** C6, as stated, fails for [safeType]: it does not retry.  When its first
    [setValue] is rejected, [safeType] raises that error at once, having
    resolved the locator once and paused never, although a second attempt
    would have succeeded; [safeClick] on the same driver retries and
    succeeds. *)
Lemma safeType_does_not_retry :
  let driver := flaky_driver ["stale element reference"%string] in
  let r := safeType driver loginPage "#email" "user@example.com" 0%nat in
  outcome_of r = Threw (new_Error "stale element reference") /\
  resolutions (trace_of r) = ["#email"%string] /\
  pauses (trace_of r) = [] /\
  outcome_of (safeType driver loginPage "#email" "user@example.com" (world_of r))
  = Returned tt /\
  outcome_of (safeClick driver loginPage "#email" None 0%nat) = Returned tt.
Proof. cbn zeta. repeat split. Qed.

(** C6, amended.  [safeClick] is a retry decorator: its calls are a
    sequence of at most [retries] attempts, each of which resolves the
    locator anew, waits at most 10000 ms for the element just resolved to
    be clickable and clicks that element; a failed attempt is logged at
    warn and, unless it is attempt number [retries], followed by a pause of
    1000 ms and the next attempt; the error of attempt number [retries] is
    raised.  [safeType] makes a single attempt: it resolves the locator
    once, waits at most 10000 ms for the element to be displayed, clears
    it and sets its value; the first error is raised at once, with no
    retry, pause or warn entry. *)
Theorem safe_interactions {W} (driver : Driver W) this selector text retries w :
  let lg := component (bp_logger this) in
  let c := safeClick driver this selector (Some retries) w in
  let t := safeType driver this selector text w in
  click_retries lg selector retries 0 (trace_of c) (outcome_of c) /\
  (length (resolutions (trace_of c)) <= Z.to_nat retries)%nat /\
  Forall (eq selector) (resolutions (trace_of c)) /\
  pauses (trace_of c) = repeat 1000 (pred (length (resolutions (trace_of c)))) /\
  type_attempt lg selector text (trace_of t) (outcome_of t) /\
  resolutions (trace_of t) = [selector] /\
  pauses (trace_of t) = [] /\
  logged warn (trace_of t) = [].
Proof.
  cbn zeta.
  assert (Hc : click_retries (component (bp_logger this)) selector retries 0
                 (trace_of (safeClick driver this selector (Some retries) w))
                 (outcome_of (safeClick driver this selector (Some retries) w))).
  { rewrite safeClick_run.
    pose proof (safeClick_loop_retries driver this selector retries 0 w) as H.
    cbn zeta in H.
    destruct (safeClick_loop driver this selector retries 0 w) as [[o w1] t1].
    exact H. }
  split; [exact Hc|].
  destruct (click_retries_counts _ _ _ _ _ _ Hc) as (Hn & _ & Hsel & Hp & _).
  rewrite Z.sub_0_r in Hn.
  split; [exact Hn|]. split; [exact Hsel|]. split; [exact Hp|].
  cbv [safeType waitForVisible param bind call ret resolve Logger_info Logger_log
       outcome_of trace_of].
  destruct (drv_resolve driver selector w) as [[el|e] w1]; cbn [fst snd app].
  2: { repeat split. constructor. }
  destruct (drv_waitForDisplayed driver el 10000 false w1) as [[[]|e] w2];
    cbn [fst snd app].
  2: { repeat split. constructor. }
  destruct (drv_clearValue driver el w2) as [[[]|e] w3]; cbn [fst snd app].
  2: { repeat split. constructor. }
  destruct (drv_setValue driver el text w3) as [[[]|e] w4]; cbn [fst snd app].
  2: { repeat split. constructor. }
  repeat split. constructor.
Qed.

(** * Further properties *)

(** Splits a conjunction of equations and implications between outcomes
    and closes what follows by congruence. *)
Ltac settle :=
  repeat split; intros;
  repeat match goal with H : _ /\ _ |- _ => destruct H end;
  try congruence; auto.

(** ** Sequencing *)

Lemma bind_returned {W A B} (m : M W A) (k : A -> M W B) w a :
  outcome_of (m w) = Returned a ->
  bind m k w =
  (outcome_of (k a (world_of (m w))), world_of (k a (world_of (m w))),
   trace_of (m w) ++ trace_of (k a (world_of (m w)))).
Proof.
  unfold bind, outcome_of, world_of, trace_of.
  destruct (m w) as [[o w1] t1]. cbn [fst snd]. intros ->.
  destruct (k a w1) as [[o2 w2] t2]. reflexivity.
Qed.

Lemma bind_threw {W A B} (m : M W A) (k : A -> M W B) w e :
  outcome_of (m w) = Threw e ->
  bind m k w = (Threw e, world_of (m w), trace_of (m w)).
Proof.
  unfold bind, outcome_of, world_of, trace_of.
  destruct (m w) as [[o w1] t1]. cbn [fst snd]. intros ->. reflexivity.
Qed.

(** A property of the selectors resolved by [m] and by whatever follows it
    holds of the selectors resolved by the two in sequence. *)
Lemma bind_resolutions {W A B} (P : string -> Prop) (m : M W A) (k : A -> M W B) w :
  Forall P (resolutions (trace_of (m w))) ->
  (forall a w1, Forall P (resolutions (trace_of (k a w1)))) ->
  Forall P (resolutions (trace_of (bind m k w))).
Proof.
  intros Hm Hk. unfold bind, trace_of in *.
  destruct (m w) as [[[a|e] w1] t1]; cbn [snd] in *; [|exact Hm].
  specialize (Hk a w1). destruct (k a w1) as [[o2 w2] t2]. cbn [snd] in *.
  rewrite resolutions_app. apply Forall_app. split; assumption.
Qed.

(** ** Presence and visibility checks *)

Section PageFacts.

Context {W : Type}.
Variable driver : Driver W.
Variable browser : Browser W.
Variable this : BasePage.

Lemma isElementVisible_run selector w :
  isElementVisible driver browser this selector w =
  match drv_resolve driver selector w with
  | (Returned el, w1) =>
      (match fst (br_isDisplayed browser el w1) with
       | Returned b => Returned b
       | Threw _ => Returned false
       end, snd (br_isDisplayed browser el w1), [EvResolve selector (Returned el)])
  | (Threw e, w1) => (Returned false, w1, [EvResolve selector (Threw e)])
  end.
Proof.
  cbv [isElementVisible try_catch bind resolve call extern ret].
  destruct (drv_resolve driver selector w) as [[el|e] w1]; [|reflexivity].
  destruct (br_isDisplayed browser el w1) as [[b|e] w2]; reflexivity.
Qed.

Lemma isElementVisible_returns selector w :
  exists b, outcome_of (isElementVisible driver browser this selector w) = Returned b.
Proof.
  rewrite isElementVisible_run.
  destruct (drv_resolve driver selector w) as [[el|e] w1]; [|eexists; reflexivity].
  unfold outcome_of. cbn [fst].
  destruct (fst (br_isDisplayed browser el w1)); eexists; reflexivity.
Qed.

Lemma isElementVisible_resolutions selector w :
  resolutions (trace_of (isElementVisible driver browser this selector w)) = [selector].
Proof.
  rewrite isElementVisible_run.
  destruct (drv_resolve driver selector w) as [[el|e] w1]; reflexivity.
Qed.

Lemma isElementVisible_logged selector lvl w :
  logged lvl (trace_of (isElementVisible driver browser this selector w)) = [].
Proof.
  rewrite isElementVisible_run.
  destruct (drv_resolve driver selector w) as [[el|e] w1]; reflexivity.
Qed.

End PageFacts.

(** X1.  [isElementVisible] and [isElementPresent] never throw: they answer
    [true] exactly when the driver resolved the locator and reported the
    element displayed (when [$$] returned at least one element), and
    [false] in every other case, an exception of the driver included. *)
Theorem element_checks_never_throw {W} (driver : Driver W) (browser : Browser W)
    this selector w :
  let v := isElementVisible driver browser this selector w in
  let p := isElementPresent browser this selector w in
  (outcome_of v = Returned true \/ outcome_of v = Returned false) /\
  (outcome_of p = Returned true \/ outcome_of p = Returned false) /\
  (outcome_of v = Returned true <->
   exists el w1, drv_resolve driver selector w = (Returned el, w1) /\
                 fst (br_isDisplayed browser el w1) = Returned true) /\
  (outcome_of p = Returned true <->
   exists el rest, fst (br_resolveAll browser selector w) = Returned (el :: rest)).
Proof.
  cbn zeta. rewrite isElementVisible_run.
  cbv [isElementPresent try_catch bind extern ret outcome_of].
  destruct (drv_resolve driver selector w) as [[el|e] w1];
    destruct (br_resolveAll browser selector w) as [[[|el' rest]|e'] w2];
    cbn [fst snd];
    try destruct (fst (br_isDisplayed browser el w1)) as [[|]|e2] eqn:Hd;
    repeat split; auto;
    try (intros H; discriminate H);
    try (intros (x & y & H); discriminate H);
    try (intros (x & y & H & H'); congruence);
    try (intros _; eauto).
Qed.

(** X2.  [getErrorMessage] returns the empty string as soon as the message
    element is not reported visible (a driver exception during the check
    included): the check is its only call, and the 10000 ms wait of
    [getTextContent] is not entered.  It can throw only after the element
    was reported visible. *)
Theorem getErrorMessage_hidden {W} (driver : Driver W) (browser : Browser W) this w :
  let v := isElementVisible driver browser this LoginSelectors.errorMessage w in
  let r := getErrorMessage driver browser this w in
  (outcome_of v = Returned false ->
   r = (Returned ""%string, world_of v, trace_of v) /\
   exists answer, trace_of r = [EvResolve LoginSelectors.errorMessage answer]) /\
  (forall e, outcome_of r = Threw e -> outcome_of v = Returned true).
Proof.
  cbn zeta. split.
  - intros Hv. unfold getErrorMessage.
    rewrite (bind_returned _ _ _ _ Hv).
    unfold ret, outcome_of, world_of, trace_of. cbn [fst snd]. rewrite app_nil_r.
    split; [reflexivity|].
    rewrite isElementVisible_run.
    destruct (drv_resolve driver LoginSelectors.errorMessage w) as [[el|e] w1];
      eexists; reflexivity.
  - intros e He.
    destruct (isElementVisible_returns driver browser this
                LoginSelectors.errorMessage w) as [[|] Hv]; [exact Hv|].
    unfold getErrorMessage in He. rewrite (bind_returned _ _ _ _ Hv) in He.
    discriminate He.
Qed.

(** X3.  [isLoginFormDisplayed] never throws; it answers [true] exactly when
    the e-mail input, the password input and the login button are reported
    visible one after the other, and it stops at the first that is not:
    the later elements are then not even resolved. *)
Theorem isLoginFormDisplayed_conjunction {W} (driver : Driver W) (browser : Browser W)
    this w :
  let v1 := isElementVisible driver browser this LoginSelectors.emailInput w in
  let v2 := isElementVisible driver browser this LoginSelectors.passwordInput
              (world_of v1) in
  let v3 := isElementVisible driver browser this LoginSelectors.loginButton
              (world_of v2) in
  let r := isLoginFormDisplayed driver browser this w in
  (outcome_of r = Returned true \/ outcome_of r = Returned false) /\
  (outcome_of r = Returned true <->
   outcome_of v1 = Returned true /\ outcome_of v2 = Returned true /\
   outcome_of v3 = Returned true) /\
  (outcome_of v1 = Returned false ->
   resolutions (trace_of r) = [LoginSelectors.emailInput]) /\
  (outcome_of v1 = Returned true -> outcome_of v2 = Returned false ->
   resolutions (trace_of r) = [LoginSelectors.emailInput; LoginSelectors.passwordInput]).
Proof.
  cbn zeta. unfold isLoginFormDisplayed, bind, ret.
  pose proof (isElementVisible_resolutions driver browser this
                LoginSelectors.emailInput w) as R1.
  destruct (isElementVisible_returns driver browser this LoginSelectors.emailInput w)
    as [b1 H1].
  destruct (isElementVisible driver browser this LoginSelectors.emailInput w)
    as [[o1 w1] t1].
  unfold outcome_of, world_of, trace_of in *. cbn [fst snd] in *. subst o1.
  cbv beta iota zeta.
  pose proof (isElementVisible_resolutions driver browser this
                LoginSelectors.passwordInput w1) as R2.
  destruct (isElementVisible_returns driver browser this LoginSelectors.passwordInput w1)
    as [b2 H2].
  destruct b1.
  2: { cbn [fst snd]. rewrite app_nil_r, R1. settle. }
  destruct (isElementVisible driver browser this LoginSelectors.passwordInput w1)
    as [[o2 w2] t2].
  unfold outcome_of, world_of, trace_of in *. cbn [fst snd] in *. subst o2.
  cbv beta iota zeta.
  destruct (isElementVisible_returns driver browser this LoginSelectors.loginButton w2)
    as [b3 H3].
  destruct b2.
  2: { cbn [fst snd]. rewrite app_nil_r, resolutions_app, R1, R2. settle. }
  destruct (isElementVisible driver browser this LoginSelectors.loginButton w2)
    as [[o3 w3] t3].
  unfold outcome_of in *. cbn [fst snd] in *. subst o3.
  destruct b3; settle.
Qed.

Lemma log_entries_app t1 t2 : log_entries (t1 ++ t2) = log_entries t1 ++ log_entries t2.
Proof. apply flat_map_app. Qed.

Lemma isElementVisible_log_entries {W} (driver : Driver W) browser this selector w :
  log_entries (trace_of (isElementVisible driver browser this selector w)) = [].
Proof.
  rewrite isElementVisible_run.
  destruct (drv_resolve driver selector w) as [[el|e] w1]; reflexivity.
Qed.

(** The loop of [validateProductPageElements] over any list of selectors. *)
Lemma validate_loop_runs {W} (driver : Driver W) browser this elements :
  forall w,
    let r := validate_loop driver browser this elements w in
    (outcome_of r = Returned None /\ log_entries (trace_of r) = [] /\
     resolutions (trace_of r) = elements)
    \/ (exists before selector after,
          elements = before ++ selector :: after /\
          outcome_of r = Returned (Some false) /\
          log_entries (trace_of r)
          = [(error, ("Required element not visible: " ++ selector)%string)] /\
          resolutions (trace_of r) = before ++ [selector]).
Proof.
  induction elements as [|selector rest IH]; intros w; cbn zeta.
  - left. repeat split.
  - cbn [validate_loop]. unfold bind.
    pose proof (isElementVisible_resolutions driver browser this selector w) as R.
    pose proof (isElementVisible_log_entries driver browser this selector w) as L.
    destruct (isElementVisible_returns driver browser this selector w) as [b Hb].
    destruct (isElementVisible driver browser this selector w) as [[o w1] t1].
    unfold outcome_of, trace_of in R, L, Hb. cbn [fst snd] in R, L, Hb. subst o.
    destruct b; cbn [negb]; cbv beta iota zeta.
    + specialize (IH w1). cbn zeta in IH.
      destruct (validate_loop driver browser this rest w1) as [[o2 w2] t2].
      unfold outcome_of, trace_of in IH |- *. cbn [fst snd] in IH |- *.
      rewrite log_entries_app, resolutions_app, L, R.
      destruct IH as [(Ho & Hl & Hr)|(before & sel & after & He & Ho & Hl & Hr)].
      * left. rewrite Ho, Hl, Hr. repeat split.
      * right. exists (selector :: before), sel, after.
        rewrite Ho, Hl, Hr, He. repeat split.
    + right. exists [], selector, rest.
      unfold Logger_error, Logger_log, ret, outcome_of, trace_of. cbn [fst snd app].
      rewrite log_entries_app, resolutions_app, L, R. repeat split.
Qed.

(** One turn of the loop of [validateProductPageElements]. *)
Lemma validate_loop_step {W} (driver : Driver W) browser this selector rest w :
  let v := isElementVisible driver browser this selector w in
  validate_loop driver browser this (selector :: rest) w =
  match outcome_of v with
  | Returned true =>
      let '(o, w2, t2) := validate_loop driver browser this rest (world_of v) in
      (o, w2, trace_of v ++ t2)
  | _ =>
      (Returned (Some false), world_of v,
       trace_of v ++ [EvLog (component (bp_logger this)) error
                        ("Required element not visible: " ++ selector)%string])
  end.
Proof.
  cbn zeta. cbn [validate_loop]. unfold bind at 1.
  destruct (isElementVisible_returns driver browser this selector w) as [b Hb].
  destruct (isElementVisible driver browser this selector w) as [[o w1] t1].
  unfold outcome_of, world_of, trace_of in *. cbn [fst snd] in *. subst o.
  destruct b; cbn [negb]; [reflexivity|].
  cbv [bind Logger_error Logger_log ret]. cbn [app]. reflexivity.
Qed.

(** X4.  [validateProductPageElements] never throws.  It answers [true]
    exactly when the product name, the price, the add-to-cart button and
    the quantity input are reported visible, one after the other, and then
    logs nothing; otherwise it answers [false] at the first of them that
    is not reported visible: the run is then the checks made so far
    followed by one log entry, at error level, naming that element, and
    the elements after it are not looked at. *)
Theorem validateProductPageElements_runs {W} (driver : Driver W) browser this w :
  let check := isElementVisible driver browser this in
  let v1 := check ProductSelectors.productName w in
  let v2 := check ProductSelectors.productPrice (world_of v1) in
  let v3 := check ProductSelectors.addToCartButton (world_of v2) in
  let v4 := check ProductSelectors.quantityInput (world_of v3) in
  let missing selector :=
    EvLog (component (bp_logger this)) error
      ("Required element not visible: " ++ selector)%string in
  let r := validateProductPageElements driver browser this w in
  (outcome_of r = Returned true \/ outcome_of r = Returned false) /\
  (outcome_of r = Returned true <->
   outcome_of v1 = Returned true /\ outcome_of v2 = Returned true /\
   outcome_of v3 = Returned true /\ outcome_of v4 = Returned true) /\
  (outcome_of v1 = Returned false ->
   r = (Returned false, world_of v1,
        trace_of v1 ++ [missing ProductSelectors.productName])) /\
  (outcome_of v1 = Returned true -> outcome_of v2 = Returned false ->
   r = (Returned false, world_of v2,
        trace_of v1 ++ trace_of v2 ++ [missing ProductSelectors.productPrice])) /\
  (outcome_of v1 = Returned true -> outcome_of v2 = Returned true ->
   outcome_of v3 = Returned false ->
   r = (Returned false, world_of v3,
        trace_of v1 ++ trace_of v2 ++ trace_of v3
          ++ [missing ProductSelectors.addToCartButton])) /\
  (outcome_of v1 = Returned true -> outcome_of v2 = Returned true ->
   outcome_of v3 = Returned true -> outcome_of v4 = Returned false ->
   r = (Returned false, world_of v4,
        trace_of v1 ++ trace_of v2 ++ trace_of v3 ++ trace_of v4
          ++ [missing ProductSelectors.quantityInput])) /\
  (outcome_of v1 = Returned true -> outcome_of v2 = Returned true ->
   outcome_of v3 = Returned true -> outcome_of v4 = Returned true ->
   r = (Returned true, world_of v4,
        trace_of v1 ++ trace_of v2 ++ trace_of v3 ++ trace_of v4)) /\
  ((outcome_of r = Returned true /\ log_entries (trace_of r) = [] /\
    resolutions (trace_of r) = required_elements)
   \/ (exists before selector after,
         required_elements = before ++ selector :: after /\
         outcome_of r = Returned false /\
         log_entries (trace_of r)
         = [(error, ("Required element not visible: " ++ selector)%string)] /\
         resolutions (trace_of r) = before ++ [selector])).
Proof.
  cbn zeta.
  assert (Hrun :
    let v1 := isElementVisible driver browser this ProductSelectors.productName w in
    let v2 := isElementVisible driver browser this ProductSelectors.productPrice
                (world_of v1) in
    let v3 := isElementVisible driver browser this ProductSelectors.addToCartButton
                (world_of v2) in
    let v4 := isElementVisible driver browser this ProductSelectors.quantityInput
                (world_of v3) in
    let missing selector :=
      EvLog (component (bp_logger this)) error
        ("Required element not visible: " ++ selector)%string in
    validateProductPageElements driver browser this w =
    match outcome_of v1, outcome_of v2, outcome_of v3, outcome_of v4 with
    | Returned true, Returned true, Returned true, Returned true =>
        (Returned true, world_of v4,
         trace_of v1 ++ trace_of v2 ++ trace_of v3 ++ trace_of v4)
    | Returned true, Returned true, Returned true, _ =>
        (Returned false, world_of v4,
         trace_of v1 ++ trace_of v2 ++ trace_of v3 ++ trace_of v4
           ++ [missing ProductSelectors.quantityInput])
    | Returned true, Returned true, _, _ =>
        (Returned false, world_of v3,
         trace_of v1 ++ trace_of v2 ++ trace_of v3
           ++ [missing ProductSelectors.addToCartButton])
    | Returned true, _, _, _ =>
        (Returned false, world_of v2,
         trace_of v1 ++ trace_of v2 ++ [missing ProductSelectors.productPrice])
    | _, _, _, _ =>
        (Returned false, world_of v1,
         trace_of v1 ++ [missing ProductSelectors.productName])
    end).
  { cbn zeta. unfold validateProductPageElements, required_elements, bind.
    rewrite validate_loop_step.
    destruct (outcome_of (isElementVisible driver browser this
                            ProductSelectors.productName w)) as [[|]|e1];
      [|cbn [ret]; unfold ret; rewrite app_nil_r; reflexivity..].
    rewrite validate_loop_step.
    destruct (outcome_of (isElementVisible driver browser this
                            ProductSelectors.productPrice _)) as [[|]|e2];
      [|cbn [ret]; unfold ret; rewrite app_nil_r, <- ?app_assoc; reflexivity..].
    rewrite validate_loop_step.
    destruct (outcome_of (isElementVisible driver browser this
                            ProductSelectors.addToCartButton _)) as [[|]|e3];
      [|cbn [ret]; unfold ret; rewrite app_nil_r, <- ?app_assoc; reflexivity..].
    rewrite validate_loop_step.
    destruct (outcome_of (isElementVisible driver browser this
                            ProductSelectors.quantityInput _)) as [[|]|e4];
      cbn [validate_loop ret]; unfold ret; rewrite ?app_nil_r, <- ?app_assoc;
      reflexivity. }
  cbn zeta in Hrun.
  pose proof (validate_loop_runs driver browser this required_elements w) as Hold.
  cbn zeta in Hold.
  assert (Hold' :
    let r := validateProductPageElements driver browser this w in
    (outcome_of r = Returned true /\ log_entries (trace_of r) = [] /\
     resolutions (trace_of r) = required_elements)
    \/ (exists before selector after,
          required_elements = before ++ selector :: after /\
          outcome_of r = Returned false /\
          log_entries (trace_of r)
          = [(error, ("Required element not visible: " ++ selector)%string)] /\
          resolutions (trace_of r) = before ++ [selector])).
  { cbn zeta. unfold validateProductPageElements, bind.
    destruct (validate_loop driver browser this required_elements w) as [[o w1] t].
    unfold outcome_of, trace_of in *. cbn [fst snd] in *.
    destruct Hold as [(Ho & Hl & Hr)|(before & sel & after & He & Ho & Hl & Hr)];
      subst o.
    - left. unfold ret. cbn [fst snd]. rewrite app_nil_r. auto.
    - right. exists before, sel, after. unfold ret. cbn [fst snd].
      rewrite app_nil_r. auto. }
  cbn zeta in Hold'. clear Hold.
  destruct (isElementVisible_returns driver browser this
              ProductSelectors.productName w) as [b1 H1].
  set (v1 := isElementVisible driver browser this ProductSelectors.productName w) in *.
  destruct (isElementVisible_returns driver browser this
              ProductSelectors.productPrice (world_of v1)) as [b2 H2].
  set (v2 := isElementVisible driver browser this ProductSelectors.productPrice
               (world_of v1)) in *.
  destruct (isElementVisible_returns driver browser this
              ProductSelectors.addToCartButton (world_of v2)) as [b3 H3].
  set (v3 := isElementVisible driver browser this ProductSelectors.addToCartButton
               (world_of v2)) in *.
  destruct (isElementVisible_returns driver browser this
              ProductSelectors.quantityInput (world_of v3)) as [b4 H4].
  set (v4 := isElementVisible driver browser this ProductSelectors.quantityInput
               (world_of v3)) in *.
  rewrite H1, H2, H3, H4 in Hrun |- *.
  split; [|split; [|split; [|split; [|split; [|split; [|split]]]]]];
    try exact Hold';
    destruct b1, b2, b3, b4; rewrite Hrun; unfold outcome_of; cbn [fst];
    try (left; reflexivity); try (right; reflexivity);
    try (split; [intros H; try discriminate H; auto
                |intros (Ha & Hb & Hc & Hd); congruence]);
    intros; try discriminate; reflexivity.
Qed.

(** ** Typing and clicking in sequence *)

Lemma clicks_app t1 t2 : clicks (t1 ++ t2) = clicks t1 ++ clicks t2.
Proof. apply flat_map_app. Qed.

Lemma successful_clicks_app t1 t2 :
  successful_clicks (t1 ++ t2) = successful_clicks t1 ++ successful_clicks t2.
Proof. apply flat_map_app. Qed.

(** Every run of [safeType] is one typing attempt. *)
Lemma safeType_attempt {W} (driver : Driver W) this selector text w :
  type_attempt (component (bp_logger this)) selector text
    (trace_of (safeType driver this selector text w))
    (outcome_of (safeType driver this selector text w)).
Proof.
  cbv [safeType waitForVisible param bind call ret resolve Logger_info Logger_log
       outcome_of trace_of].
  destruct (drv_resolve driver selector w) as [[el|e] w1]; cbn [fst snd app];
    [|constructor].
  destruct (drv_waitForDisplayed driver el 10000 false w1) as [[[]|e] w2];
    cbn [fst snd app]; [|constructor].
  destruct (drv_clearValue driver el w2) as [[[]|e] w3]; cbn [fst snd app];
    [|constructor].
  destruct (drv_setValue driver el text w3) as [[[]|e] w4]; cbn [fst snd app];
    constructor.
Qed.

Lemma type_attempt_quiet lg selector text t o :
  type_attempt lg selector text t o ->
  resolutions t = [selector] /\ clicks t = [] /\ pauses t = [].
Proof. intros H. inversion H; subst; repeat split. Qed.

(** Every run of [safeClick] is a retried click. *)
Lemma safeClick_retried {W} (driver : Driver W) this selector retries w :
  click_retries (component (bp_logger this)) selector retries 0
    (trace_of (safeClick driver this selector (Some retries) w))
    (outcome_of (safeClick driver this selector (Some retries) w)).
Proof.
  rewrite safeClick_run.
  pose proof (safeClick_loop_retries driver this selector retries 0 w) as H.
  cbn zeta in H.
  destruct (safeClick_loop driver this selector retries 0 w) as [[o w1] t1].
  exact H.
Qed.

Lemma safeClick_resolutions {W} (driver : Driver W) this selector retries w :
  Forall (eq selector)
    (resolutions (trace_of (safeClick driver this selector retries w))).
Proof.
  destruct retries as [retries|].
  - pose proof (safeClick_retried driver this selector retries w) as H.
    apply click_retries_counts in H. tauto.
  - change (safeClick driver this selector None w)
      with (safeClick driver this selector (Some 3) w).
    pose proof (safeClick_retried driver this selector 3 w) as H.
    apply click_retries_counts in H. tauto.
Qed.

Section LoginFacts.

Context {W : Type}.
Variable driver : Driver W.
Variable browser : Browser W.
Variable this : BasePage.
Variables email password : string.

(** The function that [waitForLoginCompletion] has polled resolves the
    loading spinner, once a call. *)
Lemma waitForLoginCompletion_resolutions w :
  polls_only browser ->
  Forall (eq LoginSelectors.loadingSpinner)
    (resolutions (trace_of (waitForLoginCompletion driver browser this w))).
Proof.
  intros Hpolls. unfold waitForLoginCompletion.
  destruct (Hpolls (bind (isElementVisible driver browser this
                            LoginSelectors.loadingSpinner)
                         (fun visible => ret (negb visible)))
              15000 "Login process did not complete within 15 seconds"%string w)
    as [worlds ->].
  induction worlds as [|w' worlds IH]; [constructor|].
  cbn [flat_map]. rewrite resolutions_app. apply Forall_app. split; [|exact IH].
  pose proof (isElementVisible_resolutions driver browser this
                LoginSelectors.loadingSpinner w') as Hr.
  destruct (isElementVisible_returns driver browser this
              LoginSelectors.loadingSpinner w') as [b Hb].
  unfold bind.
  destruct (isElementVisible driver browser this LoginSelectors.loadingSpinner w')
    as [[o w1] t].
  unfold outcome_of, trace_of in *. cbn [fst snd] in *. subst o.
  unfold ret. cbn [snd]. rewrite app_nil_r, Hr. constructor; [reflexivity|constructor].
Qed.

(** The locators [login] resolves are those of its calls, in so far as the
    remember-me choice lets them run. *)
Lemma login_resolutions rememberMe w :
  polls_only browser ->
  Forall (fun selector =>
            selector = LoginSelectors.emailInput \/
            selector = LoginSelectors.passwordInput \/
            selector = LoginSelectors.loginButton \/
            selector = LoginSelectors.loadingSpinner \/
            (rememberMe = true /\ selector = LoginSelectors.rememberMeCheckbox))
    (resolutions (trace_of (login driver browser this email password
                              (Some rememberMe) w))).
Proof.
  intros Hpolls. unfold login. cbn [param].
  apply bind_resolutions; [constructor|]. intros _ w1.
  apply bind_resolutions.
  { destruct (type_attempt_quiet _ _ _ _ _ (safeType_attempt driver this
                LoginSelectors.emailInput email w1)) as (-> & _).
    constructor; [auto|constructor]. }
  intros _ w2. apply bind_resolutions.
  { destruct (type_attempt_quiet _ _ _ _ _ (safeType_attempt driver this
                LoginSelectors.passwordInput password w2)) as (-> & _).
    constructor; [auto|constructor]. }
  intros _ w3. apply bind_resolutions.
  { destruct rememberMe; [|constructor].
    eapply Forall_impl; [|apply safeClick_resolutions].
    intros s <-. auto 6. }
  intros _ w4. apply bind_resolutions.
  { eapply Forall_impl; [|apply safeClick_resolutions]. intros s <-. auto. }
  intros _ w5. eapply Forall_impl; [|apply waitForLoginCompletion_resolutions, Hpolls].
  intros s <-. auto 6.
Qed.

End LoginFacts.

Lemma poll_polls_only {W} times (condition : M W bool) timeoutMsg :
  forall w,
  exists worlds,
    trace_of (poll times condition timeoutMsg w)
    = flat_map (fun w' => trace_of (condition w')) worlds.
Proof.
  induction times as [|times IH]; intros w.
  - exists []. reflexivity.
  - cbn [poll]. destruct (condition w) as [[r w1] t1] eqn:E.
    assert (Ht : trace_of (condition w) = t1) by (rewrite E; reflexivity).
    destruct (IH w1) as [worlds Hw].
    destruct (poll times condition timeoutMsg w1) as [[o w2] t2].
    change (t2 = flat_map (fun w' => trace_of (condition w')) worlds) in Hw.
    destruct r as [[|]|e].
    + exists [w]. cbn [flat_map]. rewrite Ht, app_nil_r. reflexivity.
    + exists (w :: worlds). cbn [flat_map]. rewrite Ht, <- Hw. reflexivity.
    + exists (w :: worlds). cbn [flat_map]. rewrite Ht, <- Hw. reflexivity.
Qed.

Lemma sample_browser_polls_only displayed text :
  polls_only (sample_browser displayed text).
Proof. intros condition timeout timeoutMsg w. apply poll_polls_only. Qed.

(** X5.  [login] without the remember-me option never touches the
    remember-me checkbox: as long as [browser.waitUntil] makes no call but
    those of the function it polls, the only locators [login] resolves are
    the e-mail input, the password input, the login button and the loading
    spinner that it polls for after the click. *)
Theorem login_leaves_rememberMe_alone {W} (driver : Driver W) browser this
    email password w :
  polls_only browser ->
  let t := trace_of (login driver browser this email password None w) in
  Forall (fun selector => In selector [LoginSelectors.emailInput;
                                      LoginSelectors.passwordInput;
                                      LoginSelectors.loginButton;
                                      LoginSelectors.loadingSpinner])
         (resolutions t) /\
  ~ In LoginSelectors.rememberMeCheckbox (resolutions t).
Proof.
  intros Hpolls. cbn zeta.
  change (login driver browser this email password None w)
    with (login driver browser this email password (Some false) w).
  pose proof (login_resolutions driver browser this email password false w Hpolls) as H.
  split.
  - eapply Forall_impl; [|exact H]. cbn.
    intros s [Hs|[Hs|[Hs|[Hs|[Hs _]]]]]; [auto|auto|auto|auto|discriminate].
  - intros Hin. rewrite Forall_forall in H. specialize (H _ Hin).
    destruct H as [Hs|[Hs|[Hs|[Hs|[Hs _]]]]]; discriminate.
Qed.

Lemma login_leaves_rememberMe_alone_witness :
  polls_only (sample_browser false "") /\
  ~ In LoginSelectors.rememberMeCheckbox
      (resolutions (trace_of (login (flaky_driver []) (sample_browser false "")
                                new_LoginPage "ada@example.org" "s3cret" None 0%nat))).
Proof.
  split; [apply sample_browser_polls_only|].
  apply (login_leaves_rememberMe_alone (flaky_driver []) (sample_browser false "")
           new_LoginPage "ada@example.org" "s3cret" 0%nat).
  apply sample_browser_polls_only.
Defined.

(** A login whose spinner stays on the page: the spinner is resolved at
    every poll, after the three locators of the form. *)
Example login_polls_the_spinner :
  resolutions (trace_of (login (flaky_driver []) (sample_browser true "")
                           new_LoginPage "ada@example.org" "s3cret" None 0%nat))
  = [LoginSelectors.emailInput; LoginSelectors.passwordInput;
     LoginSelectors.loginButton; LoginSelectors.loadingSpinner;
     LoginSelectors.loadingSpinner; LoginSelectors.loadingSpinner].
Proof. vm_compute. reflexivity. Qed.

Lemma click_attempt_clicks_failed lg selector t e :
  click_attempt lg selector t (Threw e) ->
  successful_clicks t = [] /\ (length (clicks t) <= 1)%nat.
Proof. intros H. inversion H; subst; cbn; split; auto. Qed.

Lemma click_attempt_clicks_done lg selector t :
  click_attempt lg selector t (Returned tt) ->
  exists el, successful_clicks t = [el] /\ clicks t = [(el, Returned tt)].
Proof. intros H. inversion H; subst. eexists. split; reflexivity. Qed.

(** The clicks of a retried click: at most one per attempt, and the only one
    that goes through, if any, is the last. *)
Lemma click_retries_clicks lg selector retries i t o :
  click_retries lg selector retries i t o ->
  (length (clicks t) <= Z.to_nat (retries - i))%nat /\
  (length (successful_clicks t) <= 1)%nat /\
  (i < retries -> o = Returned tt ->
   exists before el,
     clicks t = before ++ [(el, Returned tt)] /\ successful_clicks t = [el]) /\
  (forall e, o = Threw e -> successful_clicks t = []).
Proof.
  induction 1 as [i Hi|i t Hi Ht|i t e Hi Ht|i t e t' o Hi Ht Hrest IH].
  - cbn. split; [lia|]. split; [lia|]. split; [intros; lia|].
    intros e He. discriminate He.
  - destruct (click_attempt_clicks_done _ _ _ Ht) as (el & Hs & Hc).
    rewrite Hs, Hc. cbn [length]. split; [lia|]. split; [lia|]. split.
    + intros _ _. exists [], el. split; reflexivity.
    + intros e He. discriminate He.
  - destruct (click_attempt_clicks_failed _ _ _ _ Ht) as (Hs & Hc).
    rewrite clicks_app, successful_clicks_app, Hs, length_app. cbn.
    split; [lia|]. split; [lia|]. split; [intros _ He; discriminate He|].
    intros e' _. reflexivity.
  - destruct (click_attempt_clicks_failed _ _ _ _ Ht) as (Hs & Hc).
    destruct IH as (IHn & IHone & IHok & IHko).
    rewrite !clicks_app, !successful_clicks_app, Hs, !length_app.
    cbn [clicks successful_clicks flat_map app length].
    split; [lia|]. split; [lia|]. split.
    + intros _ Ho. destruct (IHok ltac:(lia) Ho) as (before & el & Hc' & Hs').
      exists (clicks t ++ before), el. rewrite Hc', Hs', app_assoc. auto.
    + exact IHko.
Qed.

(** X6.  [login] makes no click unless the e-mail and the password have both
    been typed: when typing the e-mail fails, [login] raises that error
    having resolved the e-mail input only; when typing the password fails,
    it raises that error; in both cases without a click. *)
Theorem login_types_before_clicking {W} (driver : Driver W) browser this
    email password rememberMe w :
  let a := safeType driver this LoginSelectors.emailInput email w in
  let b := safeType driver this LoginSelectors.passwordInput password (world_of a) in
  let r := login driver browser this email password rememberMe w in
  (forall e, outcome_of a = Threw e ->
     outcome_of r = Threw e /\ world_of r = world_of a /\
     clicks (trace_of r) = [] /\
     resolutions (trace_of r) = [LoginSelectors.emailInput]) /\
  (forall e, outcome_of a = Returned tt -> outcome_of b = Threw e ->
     outcome_of r = Threw e /\ world_of r = world_of b /\
     clicks (trace_of r) = []) /\
  (clicks (trace_of r) <> [] ->
   outcome_of a = Returned tt /\ outcome_of b = Returned tt).
Proof.
  cbn zeta.
  destruct (type_attempt_quiet _ _ _ _ _
              (safeType_attempt driver this LoginSelectors.emailInput email w))
    as (Ra & Ca & _).
  destruct (type_attempt_quiet _ _ _ _ _
              (safeType_attempt driver this LoginSelectors.passwordInput password
                 (world_of (safeType driver this LoginSelectors.emailInput email w))))
    as (Rb & Cb & _).
  assert (Hlog :
            login driver browser this email password rememberMe w
            = let rest :=
                bind (safeType driver this LoginSelectors.emailInput email)
                  (fun _ => bind (safeType driver this LoginSelectors.passwordInput
                                    password)
                     (fun _ => bind (if param rememberMe false
                                     then safeClick driver this
                                            LoginSelectors.rememberMeCheckbox None
                                     else ret tt)
                        (fun _ => bind (safeClick driver this
                                          LoginSelectors.loginButton None)
                           (fun _ => waitForLoginCompletion driver browser this))))
                  w in
              (outcome_of rest, world_of rest,
               EvLog (component (bp_logger this)) info
                 ("Attempting to login with email: " ++ email)%string
               :: trace_of rest)).
  { unfold login. unfold bind at 1. unfold Logger_info, Logger_log.
    cbv beta iota zeta.
    destruct (bind (safeType driver this LoginSelectors.emailInput email) _ w)
      as [[o' w'] t'].
    reflexivity. }
  cbv zeta in Hlog.
  assert (Hfail_a : forall e,
            outcome_of (safeType driver this LoginSelectors.emailInput email w) = Threw e ->
            outcome_of (login driver browser this email password rememberMe w) = Threw e /\
            world_of (login driver browser this email password rememberMe w)
            = world_of (safeType driver this LoginSelectors.emailInput email w) /\
            clicks (trace_of (login driver browser this email password rememberMe w)) = [] /\
            resolutions (trace_of (login driver browser this email password rememberMe w))
            = [LoginSelectors.emailInput]).
  { intros e Ha. rewrite Hlog, (bind_threw _ _ _ _ Ha).
    unfold outcome_of, world_of, trace_of in *. cbn [fst snd] in *.
    change (EvLog ?c ?l ?m :: ?x) with ([EvLog c l m] ++ x).
    rewrite clicks_app, resolutions_app, Ca, Ra. repeat split. }
  assert (Hfail_b : forall e,
            outcome_of (safeType driver this LoginSelectors.emailInput email w)
            = Returned tt ->
            outcome_of (safeType driver this LoginSelectors.passwordInput password
                          (world_of (safeType driver this LoginSelectors.emailInput
                                       email w))) = Threw e ->
            outcome_of (login driver browser this email password rememberMe w) = Threw e /\
            world_of (login driver browser this email password rememberMe w)
            = world_of (safeType driver this LoginSelectors.passwordInput password
                          (world_of (safeType driver this LoginSelectors.emailInput
                                       email w))) /\
            clicks (trace_of (login driver browser this email password rememberMe w)) = []).
  { intros e Ha Hb. rewrite Hlog, (bind_returned _ _ _ _ Ha), (bind_threw _ _ _ _ Hb).
    unfold outcome_of, world_of, trace_of in *. cbn [fst snd] in *.
    change (EvLog ?c ?l ?m :: ?x) with ([EvLog c l m] ++ x).
    rewrite !clicks_app, Ca, Cb. repeat split. }
  split; [exact Hfail_a|]. split; [exact Hfail_b|].
  intros Hclicks.
  destruct (outcome_of (safeType driver this LoginSelectors.emailInput email w))
    as [[]|e] eqn:Ha.
  2: { destruct (Hfail_a e eq_refl) as (_ & _ & Hc & _). contradiction. }
  split; [reflexivity|].
  destruct (outcome_of (safeType driver this LoginSelectors.passwordInput password _))
    as [[]|e] eqn:Hb; [reflexivity|].
  destruct (Hfail_b e eq_refl eq_refl) as (_ & _ & Hc). contradiction.
Qed.

Lemma safeClick_clicks_once_aux {W} (driver : Driver W) this selector retries w :
  let r := safeClick driver this selector (Some retries) w in
  (length (clicks (trace_of r)) <= Z.to_nat retries)%nat /\
  (length (successful_clicks (trace_of r)) <= 1)%nat /\
  (0 < retries -> outcome_of r = Returned tt ->
   exists before el,
     clicks (trace_of r) = before ++ [(el, Returned tt)] /\
     successful_clicks (trace_of r) = [el]) /\
  (forall e, outcome_of r = Threw e -> successful_clicks (trace_of r) = []).
Proof.
  cbn zeta.
  pose proof (click_retries_clicks _ _ _ _ _ _
                (safeClick_retried driver this selector retries w)) as H.
  rewrite Z.sub_0_r in H. exact H.
Qed.

(** X7.  [safeClick] clicks at most once per attempt and never clicks again
    after a click that went through: at most [retries] clicks, at most one
    of them successful; when it returns normally (with [retries >= 1]) the
    successful click is the last one, and when it throws no click went
    through. *)
Theorem safeClick_clicks_once {W} (driver : Driver W) this selector retries w :
  let r := safeClick driver this selector (Some retries) w in
  (length (clicks (trace_of r)) <= Z.to_nat retries)%nat /\
  (length (successful_clicks (trace_of r)) <= 1)%nat /\
  (0 < retries -> outcome_of r = Returned tt ->
   exists before el,
     clicks (trace_of r) = before ++ [(el, Returned tt)] /\
     successful_clicks (trace_of r) = [el]) /\
  (forall e, outcome_of r = Threw e -> successful_clicks (trace_of r) = []).
Proof.
  exact (safeClick_clicks_once_aux driver this selector retries w).
Qed.

(** X8.  [logout] clicks the logout button only after the user menu has been
    clicked: when the click on the user menu fails on all its attempts,
    [logout] ends as that click did, the logout button is never resolved
    and no click went through; otherwise it goes on with the click on the
    logout button in the world the first click left. *)
Theorem logout_needs_the_menu {W} (driver : Driver W) this w :
  let m := safeClick driver this HomeSelectors.userMenu None w in
  let l := safeClick driver this HomeSelectors.logoutButton None (world_of m) in
  let r := logout driver this w in
  (forall e, outcome_of m = Threw e ->
     r = (Threw e, world_of m, trace_of m) /\
     ~ In HomeSelectors.logoutButton (resolutions (trace_of r)) /\
     successful_clicks (trace_of r) = []) /\
  (outcome_of m = Returned tt ->
   r = (outcome_of l, world_of l, trace_of m ++ trace_of l)).
Proof.
  cbn zeta. unfold logout, clickUserMenu. split.
  - intros e Hm. rewrite (bind_threw _ _ _ _ Hm). split; [reflexivity|].
    unfold trace_of at 1 3. cbn [snd]. split.
    + intros Hin.
      pose proof (safeClick_resolutions driver this HomeSelectors.userMenu None w) as HF.
      rewrite Forall_forall in HF. specialize (HF _ Hin). discriminate HF.
    + change (safeClick driver this HomeSelectors.userMenu None w)
        with (safeClick driver this HomeSelectors.userMenu (Some 3) w) in Hm |- *.
      destruct (safeClick_clicks_once_aux driver this HomeSelectors.userMenu 3 w)
        as (_ & _ & _ & Hko).
      exact (Hko e Hm).
  - intros Hm. rewrite (bind_returned _ _ _ _ Hm). reflexivity.
Qed.

(** ** Product page *)

Lemma no_clicks_no_success t : clicks t = [] -> successful_clicks t = [].
Proof.
  induction t as [|ev t IH]; [reflexivity|].
  destruct ev as [| | | | | |el [u|e]| |]; cbn; try exact IH; discriminate.
Qed.

Lemma setQuantity_run {W} (driver : Driver W) this quantity w :
  let q := setQuantity driver this quantity w in
  clicks (trace_of q) = [] /\ pauses (trace_of q) = [] /\
  (outcome_of q = Returned tt ->
   exists el,
     trace_of q = [EvResolve ProductSelectors.quantityInput (Returned el);
                   EvClearValue el (Returned tt);
                   EvSetValue el (number_toString quantity) (Returned tt)]).
Proof.
  cbv [setQuantity bind call resolve outcome_of trace_of].
  destruct (drv_resolve driver ProductSelectors.quantityInput w) as [[el|e] w1];
    cbn [fst snd app]; [|settle].
  destruct (drv_clearValue driver el w1) as [[[]|e] w2]; cbn [fst snd app]; [|settle].
  destruct (drv_setValue driver el (number_toString quantity) w2) as [[[]|e] w3];
    cbn [fst snd app]; [|settle].
  repeat split. intros _. exists el. reflexivity.
Qed.

(** X9.  [addToCart] types the decimal form of the quantity before it clicks,
    and pauses 1000 ms only after a click that went through: a run that
    returns normally is the three calls that set the quantity, a retried
    click that succeeded, and the pause; a run that throws had no successful
    click, and no click at all when setting the quantity failed. *)
Theorem addToCart_runs {W} (driver : Driver W) this quantity w :
  let q := setQuantity driver this quantity w in
  let r := addToCart driver this (Some quantity) w in
  (outcome_of r = Returned tt ->
   exists el t,
     trace_of r
     = [EvResolve ProductSelectors.quantityInput (Returned el);
        EvClearValue el (Returned tt);
        EvSetValue el (number_toString quantity) (Returned tt)]
       ++ t ++ [EvPause 1000] /\
     click_retries (component (bp_logger this)) ProductSelectors.addToCartButton 3 0
       t (Returned tt)) /\
  (forall e, outcome_of r = Threw e -> successful_clicks (trace_of r) = []) /\
  (forall e, outcome_of q = Threw e ->
     r = (Threw e, world_of q, trace_of q) /\ clicks (trace_of r) = []).
Proof.
  cbn zeta. unfold addToCart. cbn [param].
  destruct (setQuantity_run driver this quantity w) as (Cq & Pq & Tq).
  assert (Sq : successful_clicks (trace_of (setQuantity driver this quantity w)) = []).
  { apply no_clicks_no_success. exact Cq. }
  destruct (outcome_of (setQuantity driver this quantity w)) as [[]|e] eqn:Hq.
  2: { rewrite (bind_threw _ _ _ _ Hq).
       unfold outcome_of, trace_of in *. cbn [fst snd] in *.
       split; [intros H; discriminate H|]. split.
       - intros e' _. exact Sq.
       - intros e' He. injection He as <-. split; [reflexivity|exact Cq]. }
  rewrite (bind_returned _ _ _ _ Hq).
  set (w1 := world_of (setQuantity driver this quantity w)) in *.
  pose proof (safeClick_retried driver this ProductSelectors.addToCartButton 3 w1) as Hc.
  pose proof (safeClick_clicks_once_aux driver this ProductSelectors.addToCartButton 3 w1)
    as (_ & _ & _ & Hko).
  change (safeClick driver this ProductSelectors.addToCartButton (Some 3) w1)
    with (safeClick driver this ProductSelectors.addToCartButton None w1) in Hc, Hko.
  set (c := safeClick driver this ProductSelectors.addToCartButton None w1) in *.
  destruct (outcome_of c) as [[]|e] eqn:Hs.
  - rewrite (bind_returned _ _ _ _ Hs).
    unfold pause, outcome_of, world_of, trace_of in *. cbn [fst snd] in *.
    split; [|split; [intros e He; discriminate He|intros e He; discriminate He]].
    intros _. destruct (Tq eq_refl) as (el & Ht).
    exists el, (snd c). rewrite Ht. split; [reflexivity|exact Hc].
  - rewrite (bind_threw _ _ _ _ Hs).
    unfold outcome_of, world_of, trace_of in *. cbn [fst snd] in *.
    split; [intros H; discriminate H|]. split; [|intros e' He; discriminate He].
    intros e' _. rewrite successful_clicks_app, Sq. exact (Hko e eq_refl).
Qed.

(** X10.  [clickProductImage] does nothing when the index is outside the
    images found (negative, or not below their number): it returns normally
    without a click.  Inside, it clicks exactly the image at that index,
    once, and ends as that click does. *)
Theorem clickProductImage_index {W} (driver : Driver W) browser this images w1 index w :
  br_resolveAll browser (ProductSelectors.productImages ++ " img")%string w
  = (Returned images, w1) ->
  let r := clickProductImage driver browser this (Some index) w in
  (index < 0 \/ Z.of_nat (length images) <= index -> r = (Returned tt, w1, [])) /\
  (forall image, 0 <= index -> nth_error images (Z.to_nat index) = Some image ->
     outcome_of r = fst (drv_click driver image w1) /\
     clicks (trace_of r) = [(image, fst (drv_click driver image w1))]).
Proof.
  intros Hall. cbn zeta.
  cbv [clickProductImage param bind extern call ret at_index]. rewrite Hall. split.
  - intros [Hneg|Hbig].
    + destruct (Z.ltb_spec index 0); [reflexivity|lia].
    + destruct (Z.ltb_spec index 0); [reflexivity|].
      assert (Hn : nth_error images (Z.to_nat index) = None)
        by (apply nth_error_None; lia).
      rewrite Hn. reflexivity.
  - intros image Hpos Hnth. destruct (Z.ltb_spec index 0); [lia|].
    rewrite Hnth. destruct (drv_click driver image w1) as [o w2]. split; reflexivity.
Qed.

(** X11.  [getCurrentQuantity] never answers zero nor [NaN]: when the
    quantity input was resolved and [getValue] read its text, the answer is
    1 if [parseInt] reads that text as 0 or cannot read it ([NaN]), and
    what [parseInt] reads otherwise; the locator is resolved once and no
    wait is made.  An exception is that of the resolution or of
    [getValue]. *)
Theorem getCurrentQuantity_positive_or_one {W} (driver : Driver W) browser parseInt
    this w :
  let r := getCurrentQuantity driver browser parseInt this w in
  (forall n, outcome_of r = Returned n -> n <> NaN /\ n <> Num 0) /\
  (forall el w1 value w2,
     drv_resolve driver ProductSelectors.quantityInput w = (Returned el, w1) ->
     br_getValue browser el w1 = (Returned value, w2) ->
     world_of r = w2 /\
     trace_of r = [EvResolve ProductSelectors.quantityInput (Returned el)] /\
     (parseInt value = Num 0 \/ parseInt value = NaN ->
      outcome_of r = Returned (Num 1)) /\
     (parseInt value <> Num 0 -> parseInt value <> NaN ->
      outcome_of r = Returned (parseInt value))) /\
  (forall e, outcome_of r = Threw e ->
     fst (drv_resolve driver ProductSelectors.quantityInput w) = Threw e \/
     exists el w1,
       drv_resolve driver ProductSelectors.quantityInput w = (Returned el, w1) /\
       fst (br_getValue browser el w1) = Threw e).
Proof.
  cbv [getCurrentQuantity bind resolve call extern ret outcome_of world_of trace_of].
  destruct (drv_resolve driver ProductSelectors.quantityInput w) as [[el|e] w1];
    cbn [fst snd app].
  - destruct (br_getValue browser el w1) as [[value|e] w2] eqn:Hv; cbn [fst snd app].
    + split; [|split].
      * intros n H. injection H as <-. unfold number_or.
        destruct (parseInt value) as [|z|b]; cbn; [split; discriminate| |split; discriminate].
        destruct (Z.eqb_spec z 0); cbn; split; try discriminate; congruence.
      * intros el' w1' value' w2' H1 H2. injection H1 as <- <-.
        rewrite Hv in H2. injection H2 as <- <-.
        split; [reflexivity|]. split; [reflexivity|]. split.
        -- intros [-> | ->]; reflexivity.
        -- intros H0 Hn. unfold number_or.
           destruct (parseInt value) as [|z|b]; cbn; [contradiction| |reflexivity].
           destruct (Z.eqb_spec z 0); cbn; [subst z; contradiction|reflexivity].
      * intros e H. discriminate H.
    + split; [|split].
      * intros n H. discriminate H.
      * intros el' w1' value' w2' H1 H2. injection H1 as <- <-.
        rewrite Hv in H2. discriminate H2.
      * intros e' H. injection H as <-. right. exists el, w1.
        split; [reflexivity|]. rewrite Hv. reflexivity.
  - split; [|split].
    + intros n H. discriminate H.
    + intros el' w1' value' w2' H1. discriminate H1.
    + intros e' H. injection H as <-. left. reflexivity.
Qed.

(** X12.  [getCartCount] never answers [NaN] and answers 0 as soon as the
    cart badge is not reported visible, after that one check: the badge is
    not waited for. *)
Theorem getCartCount_defaults_to_zero {W} (driver : Driver W) browser parseInt this w :
  let v := isElementVisible driver browser this HomeSelectors.cartCount w in
  let r := getCartCount driver browser parseInt this w in
  outcome_of r <> Returned NaN /\
  (outcome_of v = Returned false -> r = (Returned (Num 0), world_of v, trace_of v)) /\
  (forall e, outcome_of r = Threw e -> outcome_of v = Returned true).
Proof.
  cbn zeta. unfold getCartCount.
  destruct (isElementVisible_returns driver browser this HomeSelectors.cartCount w)
    as [b Hv].
  rewrite (bind_returned _ _ _ _ Hv). rewrite Hv.
  destruct b.
  - split; [|split; [intros H; discriminate H|auto]].
    unfold bind, outcome_of at 1. cbn [fst].
    destruct (getTextContent driver browser this HomeSelectors.cartCount _)
      as [[[text|e] w2] t2]; cbn [fst snd ret]; [|discriminate].
    unfold number_or. destruct (parseInt text) as [|z|neg]; cbn;
      try destruct (z =? 0); cbn; discriminate.
  - unfold ret, outcome_of at 1 2. cbn [fst snd].
    split; [discriminate|]. split.
    + intros _. unfold trace_of at 1. cbn [snd]. rewrite app_nil_r. reflexivity.
    + intros e He. discriminate He.
Qed.

(** ** Conditions handed to [browser.waitUntil] *)


(** X14.  The conditions that [WaitUtils.waitForTextInElement] and
    [WaitUtils.waitForElementCount] poll never throw: the text condition
    does to the world and the trace what the unguarded condition of
    [BasePage.waitForText] does, and answers as it does, except that where
    the latter throws it answers [false]. *)
Theorem guarded_conditions_never_throw {W} (driver : Driver W) browser utils page
    selector expectedText expectedCount w :
  let guarded := waitForTextInElement_condition driver browser utils selector
                   expectedText w in
  let bare := waitForText_condition driver browser page selector expectedText w in
  let count := waitForElementCount_condition browser utils selector expectedCount w in
  outcome_of guarded = match outcome_of bare with
                       | Returned b => Returned b
                       | Threw _ => Returned false
                       end /\
  world_of guarded = world_of bare /\
  trace_of guarded = trace_of bare /\
  (outcome_of count = Returned true \/ outcome_of count = Returned false) /\
  (outcome_of count = Returned true <->
   exists elements, fst (br_resolveAll browser selector w) = Returned elements /\
                    Z.of_nat (length elements) = expectedCount).
Proof.
  cbv [waitForTextInElement_condition waitForText_condition
       waitForElementCount_condition try_catch bind resolve call extern ret
       outcome_of world_of trace_of].
  destruct (drv_resolve driver selector w) as [[el|e] w1];
    [destruct (br_getText browser el w1) as [[text|e] w2]|];
    destruct (br_resolveAll browser selector w) as [[elements|e'] w3];
    cbn [fst snd app];
    try destruct (Z.eqb_spec (Z.of_nat (length elements)) expectedCount);
    repeat split; auto;
    try (intros H; discriminate H);
    try (intros (x & H & H'); congruence);
    try (intros _; eauto).
Qed.

Lemma clickProductImage_index_witness :
  br_resolveAll (sample_browser true "") (ProductSelectors.productImages ++ " img")%string
    0%nat
  = (Returned [7; 8; 9]%nat, 0%nat) /\
  clickProductImage (flaky_driver []) (sample_browser true "") new_ProductPage (Some 5)
    0%nat
  = (Returned tt, 0%nat, []).
Proof.
  split; [reflexivity|].
  apply (proj1 (clickProductImage_index (flaky_driver []) (sample_browser true "")
                  new_ProductPage [7; 8; 9]%nat 0%nat 5 0%nat eq_refl)).
  right. cbn. lia.
Defined.

Lemma getCurrentQuantity_positive_or_one_witness :
  outcome_of (getCurrentQuantity (flaky_driver []) (sample_browser true "0")
                parseInt_decimal new_ProductPage 0%nat)
  = Returned (Num 1).
Proof.
  destruct (getCurrentQuantity_positive_or_one (flaky_driver [])
              (sample_browser true "0") parseInt_decimal new_ProductPage 0%nat)
    as (_ & H & _).
  destruct (H _ _ _ _ eq_refl eq_refl) as (_ & _ & Hone & _).
  apply Hone. left. reflexivity.
Defined.

(** ** Header tables *)

Lemma obj_get_set_same key value o : obj_get key (obj_set key value o) = Some value.
Proof.
  induction o as [|[k v] o IH]; cbn.
  - rewrite String.eqb_refl. reflexivity.
  - destruct (String.eqb_spec k key) as [->|Hne]; cbn.
    + rewrite String.eqb_refl. reflexivity.
    + destruct (String.eqb_spec k key); [contradiction|exact IH].
Qed.

Lemma obj_get_set_other key key' value o :
  key' <> key -> obj_get key' (obj_set key value o) = obj_get key' o.
Proof.
  intros Hne. induction o as [|[k v] o IH]; cbn.
  - destruct (String.eqb_spec key key'); [congruence|reflexivity].
  - destruct (String.eqb_spec k key) as [->|Hk]; cbn.
    + destruct (String.eqb_spec key key'); [congruence|reflexivity].
    + destruct (String.eqb_spec k key'); [reflexivity|exact IH].
Qed.

Lemma obj_get_delete_same key o : obj_get key (obj_delete key o) = None.
Proof.
  induction o as [|[k v] o IH]; cbn; [reflexivity|].
  destruct (String.eqb_spec k key) as [->|Hne]; cbn; [exact IH|].
  destruct (String.eqb_spec k key); [contradiction|exact IH].
Qed.

Lemma obj_get_delete_other key key' o :
  key' <> key -> obj_get key' (obj_delete key o) = obj_get key' o.
Proof.
  intros Hne. induction o as [|[k v] o IH]; cbn; [reflexivity|].
  destruct (String.eqb_spec k key) as [->|Hk]; cbn.
  - destruct (String.eqb_spec key key'); [congruence|exact IH].
  - destruct (String.eqb_spec k key'); [reflexivity|exact IH].
Qed.

Lemma obj_get_absent key o : ~ In key (map fst o) -> obj_get key o = None.
Proof.
  induction o as [|[k v] o IH]; cbn; [reflexivity|]. intros Hnin.
  destruct (String.eqb_spec k key) as [->|Hne]; [tauto|]. apply IH. tauto.
Qed.

(** Spreading [b] over [a]: the properties of [b] win.  ([b], an object,
    has each property once.) *)
Lemma obj_get_spread key b :
  NoDup (map fst b) ->
  forall a,
    obj_get key (obj_spread a b)
    = match obj_get key b with Some v => Some v | None => obj_get key a end.
Proof.
  unfold obj_spread. induction b as [|[k v] b IH]; intros Hnd a; cbn; [reflexivity|].
  inversion Hnd as [|? ? Hnin Hnd']; subst. rewrite (IH Hnd').
  destruct (String.eqb_spec k key) as [->|Hne].
  - rewrite (obj_get_absent _ _ Hnin), obj_get_set_same. reflexivity.
  - rewrite obj_get_set_other by congruence. reflexivity.
Qed.

Lemma keys_set key value o :
  forall k, In k (map fst (obj_set key value o)) <-> k = key \/ In k (map fst o).
Proof.
  induction o as [|[k0 v0] o IH]; intros k; cbn.
  - intuition congruence.
  - destruct (String.eqb_spec k0 key) as [->|Hne]; cbn; [intuition congruence|].
    rewrite IH. tauto.
Qed.

Lemma NoDup_set key value o : NoDup (map fst o) -> NoDup (map fst (obj_set key value o)).
Proof.
  induction o as [|[k v] o IH]; cbn; intros Hnd.
  - constructor; [intros []|constructor].
  - inversion Hnd as [|? ? Hnin Hnd']; subst.
    destruct (String.eqb_spec k key) as [->|Hne]; cbn.
    + constructor; assumption.
    + constructor; [|apply IH; assumption].
      rewrite keys_set. intros [->|Hin]; [congruence|contradiction].
Qed.

Lemma keys_delete key o :
  forall k, In k (map fst (obj_delete key o)) -> In k (map fst o).
Proof.
  induction o as [|[k0 v0] o IH]; intros k; cbn; [auto|].
  destruct (String.eqb_spec k0 key); cbn; intros H; [right; auto|].
  destruct H; [left; assumption|right; auto].
Qed.

Lemma NoDup_delete key o : NoDup (map fst o) -> NoDup (map fst (obj_delete key o)).
Proof.
  induction o as [|[k v] o IH]; cbn; intros Hnd; [constructor|].
  inversion Hnd as [|? ? Hnin Hnd']; subst.
  destruct (String.eqb_spec k key); cbn; [auto|].
  constructor; [|auto]. intros Hin. apply Hnin. eapply keys_delete. exact Hin.
Qed.

Lemma NoDup_spread b : forall a, NoDup (map fst a) -> NoDup (map fst (obj_spread a b)).
Proof.
  unfold obj_spread. induction b as [|[k v] b IH]; intros a Ha; cbn; [exact Ha|].
  apply IH. apply NoDup_set. exact Ha.
Qed.

(** X15.  A new client sends [Content-Type] and [Accept]
    [application/json] unless the headers given to the constructor say
    otherwise: a given header overrides the default of the same name, every
    given header is kept, and no other header is set; the time-out is
    30000 ms. *)
Theorem new_BaseApiClient_headers url given key :
  NoDup (map fst given) ->
  let this := new_BaseApiClient url (Some given) in
  obj_get key (defaultHeaders this)
  = match obj_get key given with
    | Some value => Some value
    | None => if String.eqb key "Content-Type" || String.eqb key "Accept"
              then Some "application/json"%string else None
    end /\
  api_timeout this = 30000 /\ baseURL this = url /\
  defaultHeaders (new_BaseApiClient url None)
  = [("Content-Type", "application/json"); ("Accept", "application/json")]%string.
Proof.
  intros Hnd. cbn zeta. unfold new_BaseApiClient. cbn [param defaultHeaders api_timeout
                                                       baseURL].
  rewrite (obj_get_spread key given Hnd). repeat split.
  destruct (obj_get key given); [reflexivity|]. cbn [obj_get].
  rewrite (String.eqb_sym key "Content-Type"), (String.eqb_sym key "Accept").
  destruct (String.eqb "Content-Type" key); [reflexivity|].
  destruct (String.eqb "Accept" key); reflexivity.
Qed.

Lemma new_BaseApiClient_headers_witness :
  NoDup (map fst [("Accept", "text/csv"); ("X-Trace", "on")]%string) /\
  obj_get "Accept"
    (defaultHeaders (new_BaseApiClient "https://api.test"
                       (Some [("Accept", "text/csv"); ("X-Trace", "on")]%string)))
  = Some "text/csv"%string.
Proof.
  assert (H : NoDup (map fst [("Accept", "text/csv"); ("X-Trace", "on")]%string)).
  { repeat constructor; cbn; intuition discriminate. }
  split; [exact H|].
  exact (proj1 (new_BaseApiClient_headers "https://api.test"
                  [("Accept", "text/csv"); ("X-Trace", "on")]%string "Accept" H)).
Defined.

(** X16.  [setAuth] makes [Authorization] read "<type> <token>", replacing
    any earlier value, and [clearAuth] after it leaves no [Authorization]
    header; neither touches another header, the base URL or the
    time-out. *)
Theorem auth_set_and_cleared this token type key :
  let set := setAuth this token type in
  let cleared := clearAuth set in
  obj_get "Authorization" (defaultHeaders set)
  = Some (AuthType_toString (param type Bearer) ++ " " ++ token)%string /\
  obj_get "Authorization" (defaultHeaders cleared) = None /\
  (key <> "Authorization"%string ->
   obj_get key (defaultHeaders set) = obj_get key (defaultHeaders this) /\
   obj_get key (defaultHeaders cleared) = obj_get key (defaultHeaders this)) /\
  baseURL cleared = baseURL this /\ api_timeout cleared = api_timeout this.
Proof.
  cbn zeta. unfold clearAuth, setAuth, with_defaultHeaders.
  cbn [defaultHeaders baseURL api_timeout].
  rewrite obj_get_set_same, obj_get_delete_same. repeat split.
  - apply obj_get_set_other. assumption.
  - rewrite obj_get_delete_other by assumption. apply obj_get_set_other. assumption.
Qed.

(** ** Redaction *)

Lemma sanitize_step_other key header sanitized :
  key <> header ->
  obj_get key match obj_get header sanitized with
              | Some value => if String.eqb value "" then sanitized
                              else obj_set header "***REDACTED***" sanitized
              | None => sanitized
              end
  = obj_get key sanitized.
Proof.
  intros Hne. destruct (obj_get header sanitized) as [value|]; [|reflexivity].
  destruct (String.eqb value ""); [reflexivity|].
  apply obj_get_set_other. assumption.
Qed.

(** X17.  [sanitizeHeaders] redacts exactly the headers named, in lower
    case, [authorization], [x-api-key] and [cookie], when their value is
    not empty, and leaves every other header as it is -- the
    [Authorization] header that [setAuth] writes, capitalised, among
    them. *)
Theorem sanitizeHeaders_redacts headers key :
  obj_get key (sanitizeHeaders headers)
  = (if existsb (String.eqb key) sensitiveHeaders
     then match obj_get key headers with
          | Some value => if String.eqb value "" then Some value
                          else Some "***REDACTED***"%string
          | None => None
          end
     else obj_get key headers) /\
  (forall this token type,
     obj_get "Authorization" (sanitizeHeaders (defaultHeaders (setAuth this token type)))
     = Some (AuthType_toString (param type Bearer) ++ " " ++ token)%string).
Proof.
  assert (Hgen : forall h k,
            obj_get k (sanitizeHeaders h)
            = (if existsb (String.eqb k) sensitiveHeaders
               then match obj_get k h with
                    | Some value => if String.eqb value "" then Some value
                                    else Some "***REDACTED***"%string
                    | None => None
                    end
               else obj_get k h)).
  { intros h k. unfold sanitizeHeaders, sensitiveHeaders. cbn [fold_left existsb].
    destruct (String.eqb_spec k "authorization") as [->|H1].
    { rewrite !sanitize_step_other by discriminate.
      destruct (obj_get "authorization" h) as [v|] eqn:Hv; cbn [orb]; rewrite ?Hv;
        [|reflexivity].
      destruct (String.eqb v ""); [exact Hv|apply obj_get_set_same]. }
    destruct (String.eqb_spec k "x-api-key") as [->|H2].
    { rewrite sanitize_step_other by discriminate. cbn [orb].
      set (h1 := match obj_get "authorization" h with
                 | Some value => if String.eqb value "" then h
                                 else obj_set "authorization" "***REDACTED***" h
                 | None => h
                 end).
      assert (Hh1 : obj_get "x-api-key" h1 = obj_get "x-api-key" h)
        by (apply sanitize_step_other; discriminate).
      rewrite <- Hh1.
      destruct (obj_get "x-api-key" h1) as [v|] eqn:Hv; [|exact Hv].
      destruct (String.eqb v ""); [exact Hv|apply obj_get_set_same]. }
    destruct (String.eqb_spec k "cookie") as [->|H3].
    { cbn [orb].
      set (h2 := match obj_get "x-api-key" _ with
                 | Some value => _
                 | None => _
                 end).
      assert (Hh2 : obj_get "cookie" h2 = obj_get "cookie" h).
      { unfold h2. rewrite sanitize_step_other by discriminate.
        apply sanitize_step_other. discriminate. }
      rewrite <- Hh2.
      destruct (obj_get "cookie" h2) as [v|] eqn:Hv; [|exact Hv].
      destruct (String.eqb v ""); [exact Hv|apply obj_get_set_same]. }
    cbn [orb]. rewrite !sanitize_step_other by congruence. reflexivity. }
  split; [apply Hgen|].
  intros this token type. rewrite Hgen. cbn [existsb String.eqb Ascii.eqb Bool.eqb orb].
  unfold setAuth, with_defaultHeaders. cbn [defaultHeaders].
  apply obj_get_set_same.
Qed.

(** ** Requests *)

Lemma logged_log_entries lvl t :
  logged lvl t
  = flat_map (fun e => if Level_eqb (fst e) lvl then [snd e] else []) (log_entries t).
Proof.
  induction t as [|ev t IH]; [reflexivity|].
  change (ev :: t) with ([ev] ++ t).
  rewrite logged_app, log_entries_app, flat_map_app, IH. f_equal.
  destruct ev; cbn; rewrite ?app_nil_r; reflexivity.
Qed.

Section RequestFacts.

Context {W Data Buffer : Type}.
Variable http : Http W Data Buffer.
Variable this : BaseApiClient.
Variable config : RequestConfig Data.

(** The [try] block of [request] ends in one of three ways: an exception
    before the response is logged; the "HTTP <status>: <statusText>" error
    for a response that is not [ok], after it is logged; or a response that
    is [ok]. *)
Lemma request_try_cases startTime requestId w :
  let r := request_try http this config startTime requestId w in
  (exists e, outcome_of r = Threw e /\ trace_of r = [])
  \/ (exists st text,
        outcome_of r
        = Threw (new_Error ("HTTP " ++ number_toString st ++ ": " ++ text)%string) /\
        trace_of r = [EvLog (component (api_logger this)) info (response_msg requestId)])
  \/ (exists response,
        outcome_of r = Returned response /\ success response = true /\
        message response = Some "Request successful"%string /\
        trace_of r = [EvLog (component (api_logger this)) info (response_msg requestId)]).
Proof.
  cbv [request_try bind pure extern total ret throw Logger_info Logger_log
       outcome_of trace_of response_msg].
  destruct (buildUrl http this (rc_url config) (rc_params config)) as [url|e];
    [|left; eexists; split; reflexivity].
  set (body := match rc_data config with
               | Some d => _
               | None => _
               end).
  assert (Hbody : (exists e, body w = (Threw e, w, [])) \/
                  (exists b, body w = (Returned b, w, []))).
  { unfold body. destruct (rc_data config) as [d|]; [|right; eexists; reflexivity].
    destruct (ht_truthy http d); [|right; eexists; reflexivity].
    destruct (ht_stringify http d) as [b|e];
      [right; eexists; reflexivity|left; eexists; reflexivity]. }
  destruct Hbody as [(e & ->)|(b & ->)]; [left; eexists; split; reflexivity|].
  destruct (ht_abortTimeout http (request_timeout this config)) as [[]|e];
    [|left; eexists; split; reflexivity].
  destruct (ht_fetch http url _ w) as [[response|e] w1];
    [|left; eexists; split; reflexivity].
  destruct (ht_now http w1) as [now w2].
  set (read := if match resp_contentType response with
                  | Some ct => _
                  | None => false
                  end then _ else _).
  assert (Hread : exists o w3, read w2 = (o, w3, [])).
  { unfold read. destruct (match resp_contentType response with
                           | Some ct => _
                           | None => false
                           end).
    - destruct (ht_json http response w2) as [o w3]. eexists _, _. reflexivity.
    - destruct (ht_text http response w2) as [o w3]. eexists _, _. reflexivity. }
  destruct Hread as (o & w3 & ->).
  destruct o as [responseData|e]; [|left; eexists; split; reflexivity].
  destruct (ht_stringify_length http responseData) as [size|e];
    [|left; eexists; split; reflexivity].
  cbn [fst snd app].
  destruct (resp_ok response) eqn:Hok; cbn [negb fst snd app].
  - right. right. eexists. repeat split.
  - right. left. exists (resp_status response), (resp_statusText response).
    split; reflexivity.
Qed.

(** How the [try] block of [request] fails: before anything is logged, or
    with the HTTP error for the response that [fetch] returned. *)
Lemma request_try_failure startTime requestId w e :
  let r := request_try http this config startTime requestId w in
  outcome_of r = Threw e ->
  trace_of r = []
  \/ (trace_of r = [EvLog (component (api_logger this)) info (response_msg requestId)] /\
      exists url payload response w1,
        buildUrl http this (rc_url config) (rc_params config) = Returned url /\
        ht_fetch http url
          (mkRequestInit (rc_method config) (request_headers this config) payload
             (request_timeout this config)) w
        = (Returned response, w1) /\
        resp_ok response = false /\
        e = new_Error ("HTTP " ++ number_toString (resp_status response) ++ ": "
                         ++ resp_statusText response)%string).
Proof.
  cbv [request_try bind pure extern total ret throw Logger_info Logger_log
       outcome_of trace_of response_msg].
  destruct (buildUrl http this (rc_url config) (rc_params config)) as [url|e0];
    [|intros _; left; reflexivity].
  set (body := match rc_data config with
               | Some d => _
               | None => _
               end).
  assert (Hbody : (exists e0, body w = (Threw e0, w, [])) \/
                  (exists b, body w = (Returned b, w, []))).
  { unfold body. destruct (rc_data config) as [d|]; [|right; eexists; reflexivity].
    destruct (ht_truthy http d); [|right; eexists; reflexivity].
    destruct (ht_stringify http d) as [b|e0];
      [right; eexists; reflexivity|left; eexists; reflexivity]. }
  destruct Hbody as [(e0 & ->)|(b & ->)]; [intros _; left; reflexivity|].
  destruct (ht_abortTimeout http (request_timeout this config)) as [[]|e0];
    [|intros _; left; reflexivity].
  destruct (ht_fetch http url _ w) as [[response|e0] w1] eqn:Hfetch;
    [|intros _; left; reflexivity].
  destruct (ht_now http w1) as [now w2].
  set (read := if match resp_contentType response with
                  | Some ct => _
                  | None => false
                  end then _ else _).
  assert (Hread : exists o w3, read w2 = (o, w3, [])).
  { unfold read. destruct (match resp_contentType response with
                           | Some ct => _
                           | None => false
                           end).
    - destruct (ht_json http response w2) as [o w3]. eexists _, _. reflexivity.
    - destruct (ht_text http response w2) as [o w3]. eexists _, _. reflexivity. }
  destruct Hread as (o & w3 & ->).
  destruct o as [responseData|e0]; [|intros _; left; reflexivity].
  destruct (ht_stringify_length http responseData) as [size|e0];
    [|intros _; left; reflexivity].
  cbn [fst snd app].
  destruct (resp_ok response) eqn:Hok; cbn [negb fst snd app]; intros He;
    [discriminate He|].
  injection He as <-. right. split; [reflexivity|].
  exists url, b, response, w1. repeat split; assumption.
Qed.

(** An exception of [fetch] is the outcome of the [try] block. *)
Lemma request_try_fetch_failure startTime requestId w url payload e w1 :
  buildUrl http this (rc_url config) (rc_params config) = Returned url ->
  match rc_data config with
  | Some d => if ht_truthy http d then ht_stringify http d else Returned None
  | None => Returned None
  end = Returned payload ->
  ht_abortTimeout http (request_timeout this config) = Returned tt ->
  ht_fetch http url
    (mkRequestInit (rc_method config) (request_headers this config) payload
       (request_timeout this config)) w
  = (Threw e, w1) ->
  request_try http this config startTime requestId w = (Threw e, w1, []).
Proof.
  intros Hurl Hpayload Habort Hfetch.
  cbv [request_try bind pure extern total ret throw Logger_info Logger_log].
  rewrite Hurl.
  destruct (rc_data config) as [d|].
  - destruct (ht_truthy http d).
    + rewrite Hpayload, Habort, Hfetch. reflexivity.
    + injection Hpayload as <-. rewrite Habort, Hfetch. reflexivity.
  - injection Hpayload as <-. rewrite Habort, Hfetch. reflexivity.
Qed.

(** [request] around its [try] block. *)
Lemma request_run w :
  let '(startTime, w1) := ht_now http w in
  let '(requestId, w2) := ht_randomId http w1 in
  let t := request_try http this config startTime requestId w2 in
  request http this config w =
  match outcome_of t with
  | Returned response =>
      (Returned response, world_of t,
       EvLog (component (api_logger this)) info
         (request_msg requestId) :: trace_of t)
  | Threw e =>
      (Threw e, snd (ht_now http (world_of t)),
       EvLog (component (api_logger this)) info
         (request_msg requestId)
       :: trace_of t
       ++ [EvLog (component (api_logger this)) error
             (failed_msg requestId)])
  end.
Proof.
  cbv [request bind try_catch total generateRequestId Logger_info Logger_error
       Logger_log throw outcome_of world_of trace_of request_msg failed_msg].
  destruct (ht_now http w) as [startTime w1].
  destruct (ht_randomId http w1) as [requestId w2].
  destruct (request_try http this config startTime requestId w2) as [[[r|e] w3] t];
    cbn [fst snd app].
  - reflexivity.
  - destruct (ht_now http w3) as [now w4]. cbn [fst snd app].
    rewrite ?app_nil_r. reflexivity.
Qed.

(** What a run of [request] returns and logs. *)
Lemma request_cases w :
  let r := request http this config w in
  exists requestId,
    (exists response,
        outcome_of r = Returned response /\ success response = true /\
        message response = Some "Request successful"%string /\
        log_entries (trace_of r)
        = [(info, (request_msg requestId));
           (info, (response_msg requestId))])
    \/ (exists e,
          outcome_of r = Threw e /\
          log_entries (trace_of r)
          = [(info, (request_msg requestId));
             (error, (failed_msg requestId))])
    \/ (exists st text,
          outcome_of r
          = Threw (new_Error ("HTTP " ++ number_toString st ++ ": " ++ text)%string) /\
          log_entries (trace_of r)
          = [(info, (request_msg requestId));
             (info, (response_msg requestId));
             (error, (failed_msg requestId))]).
Proof.
  cbn zeta. pose proof (request_run w) as Hrun.
  destruct (ht_now http w) as [startTime w1].
  destruct (ht_randomId http w1) as [requestId w2].
  cbn zeta in Hrun. rewrite Hrun. exists requestId.
  destruct (request_try_cases startTime requestId w2)
    as [(e & Ho & Ht)|[(st & text & Ho & Ht)|(response & Ho & Hs & Hm & Ht)]];
    rewrite Ho, Ht.
  - right. left. exists e. split; reflexivity.
  - right. right. exists st, text. split; reflexivity.
  - left. exists response. repeat split; assumption.
Qed.

End RequestFacts.

(** X18.  [request] returns only responses that are [ok]: a response it
    returns has [success = true] and the message "Request successful", and
    the run has logged the request and the response at info and nothing at
    error. *)
Theorem request_returns_ok_responses {W Data Buffer} (http : Http W Data Buffer)
    this config w response :
  let r := request http this config w in
  outcome_of r = Returned response ->
  success response = true /\
  message response = Some "Request successful"%string /\
  logged error (trace_of r) = [] /\
  exists requestId,
    log_entries (trace_of r)
    = [(info, (request_msg requestId));
       (info, (response_msg requestId))].
Proof.
  cbn zeta. intros Hr.
  destruct (request_cases http this config w)
    as (requestId & [(resp & Ho & Hs & Hm & Hl)|[(e & Ho & _)|(st & text & Ho & _)]]);
    rewrite Hr in Ho; try discriminate Ho.
  injection Ho as <-. split; [exact Hs|]. split; [exact Hm|]. split.
  - rewrite logged_log_entries, Hl. reflexivity.
  - exists requestId. exact Hl.
Qed.

Lemma request_returns_ok_responses_witness :
  let r := request (sample_http 200 "OK" true) sample_client
             (mkRequestConfig GET "/users" None None None None) 0%nat in
  outcome_of r
  = Returned (mkApiResponse 200 "{}"%string
                [("content-type", "application/json")]%string true
                (Some "Request successful"%string)) /\
  logged error (trace_of r) = [].
Proof.
  cbn zeta.
  pose proof (request_returns_ok_responses (sample_http 200 "OK" true) sample_client
                (mkRequestConfig GET "/users" None None None None) 0%nat _ eq_refl)
    as (_ & _ & Hl & _).
  split; [reflexivity|exact Hl].
Defined.

(** X19.  [request] fails exactly when its [try] block does, and with the
    same error: the error is not wrapped.  The failure is logged once at
    error, as the last entry of the run, after the request entry and what
    the [try] block logged.  The [try] block has then logged nothing, or
    the response only: in that case the error is the
    "HTTP <status>: <statusText>" error that [request] raises itself, for
    the response that [fetch] returned, which is not [ok].  In particular
    an exception of [fetch] is raised again as it is, after the request
    entry and the error entry. *)
Theorem request_failure_is_logged {W Data Buffer} (http : Http W Data Buffer)
    this (config : RequestConfig Data) w :
  let startTime := fst (ht_now http w) in
  let requestId := fst (ht_randomId http (snd (ht_now http w))) in
  let w2 := snd (ht_randomId http (snd (ht_now http w))) in
  let body := request_try http this config startTime requestId w2 in
  let entry lvl msg := EvLog (component (api_logger this)) lvl msg in
  let r := request http this config w in
  (forall e, outcome_of r = Threw e <-> outcome_of body = Threw e) /\
  (forall e, outcome_of body = Threw e ->
     r = (Threw e, snd (ht_now http (world_of body)),
          entry info (request_msg requestId)
            :: trace_of body ++ [entry error (failed_msg requestId)]) /\
     (trace_of body = [] \/
      (trace_of body = [entry info (response_msg requestId)] /\
       exists url payload response w3,
         buildUrl http this (rc_url config) (rc_params config) = Returned url /\
         ht_fetch http url
           (mkRequestInit (rc_method config) (request_headers this config) payload
              (request_timeout this config)) w2
         = (Returned response, w3) /\
         resp_ok response = false /\
         e = new_Error ("HTTP " ++ number_toString (resp_status response) ++ ": "
                          ++ resp_statusText response)%string))) /\
  (forall url payload e w3,
     buildUrl http this (rc_url config) (rc_params config) = Returned url ->
     match rc_data config with
     | Some d => if ht_truthy http d then ht_stringify http d else Returned None
     | None => Returned None
     end = Returned payload ->
     ht_abortTimeout http (request_timeout this config) = Returned tt ->
     ht_fetch http url
       (mkRequestInit (rc_method config) (request_headers this config) payload
          (request_timeout this config)) w2
     = (Threw e, w3) ->
     r = (Threw e, snd (ht_now http w3),
          [entry info (request_msg requestId); entry error (failed_msg requestId)])).
Proof.
  cbn zeta. pose proof (request_run http this config w) as Hrun.
  destruct (ht_now http w) as [startTime w1]. cbn [fst snd].
  destruct (ht_randomId http w1) as [requestId w2]. cbn [fst snd].
  cbn zeta in Hrun. rewrite Hrun. clear Hrun.
  split; [|split].
  - intros e. destruct (outcome_of (request_try http this config startTime requestId w2))
      as [response|e']; unfold outcome_of; cbn [fst]; split; intros H;
      try discriminate H; exact H.
  - intros e He. rewrite He. split; [reflexivity|].
    apply (request_try_failure http this config startTime requestId w2 e He).
  - intros url payload e w3 Hurl Hpayload Habort Hfetch.
    rewrite (request_try_fetch_failure http this config startTime requestId w2
               url payload e w3 Hurl Hpayload Habort Hfetch).
    reflexivity.
Qed.

Lemma request_failure_is_logged_witness :
  let r := request (sample_http 404 "Not Found" false) sample_client
             (mkRequestConfig GET "/users/0" None None None None) 0%nat in
  outcome_of r = Threw (new_Error "HTTP 404: Not Found") /\
  log_entries (trace_of r)
  = [(info, request_msg "k3j9x0q2p"); (info, response_msg "k3j9x0q2p");
     (error, failed_msg "k3j9x0q2p")].
Proof.
  cbn zeta.
  destruct (request_failure_is_logged (sample_http 404 "Not Found" false) sample_client
              (mkRequestConfig GET "/users/0" None None None None) 0%nat)
    as (_ & H & _).
  destruct (H (new_Error "HTTP 404: Not Found") eq_refl) as [-> _].
  split; reflexivity.
Defined.

(** X20.  [downloadFile] never reaches its own "Failed to download file"
    error: [request] raises for every response that is not [ok], so the
    test of [response.success] always passes, and [downloadFile] is the
    request followed by [Buffer.from] on the data. *)
Theorem downloadFile_failure_branch_is_dead {W Data Buffer} (http : Http W Data Buffer)
    this url headers w :
  let r := request http this (mkRequestConfig GET url headers None None None) w in
  downloadFile http this url headers w
  = bind (request http this (mkRequestConfig GET url headers None None None))
         (fun response => pure (ht_bufferFrom http (data response))) w /\
  (forall e, outcome_of (downloadFile http this url headers w) = Threw e ->
     outcome_of r = Threw e \/
     exists response, outcome_of r = Returned response /\
                      ht_bufferFrom http (data response) = Threw e).
Proof.
  cbn zeta.
  assert (Heq : downloadFile http this url headers w
                = bind (request http this (mkRequestConfig GET url headers None None None))
                       (fun response => pure (ht_bufferFrom http (data response))) w).
  { unfold downloadFile, bind.
    pose proof (request_cases http this (mkRequestConfig GET url headers None None None) w)
      as (requestId & Hc). cbn zeta in Hc.
    destruct (request http this (mkRequestConfig GET url headers None None None) w)
      as [[[response|e] w1] t]; [|reflexivity].
    unfold outcome_of in Hc. cbn [fst] in Hc.
    destruct Hc as [(resp & Ho & Hs & _)|[(e & Ho & _)|(st & text & Ho & _)]];
      try discriminate Ho.
    injection Ho as <-. rewrite Hs. reflexivity. }
  split; [exact Heq|].
  intros e. rewrite Heq. unfold bind, pure, outcome_of.
  destruct (request http this (mkRequestConfig GET url headers None None None) w)
    as [[[response|e'] w1] t]; cbn [fst].
  - intros He. right. exists response. split; [reflexivity|].
    destruct (ht_bufferFrom http (data response)); [discriminate He|exact He].
  - intros He. left. injection He as ->. reflexivity.
Qed.

(** X21.  The [Content-Type] that [uploadFile] takes out of the headers it
    passes on comes back when [request] merges them with the default
    headers: the headers sent for an upload are the default headers,
    [Content-Type] included. *)
Theorem uploadFile_sends_the_default_headers {W Data Buffer}
    (http : Http W Data Buffer) this url file fileName fieldName w key :
  NoDup (map fst (defaultHeaders this)) ->
  uploadFile http this url file fileName fieldName w
  = bind (pure (ht_formData http file fileName (param fieldName "file"%string)))
         (fun formData =>
            request http this
              (mkRequestConfig POST url (Some (uploadFile_headers this))
                 (Some formData) None None)) w /\
  obj_get "Content-Type" (uploadFile_headers this) = None /\
  forall formData : Data,
    obj_get key (request_headers this
                   (mkRequestConfig POST url (Some (uploadFile_headers this))
                      (Some formData) None None))
    = obj_get key (defaultHeaders this).
Proof.
  intros Hnd. split; [reflexivity|]. split.
  - apply obj_get_delete_same.
  - intros formData. unfold request_headers, uploadFile_headers. cbn [rc_headers param].
    assert (Hcopy : NoDup (map fst (obj_spread [] (defaultHeaders this))))
      by (apply NoDup_spread; constructor).
    rewrite obj_get_spread by (apply NoDup_delete; exact Hcopy).
    destruct (String.eqb_spec key "Content-Type") as [->|Hne].
    + rewrite obj_get_delete_same. reflexivity.
    + rewrite obj_get_delete_other by assumption.
      rewrite (obj_get_spread key _ Hnd). cbn [obj_get].
      destruct (obj_get key (defaultHeaders this)); reflexivity.
Qed.

Lemma uploadFile_sends_the_default_headers_witness :
  NoDup (map fst (defaultHeaders sample_client)) /\
  obj_get "Content-Type"
    (request_headers sample_client
       (mkRequestConfig POST "/files" (Some (uploadFile_headers sample_client))
          (Some "form"%string) None None))
  = Some "application/json"%string.
Proof.
  assert (H : NoDup (map fst (defaultHeaders sample_client))).
  { repeat constructor; cbn; intuition discriminate. }
  split; [exact H|].
  exact (proj2 (proj2 (uploadFile_sends_the_default_headers
                         (sample_http 200 "OK" true) sample_client "/files"
                         "bytes"%string "a.png" None 0%nat "Content-Type" H))
               "form"%string).
Defined.

(** ** Generated data *)

(** Unfolding a well-founded recursion whose values are functions, argument
    by argument. *)
Lemma Fix_F_pointwise {A : Type} (R : A -> A -> Prop) {B C : Type}
    (step : forall x : A, (forall y : A, R y x -> B -> C) -> B -> C) :
  (forall x (f g : forall y : A, R y x -> B -> C),
      (forall y p b, f y p b = g y p b) -> forall b, step x f b = step x g b) ->
  forall x (r s : Acc R x) b,
    @Init.Wf.Fix_F A R (fun _ => B -> C) step x r b = @Init.Wf.Fix_F A R (fun _ => B -> C) step x s b.
Proof.
  intros Hext x r. induction r as [x a IH] using Acc_inv_dep. intros s b.
  rewrite <- (@Init.Wf.Fix_F_eq A R (fun _ => B -> C) step x (Acc_intro x a)).
  rewrite <- (@Init.Wf.Fix_F_eq A R (fun _ => B -> C) step x s).
  apply Hext. intros y p b'. apply IH.
Qed.

Lemma Fix_pointwise {A : Type} (R : A -> A -> Prop) (Rwf : well_founded R) {B C : Type}
    (step : forall x : A, (forall y : A, R y x -> B -> C) -> B -> C) :
  (forall x (f g : forall y : A, R y x -> B -> C),
      (forall y p b, f y p b = g y p b) -> forall b, step x f b = step x g b) ->
  forall x b,
    @Init.Wf.Fix A R Rwf (fun _ => B -> C) step x b
    = step x (fun y _ => @Init.Wf.Fix A R Rwf (fun _ => B -> C) step y) b.
Proof.
  intros Hext x b. unfold Fix.
  rewrite <- (@Init.Wf.Fix_F_eq A R (fun _ => B -> C) step x (Rwf x)).
  apply Hext. intros y p b'. apply Fix_F_pointwise. exact Hext.
Qed.

Section GeneratorFacts.

Context {W : Type}.
Variable random : Random W.

Lemma fill_loop_step charset length i password w :
  fill_loop random charset length i password w =
  if i <? length then
    bind (getRandomChar random charset)
         (fun c => fill_loop random charset length (i + 1) (password ++ c)%string) w
  else (Returned password, w, []).
Proof.
  unfold fill_loop at 1. unfold Subterm.FixWf, M.
  rewrite Fix_pointwise.
  - unfold fill_loop_functional. cbn [pr1 pr2].
    destruct (Z_lt_ge_dec i length) as [Hlt|Hge];
      destruct (Z.ltb_spec i length); try lia; reflexivity.
  - intros [xi xp] f g H b. cbn [pr1 pr2] in *.
    unfold fill_loop_functional, fill_loop_clause_1.
    destruct (Z_lt_ge_dec xi length) as [Hlt|Hge]; [|reflexivity].
    unfold bind.
    destruct (getRandomChar random charset b) as [[[c|e] w1] t1]; [|reflexivity].
    rewrite H. reflexivity.
Qed.

Lemma fill_loop_ind length (P : Z -> Prop) :
  (forall i, length <= i -> P i) ->
  (forall i, i < length -> P (i + 1) -> P i) ->
  forall i, P i.
Proof.
  intros Hexit Hstep i.
  remember (Z.to_nat (length - i)) as n eqn:Hn.
  revert i Hn. induction n as [|n IH]; intros i Hn.
  - apply Hexit. lia.
  - apply Hstep; [lia|]. apply IH. lia.
Qed.


Lemma chars_append a b : chars (a ++ b)%string = chars a ++ chars b.
Proof. induction a as [|c a IH]; cbn; [reflexivity|]. f_equal. exact IH. Qed.

Lemma length_chars s : length (chars s) = String.length s.
Proof. induction s as [|c s IH]; cbn; [reflexivity|]. f_equal. exact IH. Qed.

Lemma get_in_chars s : forall n,
  (n < String.length s)%nat -> exists c, String.get n s = Some c /\ In c (chars s).
Proof.
  induction s as [|c s IH]; intros n Hn; cbn in Hn; [lia|].
  destruct n as [|n]; cbn.
  - exists c. auto.
  - destruct (IH n ltac:(lia)) as (c' & Hg & Hin). exists c'. auto.
Qed.

(** A character drawn from a set that is not empty is one of its
    characters. *)
Lemma getRandomChar_draws charset w :
  fair random -> charset <> ""%string ->
  exists c,
    getRandomChar random charset w
    = (Returned (String c ""), snd (rnd_floor random (Z.of_nat (String.length charset)) w),
       []) /\
    In c (chars charset).
Proof.
  intros [Hfloor _] Hne.
  assert (Hlen : 0 < Z.of_nat (String.length charset)).
  { destruct charset; [contradiction|cbn; lia]. }
  specialize (Hfloor _ w Hlen).
  cbv [getRandomChar bind total ret].
  destruct (rnd_floor random (Z.of_nat (String.length charset)) w) as [index w1].
  cbn [fst snd] in *. unfold charAt.
  destruct (Z.ltb_spec index 0); [lia|].
  destruct (get_in_chars charset (Z.to_nat index) ltac:(lia)) as (c & Hg & Hin).
  rewrite Hg. exists c. split; [reflexivity|exact Hin].
Qed.

(** The filling loop appends one character of the set per iteration left. *)
Lemma fill_loop_appends charset length :
  fair random -> charset <> ""%string ->
  forall i password w,
  exists added,
    outcome_of (fill_loop random charset length i password w)
    = Returned (password ++ added)%string /\
    String.length added = Z.to_nat (length - i) /\
    Forall (fun c => In c (chars charset)) (chars added) /\
    trace_of (fill_loop random charset length i password w) = [].
Proof.
  intros Hfair Hne i. pattern i. apply (fill_loop_ind length); clear i.
  - intros i Hi password w. rewrite fill_loop_step.
    destruct (Z.ltb_spec i length); [lia|].
    exists ""%string. cbn.
    assert (Happ : forall s, (s ++ "")%string = s)
      by (induction s as [|c s IH]; cbn; [reflexivity|rewrite IH; reflexivity]).
    rewrite Happ. repeat split; [lia|constructor].
  - intros i Hi IH password w. rewrite fill_loop_step.
    destruct (Z.ltb_spec i length); [|lia].
    destruct (getRandomChar_draws charset w Hfair Hne) as (c & Hc & Hin).
    unfold bind. rewrite Hc.
    destruct (IH (password ++ String c "")%string
                 (snd (rnd_floor random (Z.of_nat (String.length charset)) w)))
      as (added & Ho & Hl & Hall & Ht).
    destruct (fill_loop random charset length (i + 1) _ _) as [[o w2] t2].
    unfold outcome_of, trace_of in *. cbn [fst snd] in *. subst o t2.
    exists (String c added).
    assert (Hassoc : forall a b d, ((a ++ b) ++ d)%string = (a ++ b ++ d)%string)
      by (induction a as [|x a IHa]; cbn; intros; [reflexivity|rewrite IHa; reflexivity]).
    rewrite Hassoc. cbn [String.append String.length chars list_ascii_of_string].
    repeat split; [lia|].
    constructor; assumption.
Qed.

End GeneratorFacts.

Lemma length_string_of_list l : String.length (string_of_list_ascii l) = length l.
Proof. induction l as [|c l IH]; cbn; [reflexivity|]. f_equal. exact IH. Qed.

(** X22.  With a random source that keeps its word, [generatePassword]
    returns a password of [max(length, 4)] characters ([max(length, 3)]
    without special characters) -- so a length below four is not honoured
    -- that holds a lower-case letter, an upper-case letter, a digit and,
    when asked for, a special character, and no character from outside
    these sets. *)
Theorem generatePassword_shape {W} (random : Random W) (length : Z)
    (includeSpecialChars : bool) w :
  fair random ->
  let charset := (if includeSpecialChars
                  then (lowercase ++ uppercase ++ numbers) ++ specialChars
                  else lowercase ++ uppercase ++ numbers)%string in
  exists password,
    outcome_of (generatePassword random (Some length) (Some includeSpecialChars) w)
    = Returned password /\
    String.length password
    = Z.to_nat (Z.max length (if includeSpecialChars then 4 else 3)) /\
    (exists c, In c (chars password) /\ In c (chars lowercase)) /\
    (exists c, In c (chars password) /\ In c (chars uppercase)) /\
    (exists c, In c (chars password) /\ In c (chars numbers)) /\
    (includeSpecialChars = true ->
     exists c, In c (chars password) /\ In c (chars specialChars)) /\
    Forall (fun c => In c (chars charset)) (chars password).
Proof.
  intros Hfair charset.
  assert (Hsub : forall c,
            In c (chars lowercase) \/ In c (chars uppercase) \/ In c (chars numbers)
            \/ (includeSpecialChars = true /\ In c (chars specialChars)) ->
            In c (chars charset)).
  { intros c Hc. unfold charset.
    destruct includeSpecialChars; rewrite !chars_append, ?in_app_iff;
      intuition congruence. }
  assert (Hne : charset <> ""%string)
    by (unfold charset; destruct includeSpecialChars; discriminate).
  assert (Hlow : lowercase <> ""%string) by discriminate.
  assert (Hupp : uppercase <> ""%string) by discriminate.
  assert (Hnum : numbers <> ""%string) by discriminate.
  assert (Hspe : specialChars <> ""%string) by discriminate.
  unfold generatePassword. cbn [param]. fold charset.
  unfold bind at 1.
  destruct (getRandomChar_draws random lowercase w Hfair Hlow)
    as (c1 & -> & H1).
  set (w1 := snd (rnd_floor random _ w)).
  unfold bind at 1.
  destruct (getRandomChar_draws random uppercase w1 Hfair Hupp)
    as (c2 & -> & H2).
  set (w2 := snd (rnd_floor random _ w1)).
  unfold bind at 1.
  destruct (getRandomChar_draws random numbers w2 Hfair Hnum)
    as (c3 & -> & H3).
  set (w3 := snd (rnd_floor random _ w2)).
  cbn [String.append].
  assert (Hfourth :
            exists special w4,
              (if includeSpecialChars
               then bind (getRandomChar random specialChars)
                      (fun c4 => ret (String c1 (String c2 (String c3 c4))))
               else ret (String c1 (String c2 (String c3 "")))) w3
              = (Returned (String c1 (String c2 (String c3 special))), w4, []) /\
              String.length special = (if includeSpecialChars then 1 else 0)%nat /\
              Forall (fun c => In c (chars specialChars)) (chars special) /\
              (includeSpecialChars = true ->
               exists c, In c (chars special))).
  { destruct includeSpecialChars.
    - destruct (getRandomChar_draws random specialChars w3 Hfair Hspe)
        as (c4 & Hc4 & H4).
      exists (String c4 ""), (snd (rnd_floor random
                                    (Z.of_nat (String.length specialChars)) w3)).
      unfold bind. rewrite Hc4.
      split; [reflexivity|]. split; [reflexivity|]. split.
      + constructor; [exact H4|constructor].
      + intros _. exists c4. left. reflexivity.
    - exists ""%string, w3.
      split; [reflexivity|]. split; [reflexivity|]. split; [constructor|discriminate]. }
  destruct Hfourth as (special & w4 & Hrun & Hlen4 & Hall4 & Hex4).
  unfold bind at 1. rewrite Hrun. cbv beta iota zeta.
  set (start := String c1 (String c2 (String c3 special))).
  destruct (fill_loop_appends random charset length Hfair Hne
              (Z.of_nat (String.length start)) start w4)
    as (added & Ho & Hl & Hall & Ht).
  unfold bind.
  destruct (fill_loop random charset length (Z.of_nat (String.length start)) start w4)
    as [[o w5] t5].
  unfold outcome_of, trace_of in Ho, Ht. cbn [fst snd] in Ho, Ht. subst o t5.
  unfold total, ret.
  pose proof (proj2 Hfair (list_ascii_of_string (start ++ added)) w5) as Hperm.
  destruct (rnd_shuffle random (list_ascii_of_string (start ++ added)) w5)
    as [shuffled w6].
  cbn [fst snd] in Hperm. unfold outcome_of. cbn [fst].
  exists (string_of_list_ascii shuffled). split; [reflexivity|].
  unfold chars. rewrite list_ascii_of_string_of_list_ascii, length_string_of_list.
  fold (chars (start ++ added)) in Hperm. rewrite chars_append in Hperm.
  assert (Hin : forall c, In c (chars start ++ chars added) -> In c shuffled)
    by (intros c; apply Permutation_in; exact Hperm).
  assert (Hin' : forall c, In c shuffled -> In c (chars start ++ chars added))
    by (intros c; apply Permutation_in; symmetry; exact Hperm).
  split.
  { rewrite <- (Permutation_length Hperm), length_app, !length_chars, Hl.
    unfold start. cbn [String.length]. rewrite Hlen4.
    destruct includeSpecialChars; lia. }
  unfold start in Hin, Hin'. cbn [chars list_ascii_of_string app] in Hin, Hin'.
  fold (chars special) in Hin, Hin'.
  split; [exists c1; split; [apply Hin; left; reflexivity|exact H1]|].
  split; [exists c2; split; [apply Hin; right; left; reflexivity|exact H2]|].
  split; [exists c3; split; [apply Hin; right; right; left; reflexivity|exact H3]|].
  split.
  - intros Hincl. destruct (Hex4 Hincl) as (c4 & Hc4). exists c4. split.
    + apply Hin. right. right. right. apply in_or_app. left. exact Hc4.
    + rewrite Forall_forall in Hall4. apply Hall4. exact Hc4.
  - rewrite Forall_forall. intros c Hc. specialize (Hin' c Hc).
    cbn [In] in Hin'. rewrite !in_app_iff in Hin'.
    rewrite Forall_forall in Hall, Hall4.
    destruct Hin' as [<-|[<-|[<-|[Hs|Ha]]]]; try (apply Hsub; tauto).
    + apply Hsub. right. right. right. split; [|apply Hall4; exact Hs].
      destruct includeSpecialChars; [reflexivity|].
      destruct special; [destruct Hs|discriminate Hlen4].
    + apply Hall. exact Ha.
Qed.

Lemma sample_random_fair : fair sample_random.
Proof.
  split.
  - intros n w Hn. cbn [sample_random rnd_floor fst]. apply Z.mod_pos_bound. exact Hn.
  - intros l w. cbn [sample_random rnd_shuffle fst]. apply Permutation_rev.
Qed.

Lemma generatePassword_shape_witness :
  fair sample_random /\
  exists password,
    outcome_of (generatePassword sample_random (Some 2) (Some true) 0%nat)
    = Returned password /\
    String.length password = 4%nat.
Proof.
  split; [exact sample_random_fair|].
  destruct (generatePassword_shape sample_random 2 true 0%nat sample_random_fair)
    as (password & Hrun & Hlen & _).
  exists password. split; [exact Hrun|exact Hlen].
Defined.

(** X23.  With a random source that keeps its word, [generateSKU] returns
    seven characters: three upper-case letters followed by four digits. *)
Theorem generateSKU_format {W} (random : Random W) w :
  fair random ->
  exists letters digits,
    outcome_of (generateSKU random w) = Returned (letters ++ digits)%string /\
    String.length letters = 3%nat /\
    String.length digits = 4%nat /\
    Forall (fun c => In c (chars uppercase)) (chars letters) /\
    Forall (fun c => In c (chars numbers)) (chars digits).
Proof.
  intros Hfair.
  assert (Hupp : uppercase <> ""%string) by discriminate.
  assert (Hnum : numbers <> ""%string) by discriminate.
  unfold generateSKU. fold uppercase. fold numbers.
  destruct (fill_loop_appends random uppercase 3 Hfair Hupp 0 ""%string w)
    as (letters & Ho & Hl & Hall & Ht).
  unfold bind at 1.
  destruct (fill_loop random uppercase 3 0 ""%string w) as [[o w1] t1].
  unfold outcome_of, trace_of in Ho, Ht. cbn [fst snd] in Ho, Ht. subst o t1.
  cbn [String.append] in *.
  destruct (fill_loop_appends random numbers 4 Hfair Hnum 0 letters w1)
    as (digits & Ho' & Hl' & Hall' & Ht').
  unfold bind.
  destruct (fill_loop random numbers 4 0 letters w1) as [[o w2] t2].
  unfold outcome_of, trace_of in *. cbn [fst snd] in *. subst o t2.
  exists letters, digits.
  split; [reflexivity|]. split; [exact Hl|]. split; [exact Hl'|].
  split; [exact Hall|exact Hall'].
Qed.

Lemma generateSKU_format_witness :
  fair sample_random /\
  exists letters digits,
    outcome_of (generateSKU sample_random 0%nat) = Returned (letters ++ digits)%string /\
    String.length letters = 3%nat /\
    String.length digits = 4%nat.
Proof.
  split; [exact sample_random_fair|].
  destruct (generateSKU_format sample_random 0%nat sample_random_fair)
    as (letters & digits & Hrun & Hl & Hd & _).
  exists letters, digits. split; [exact Hrun|]. split; [exact Hl|exact Hd].
Defined.

(** The sample source draws the stock-keeping unit DKR4185. *)
Example generateSKU_sample :
  outcome_of (generateSKU sample_random 0%nat) = Returned "DKR4185"%string.
Proof. vm_compute. reflexivity. Qed.

(** ** Screenshots *)

Lemma length_replace_non_alphanumeric s :
  String.length (replace_non_alphanumeric s) = length s.
Proof. induction s as [|u s IH]; cbn; [reflexivity|]. f_equal. exact IH. Qed.

(** The sanitised name, code unit by code unit. *)
Lemma get_replace_non_alphanumeric s :
  forall k u, nth_error s k = Some u ->
  String.get k (replace_non_alphanumeric s)
  = Some (if is_alphanumeric u then ascii_of_N u else "_"%char).
Proof.
  induction s as [|v s IH]; intros [|k] u H; cbn in H; try discriminate.
  - injection H as <-. reflexivity.
  - cbn [replace_non_alphanumeric String.get]. apply IH. exact H.
Qed.

Lemma replace_non_alphanumeric_chars s :
  Forall (fun c => is_alphanumeric (N_of_ascii c) = true \/ c = "_"%char)
         (chars (replace_non_alphanumeric s)).
Proof.
  induction s as [|u s IH]; [constructor|].
  cbn [replace_non_alphanumeric chars list_ascii_of_string].
  constructor; [|exact IH].
  destruct (is_alphanumeric u) eqn:E; [left|right; reflexivity].
  rewrite N_ascii_embedding; [exact E|].
  unfold is_alphanumeric in E.
  destruct (N.leb_spec u 57), (N.leb_spec u 90), (N.leb_spec u 122);
    rewrite ?andb_false_r in E; cbn in E; try discriminate E; lia.
Qed.

Lemma replace_colon_dot_chars s :
  Forall (fun c => c <> ":"%char /\ c <> "."%char) (chars (replace_colon_dot s)).
Proof.
  induction s as [|c s IH]; [constructor|].
  cbn [replace_colon_dot chars list_ascii_of_string].
  constructor; [|exact IH].
  destruct (Ascii.eqb_spec c ":") as [->|Hc]; [split; discriminate|].
  destruct (Ascii.eqb_spec c ".") as [->|Hd]; [split; discriminate|].
  cbn [orb]. split; assumption.
Qed.

(** X24.  [takeFailureScreenshot] saves the screenshot in the failures
    directory under the name FAILURE_, the test name with every UTF-16
    code unit outside [a-zA-Z0-9] replaced by an underscore and the others
    kept (so as long as the test name), an underscore, the ISO time stamp
    with its colons and dots replaced by dashes, and .png.  The directory
    is created first when it does not exist.  When the screenshot is saved,
    that path is returned and the only entry logged, at error level, names
    it.  When saving throws, that error, not the test's, is thrown after
    the one error entry "Failed to take failure screenshot".  An exception
    of [existsSync] or [mkdirSync] is thrown as it is, with nothing logged
    and no screenshot attempted. *)
Theorem takeFailureScreenshot_cases {W} (files : Files W) this testName failure w :
  let name := replace_non_alphanumeric testName in
  let timestamp := replace_colon_dot (fst (fs_isoNow files w)) in
  let failuresDir := fs_join files [screenshotDir this; "failures"%string] in
  let filePath :=
    fs_join files [screenshotDir this; "failures";
                   "FAILURE_" ++ name ++ "_" ++ timestamp ++ ".png"]%string in
  let present := fs_existsSync files failuresDir (snd (fs_isoNow files w)) in
  let created := fs_mkdirSync files failuresDir (snd present) in
  let saved w3 := fs_saveScreenshot files filePath w3 in
  let r := takeFailureScreenshot files this testName failure w in
  (String.length name = length testName /\
   (forall k u, nth_error testName k = Some u ->
      String.get k name = Some (if is_alphanumeric u then ascii_of_N u else "_"%char)) /\
   Forall (fun c => is_alphanumeric (N_of_ascii c) = true \/ c = "_"%char) (chars name) /\
   Forall (fun c => c <> ":"%char /\ c <> "."%char) (chars timestamp)) /\
  (forall e, fst present = Threw e -> r = (Threw e, snd present, [])) /\
  (forall e, fst present = Returned false -> fst created = Threw e ->
     r = (Threw e, snd created, [])) /\
  (forall w3,
     (fst present = Returned true /\ w3 = snd present) \/
     (fst present = Returned false /\ fst created = Returned tt /\ w3 = snd created) ->
     (fst (saved w3) = Returned tt ->
      r = (Returned filePath, snd (saved w3),
           [EvLog (component (su_logger this)) error
              ("Failure screenshot saved: " ++ filePath)%string])) /\
     (forall e, fst (saved w3) = Threw e ->
      r = (Threw e, snd (saved w3),
           [EvLog (component (su_logger this)) error
              "Failed to take failure screenshot"%string]))).
Proof.
  cbn zeta. split; [|split; [|split]].
  - split; [apply length_replace_non_alphanumeric|].
    split; [apply get_replace_non_alphanumeric|].
    split; [apply replace_non_alphanumeric_chars|apply replace_colon_dot_chars].
  - intros e He. unfold takeFailureScreenshot.
    unfold bind at 1. unfold total at 1.
    destruct (fs_isoNow files w) as [iso w1]. cbn [fst snd] in *.
    unfold bind at 1. unfold extern at 1.
    destruct (fs_existsSync files _ w1) as [o w2]. cbn [fst snd] in *. subst o.
    reflexivity.
  - intros e Hp He. unfold takeFailureScreenshot.
    unfold bind at 1. unfold total at 1.
    destruct (fs_isoNow files w) as [iso w1]. cbn [fst snd] in *.
    unfold bind at 1. unfold extern at 1.
    destruct (fs_existsSync files _ w1) as [o w2]. cbn [fst snd] in *. subst o.
    unfold bind at 1. cbn [negb]. unfold extern at 1.
    destruct (fs_mkdirSync files _ w2) as [o w3]. cbn [fst snd] in *. subst o.
    reflexivity.
  - intros w3 Hw3.
    cbv [takeFailureScreenshot bind total extern try_catch Logger_error Logger_log
         ret throw].
    destruct (fs_isoNow files w) as [iso w1]. cbn [fst snd] in *.
    destruct (fs_existsSync files _ w1) as [o w2]. cbn [fst snd] in *.
    destruct Hw3 as [[-> ->]|(-> & Hc & ->)]; cbn [negb].
    + destruct (fs_saveScreenshot files _ w2) as [[[]|e] w4]; cbn [fst snd app];
        split; intros; try discriminate; try reflexivity.
      match goal with H : Threw _ = Threw _ |- _ => injection H as <- end.
      reflexivity.
    + destruct (fs_mkdirSync files _ w2) as [o w3]. cbn [fst snd] in *. subst o.
      destruct (fs_saveScreenshot files _ w3) as [[[]|e] w4]; cbn [fst snd app];
        split; intros; try discriminate; try reflexivity.
      match goal with H : Threw _ = Threw _ |- _ => injection H as <- end.
      reflexivity.
Qed.

(** X25.  [compareScreenshots] never throws and writes exactly one log
    entry.  It looks for both files first.  A missing baseline is answered
    [false] with a warning that names it; otherwise a missing actual file
    is answered [false] with an error entry that names it; when both exist
    the answer is [true], with the info entry "Screenshot comparison
    performed"; and an exception of either look-up is answered [false]
    with the error entry "Screenshot comparison failed". *)
Theorem compareScreenshots_never_throws {W} (files : Files W) this
    baselinePath actualPath diffPath w :
  let baseline := fs_existsSync files baselinePath w in
  let actual := fs_existsSync files actualPath (snd baseline) in
  let entry lvl msg := [EvLog (component (su_logger this)) lvl msg] in
  let r := compareScreenshots files this baselinePath actualPath diffPath w in
  (exists same entry, outcome_of r = Returned same /\ log_entries (trace_of r) = [entry]) /\
  (outcome_of r = Returned true <->
   fst baseline = Returned true /\ fst actual = Returned true) /\
  (forall e, fst baseline = Threw e ->
     r = (Returned false, snd baseline, entry error "Screenshot comparison failed"%string)) /\
  (forall exists_, fst baseline = Returned exists_ ->
     (forall e, fst actual = Threw e ->
        r = (Returned false, snd actual,
             entry error "Screenshot comparison failed"%string)) /\
     (forall exists', fst actual = Returned exists' ->
        r = if negb exists_
            then (Returned false, snd actual,
                  entry warn ("Baseline screenshot not found: " ++ baselinePath)%string)
            else if negb exists'
            then (Returned false, snd actual,
                  entry error ("Actual screenshot not found: " ++ actualPath)%string)
            else (Returned true, snd actual,
                  entry info "Screenshot comparison performed"%string))).
Proof.
  cbv [compareScreenshots try_catch bind extern Logger_error Logger_warn Logger_info
       Logger_log ret outcome_of trace_of].
  destruct (fs_existsSync files baselinePath w) as [[baselineExists|e] w1];
    cbn [fst snd].
  - destruct (fs_existsSync files actualPath w1) as [[actualExists|e] w2];
      cbn [fst snd].
    + destruct baselineExists, actualExists;
        cbn [negb fst snd app log_entries flat_map];
        (split; [eexists _, _; split; reflexivity|]);
        (split; [split; [intros H; try discriminate H; auto
                        |intros [H1 H2]; try discriminate H1; try discriminate H2;
                         reflexivity]|]);
        (split; [intros e H; discriminate H|]);
        intros b Hb; injection Hb as <-;
        (split; [intros e H; discriminate H|]);
        intros b' Hb'; injection Hb' as <-; reflexivity.
    + destruct baselineExists;
        cbn [negb fst snd app log_entries flat_map];
        (split; [eexists _, _; split; reflexivity|]);
        (split; [split; [intros H; discriminate H
                        |intros [H1 H2]; try discriminate H1; discriminate H2]|]);
        (split; [intros e' H; discriminate H|]);
        intros b Hb; injection Hb as <-;
        (split; [intros e' H; injection H as <-; reflexivity|]);
        intros b' Hb'; discriminate Hb'.
  - cbn [negb fst snd app log_entries flat_map].
    split; [eexists _, _; split; reflexivity|].
    split; [split; [intros H; discriminate H|intros [H1 _]; discriminate H1]|].
    split; [intros e' H; injection H as <-; reflexivity|].
    intros b Hb. discriminate Hb.
Qed.

(** ** The time spent suspended *)

Lemma sum_app l1 l2 : sum (l1 ++ l2) = sum l1 + sum l2.
Proof. unfold sum. induction l1 as [|x l1 IH]; cbn [app fold_right]; lia. Qed.

Lemma pow2_pred a : 1 <= a -> 2 ^ a = 2 * 2 ^ (a - 1).
Proof.
  intros Ha. replace a with (Z.succ (a - 1)) at 1 by lia.
  apply Z.pow_succ_r. lia.
Qed.

(** From attempt [attempt] on, the loop suspends for at most what is left
    of the geometric series. *)
Lemma backoff_loop_suspension {W} (driver : Driver W) this condition
    maxAttempts baseDelay :
  0 <= baseDelay ->
  forall attempt w, 1 <= attempt ->
    0 <= sum (pauses (trace_of
                        (backoff_loop driver this condition maxAttempts baseDelay
                           attempt w)))
      <= baseDelay * (2 ^ (Z.max maxAttempts attempt - 1) - 2 ^ (attempt - 1)).
Proof.
  intros Hb attempt. pattern attempt.
  apply (backoff_loop_ind maxAttempts); clear attempt.
  - intros attempt H w Ha. rewrite backoff_loop_exit by assumption.
    replace (Z.max maxAttempts attempt) with attempt by lia.
    cbn. lia.
  - intros attempt H IH w Ha. rewrite backoff_loop_step by assumption.
    replace (Z.max maxAttempts attempt) with maxAttempts by lia.
    assert (Hmono : 2 ^ (attempt - 1) <= 2 ^ (maxAttempts - 1))
      by (apply Z.pow_le_mono_r; lia).
    assert (Hpos : 0 < 2 ^ (attempt - 1)) by (apply Z.pow_pos_nonneg; lia).
    destruct (cond_eval condition w) as [r w1].
    specialize (IH (delay_world driver maxAttempts baseDelay attempt w1) ltac:(lia)).
    destruct (backoff_loop driver this condition maxAttempts baseDelay (attempt + 1) _)
      as [[o w2] t].
    unfold trace_of in IH |- *. cbn [snd] in IH |- *.
    assert (Hp : forall r0,
              sum (pauses (eval_events (wu_logger this) attempt r0
                     ++ delay_events (wu_logger this) maxAttempts baseDelay attempt ++ t))
              = (if attempt <? maxAttempts then baseDelay * 2 ^ (attempt - 1) else 0)
                + sum (pauses t)).
    { intros r0. rewrite !pauses_app, !sum_app. unfold delay_events.
      destruct r0 as [b|e]; destruct (attempt <? maxAttempts); cbn; lia. }
    assert (Hrest : 0 <= (if attempt <? maxAttempts
                          then baseDelay * 2 ^ (attempt - 1) else 0) + sum (pauses t)
                    <= baseDelay * (2 ^ (maxAttempts - 1) - 2 ^ (attempt - 1))).
    { destruct (Z.ltb_spec attempt maxAttempts) as [Hlt|Hge].
      - replace (Z.max maxAttempts (attempt + 1)) with maxAttempts in IH by lia.
        replace (attempt + 1 - 1) with attempt in IH by lia.
        rewrite (pow2_pred attempt) in IH by lia. nia.
      - replace (Z.max maxAttempts (attempt + 1)) with (attempt + 1) in IH by lia.
        replace maxAttempts with attempt by lia. lia. }
    destruct r as [[|]|e]; cbn [snd]; rewrite ?Hp; [|exact Hrest|exact Hrest].
    cbn. nia.
Qed.

(** X26.  Whatever the condition does, [waitWithBackoff] suspends for at
    most [baseDelay * (2^(maxAttempts-1) - 1)] ms in all: at most 15000 ms
    with the default arguments. *)
Theorem waitWithBackoff_suspension_bound {W} (driver : Driver W) this condition
    maxAttempts baseDelay w :
  0 <= baseDelay -> 1 <= maxAttempts ->
  0 <= sum (pauses (trace_of (waitWithBackoff driver this condition
                                (Some maxAttempts) (Some baseDelay) w)))
    <= baseDelay * (2 ^ (maxAttempts - 1) - 1).
Proof.
  intros Hb Hm. rewrite waitWithBackoff_run.
  pose proof (backoff_loop_suspension driver this condition maxAttempts baseDelay Hb 1 w
                ltac:(lia)) as H.
  replace (Z.max maxAttempts 1) with maxAttempts in H by lia.
  destruct (backoff_loop driver this condition maxAttempts baseDelay 1 w) as [[o w1] t].
  unfold trace_of in *. cbn [snd] in *.
  change (pauses (EvLog (component (wu_logger this)) debug
                    ("Waiting with exponential backoff, max attempts: "
                       ++ number_toString maxAttempts)%string :: t))
    with (pauses t).
  cbn in H. lia.
Qed.

Lemma waitWithBackoff_suspension_bound_witness :
  0 <= sum (pauses (trace_of (waitWithBackoff script_driver new_WaitUtils third_time
                                (Some 5) (Some 1000) 0%nat)))
    <= 15000.
Proof.
  apply (waitWithBackoff_suspension_bound script_driver new_WaitUtils third_time
           5 1000 0%nat); lia.
Defined.

Lemma sum_backoff b n :
  forall a, 1 <= a ->
  sum (map (fun k => b * 2 ^ (k - 1)) (attempts_from a n))
  = b * 2 ^ (a - 1) * (2 ^ Z.of_nat n - 1).
Proof.
  induction n as [|n IH]; intros a Ha.
  - cbn. lia.
  - cbn [attempts_from map]. unfold sum in *. cbn [fold_right].
    rewrite IH by lia. replace (a + 1 - 1) with a by lia.
    rewrite (pow2_pred a) by lia.
    rewrite Nat2Z.inj_succ, Z.pow_succ_r by lia. ring.
Qed.

(** X27.  When the condition never holds, [waitWithBackoff] has been
    suspended for exactly [baseDelay * (2^(maxAttempts-1) - 1)] ms when it
    gives up. *)
Theorem waitWithBackoff_total_suspension {W} (driver : Driver W) this condition
    maxAttempts baseDelay w :
  never_true condition -> 1 <= maxAttempts ->
  sum (pauses (trace_of (waitWithBackoff driver this condition
                           (Some maxAttempts) (Some baseDelay) w)))
  = baseDelay * (2 ^ (maxAttempts - 1) - 1).
Proof.
  intros Hnever Hm.
  destruct (waitWithBackoff_never_true driver this condition maxAttempts baseDelay w Hnever)
    as [_ Hs].
  rewrite pauses_schedule, Hs, suspensions_backoff_schedule, sum_backoff by lia.
  rewrite Z2Nat.id by lia. cbn. ring.
Qed.

Lemma waitWithBackoff_total_suspension_witness :
  never_true never_ready /\
  sum (pauses (trace_of (waitWithBackoff script_driver new_WaitUtils never_ready
                           (Some 5) (Some 1000) 0%nat)))
  = 15000.
Proof.
  assert (Hnever : never_true never_ready) by (intros w; discriminate).
  split; [exact Hnever|].
  apply (waitWithBackoff_total_suspension script_driver new_WaitUtils never_ready
           5 1000 0%nat Hnever). lia.
Defined.
